(** * IoT_crypto: a shallow embedding of [class Crypto] (src/IoT_crypto/main.cpp)

    The C++ class wraps OpenSSL: hex codec at the boundary, ECDSA over
    prime256v1 (sign / verify), ECDH (getSharedKey) and AES-128-CCM
    (encrypt / decrypt).  The embedding follows the source call by call.
    C++ exceptions are an explicit [result] type; the library calls are
    modelled after their documented contracts (man pages EVP_EncryptInit(3),
    EC_POINT_new(3), ECDSA_SIG_new(3), and the reference implementation).

    Layout: definitions first (codec, bignum helpers, DER, curve arithmetic,
    ECDSA, SHA-256, AES, CCM, the EVP cipher context, the six methods of
    [Crypto]), then the theorems. *)

From Stdlib Require Import ZArith List Bool Lia.
From Stdlib.Strings Require Import String Ascii Byte.
From Stdlib Require Import Znumtheory Zdivisibility Zcong Zbitwise Zpow_facts Zmod.
From Stdlib Require Import ZNsatz.
Import ListNotations.

Local Open Scope Z_scope.

(* ================================================================== *)
(** * Part I — definitions                                             *)
(* ================================================================== *)

(** ** Exceptions and results *)

(** The exception classes the program can raise: [std::runtime_error] is
    thrown by the class itself, [std::invalid_argument] and
    [std::out_of_range] by [std::stoi] inside [hexToBytes]. *)
Inductive exn : Type :=
| runtime_error (what : string)
| invalid_argument (what : string)
| out_of_range (what : string).

Inductive result (A : Type) : Type :=
| Ok (a : A)
| Throw (e : exn).

Arguments Ok {A} a.
Arguments Throw {A} e.

Definition bind {A B : Type} (r : result A) (k : A -> result B) : result B :=
  match r with
  | Ok a => k a
  | Throw e => Throw e
  end.

Notation "x <- r ;; k" := (bind r (fun x => k))
  (at level 61, r at next level, right associativity).

Definition throws {A : Type} (r : result A) : Prop := exists e, r = Throw e.

Definition returns {A : Type} (r : result A) : Prop := exists a, r = Ok a.

(** ** Bytes ([unsigned char]) and C conversions *)

Definition Z_of_byte (b : byte) : Z := Z.of_N (Byte.to_N b).

(** [static_cast<unsigned char>(v)]: reduction modulo 256. *)
Definition byte_of_Z (v : Z) : byte :=
  match Byte.of_N (Z.to_N (v mod 256)) with
  | Some b => b
  | None => x00
  end.

(** [static_cast<int>(v)] for a [size_t] (or wider) value: wrap to 32 bits,
    two's complement. *)
Definition int_of_Z (v : Z) : Z := (v + 2147483648) mod 4294967296 - 2147483648.

Definition INT_MIN : Z := -2147483648.
Definition INT_MAX : Z := 2147483647.

Definition xor_byte (x y : byte) : byte :=
  byte_of_Z (Z.lxor (Z_of_byte x) (Z_of_byte y)).

(** [dst[i] ^= src[i]] for [i < length src]; bytes of [dst] past the end of
    [src] are left as they are. *)
Fixpoint xor_into (dst src : list byte) : list byte :=
  match dst, src with
  | d :: dst', s :: src' => xor_byte d s :: xor_into dst' src'
  | _, [] => dst
  | [], _ => []
  end.

(** [CRYPTO_memcmp(a, b, len)]: 0 when the first [len] bytes agree. *)
Fixpoint CRYPTO_memcmp (a b : list byte) (len : nat) : Z :=
  match len with
  | O => 0
  | S len' =>
      match a, b with
      | x :: a', y :: b' => if Byte.eqb x y then CRYPTO_memcmp a' b' len' else 1
      | _, _ => 1
      end
  end.

(** A fixed-size buffer of [n] bytes holding [l] (cut or zero-filled). *)
Definition buffer (n : nat) (l : list byte) : list byte :=
  firstn n (l ++ repeat x00 n).

(** The bytes of a [std::string] ([c_str()] with [length()]). *)
Definition bytes_of_string (s : string) : list byte := list_byte_of_string s.

(** [std::string(reinterpret_cast<char*>(p), n)]. *)
Definition string_of_bytes (l : list byte) : string := string_of_list_byte l.

(** ** Codec: [bytesToHex] and [hexToBytes] *)

Module Codec.

(** One digit as [std::hex] prints it (lowercase). *)
Definition hex_digit (d : Z) : ascii :=
  if d <? 10 then ascii_of_N (Z.to_N (48 + d)) else ascii_of_N (Z.to_N (87 + d)).

(** [ss << std::hex << v] for a non-negative [int]: the digits of [v] in base
    16 without leading zeros (at most eight for a 32-bit [int]). *)
Fixpoint hex_digits (fuel : nat) (v : Z) (acc : string) : string :=
  match fuel with
  | O => acc
  | S fuel' =>
      let acc' := String (hex_digit (v mod 16)) acc in
      if v / 16 =? 0 then acc' else hex_digits fuel' (v / 16) acc'
  end.

Definition put_hex (v : Z) : string := hex_digits 8 v EmptyString.

(** [std::setfill('0') << std::setw(w)]: left padding to width [w]. *)
Fixpoint fill (k : nat) (c : ascii) (s : string) : string :=
  match k with
  | O => s
  | S k' => String c (fill k' c s)
  end.

Definition setw_fill0 (w : nat) (s : string) : string :=
  fill (w - String.length s) "0"%char s.

(** [bytesToHex(data, len)]: the loop body appends
    [setw(2) << static_cast<int>(data[i])]. *)
Fixpoint bytesToHex (data : list byte) : string :=
  match data with
  | [] => EmptyString
  | b :: rest => (setw_fill0 2 (put_hex (Z_of_byte b)) ++ bytesToHex rest)%string
  end.

(** *** [std::stoi(str, nullptr, 16)], that is [strtol] on [str.c_str()] *)

Definition isspace (c : ascii) : bool :=
  let k := N_of_ascii c in
  ((k =? 32) || ((9 <=? k) && (k <=? 13)))%N.

Definition is_sign (c : ascii) : bool :=
  (Ascii.eqb c "+" || Ascii.eqb c "-")%char.

Definition hex_value (c : ascii) : option Z :=
  let k := Z.of_N (N_of_ascii c) in
  if (48 <=? k) && (k <=? 57) then Some (k - 48)
  else if (97 <=? k) && (k <=? 102) then Some (k - 87)
  else if (65 <=? k) && (k <=? 70) then Some (k - 55)
  else None.

Definition is_hex (c : ascii) : bool :=
  match hex_value c with Some _ => true | None => false end.

(** The C string seen through [c_str()]: it stops at the first NUL. *)
Fixpoint c_str (s : string) : string :=
  match s with
  | EmptyString => EmptyString
  | String c rest => if Ascii.eqb c zero then EmptyString else String c (c_str rest)
  end.

Fixpoint skip_space (s : string) : string :=
  match s with
  | String c rest => if isspace c then skip_space rest else s
  | EmptyString => s
  end.

(** Longest run of hex digits, accumulated left to right; [None] when there
    is no digit at all. *)
Fixpoint digits_from (acc : Z) (s : string) : Z :=
  match s with
  | String c rest =>
      match hex_value c with
      | Some d => digits_from (acc * 16 + d) rest
      | None => acc
      end
  | EmptyString => acc
  end.

Definition starts_with_digit (s : string) : bool :=
  match s with
  | String c _ => is_hex c
  | EmptyString => false
  end.

(** The optional [0x] / [0X] prefix belongs to the number only when a hex
    digit follows it; otherwise the subject sequence is the single [0]. *)
Definition skip_0x (s : string) : string :=
  match s with
  | String "0"%char (String x rest) =>
      if (Ascii.eqb x "x" || Ascii.eqb x "X")%char && starts_with_digit rest
      then rest else s
  | _ => s
  end.

(** [strtol(s, &end, 16)]: [None] when no conversion is performed
    ([end == s]), else the exact value. *)
Definition strtol16 (s : string) : option Z :=
  let s1 := skip_space (c_str s) in
  let '(neg, s2) :=
    match s1 with
    | String c rest =>
        if Ascii.eqb c "-"%char then (true, rest)
        else if Ascii.eqb c "+"%char then (false, rest)
        else (false, s1)
    | EmptyString => (false, s1)
    end in
  let s3 := skip_0x s2 in
  if starts_with_digit s3
  then Some (if neg then - digits_from 0 s3 else digits_from 0 s3)
  else None.

(** [std::stoi]: [invalid_argument] when nothing was converted,
    [out_of_range] when the value does not fit an [int]. *)
Definition stoi16 (s : string) : result Z :=
  match strtol16 s with
  | None => Throw (invalid_argument "stoi")
  | Some v =>
      if (INT_MIN <=? v) && (v <=? INT_MAX) then Ok v
      else Throw (out_of_range "stoi")
  end.

(** [hexToBytes(hex)]: [for (i = 0; i < hex.length(); i += 2)] takes
    [hex.substr(i, 2)] (a single character at the end of an odd-length
    string), converts it with [stoi] and casts to [unsigned char].  There is
    no validation besides what [stoi] does. *)
Fixpoint hexToBytes (hex : string) : result (list byte) :=
  match hex with
  | EmptyString => Ok []
  | String c1 EmptyString =>
      v <- stoi16 (String c1 EmptyString) ;;
      Ok [byte_of_Z v]
  | String c1 (String c2 rest) =>
      v <- stoi16 (String c1 (String c2 EmptyString)) ;;
      bytes <- hexToBytes rest ;;
      Ok (byte_of_Z v :: bytes)
  end.

(** Character classes used to state what the decoder accepts. *)
Definition is_lower_hex (c : ascii) : bool :=
  let k := N_of_ascii c in
  (((48 <=? k) && (k <=? 57)) || ((97 <=? k) && (k <=? 102)))%N.

Fixpoint all_chars (P : ascii -> bool) (s : string) : bool :=
  match s with
  | EmptyString => true
  | String c rest => P c && all_chars P rest
  end.

(** A chunk (the one or two characters at an even offset) that [stoi]
    converts: a hex digit first, or one blank or sign and then a hex digit. *)
Definition chunk_converts (c1 : ascii) (c2 : option ascii) : bool :=
  is_hex c1 ||
  ((isspace c1 || is_sign c1) &&
   match c2 with Some c => is_hex c | None => false end).

Fixpoint all_chunks_convert (s : string) : bool :=
  match s with
  | EmptyString => true
  | String c1 EmptyString => chunk_converts c1 None
  | String c1 (String c2 rest) => chunk_converts c1 (Some c2) && all_chunks_convert rest
  end.

End Codec.

(** ** Big-endian integers ([BN_bin2bn], [BN_bn2binpad], byte stores) *)

(** [BN_bin2bn(s, len, ret)]: the non-negative integer whose big-endian
    representation is [s]. *)
Definition BN_bin2bn (s : list byte) : Z :=
  fold_left (fun acc b => acc * 256 + Z_of_byte b) s 0.

(** The [n] low-order bytes of [v], most significant first. *)
Fixpoint be_bytes (n : nat) (v : Z) : list byte :=
  match n with
  | O => []
  | S k => byte_of_Z (Z.shiftr v (8 * Z.of_nat k)) :: be_bytes k v
  end.

(** [BN_num_bits] and [BN_num_bytes] of a non-negative integer. *)
Definition BN_num_bits (v : Z) : Z := if v <=? 0 then 0 else Z.log2 v + 1.

Definition BN_num_bytes (v : Z) : Z := (BN_num_bits v + 7) / 8.

(** [BN_bn2binpad(a, to, tolen)]: [tolen] big-endian bytes, or failure
    ([-1], [None]) when [a] needs more than [tolen] bytes. *)
Definition BN_bn2binpad (a : Z) (tolen : nat) : option (list byte) :=
  if BN_num_bytes a <=? Z.of_nat tolen then Some (be_bytes tolen a) else None.

(** [memcpy(dst + pos, src, length src)] inside the bounds of [dst]. *)
Definition store (dst : list byte) (pos : nat) (src : list byte) : list byte :=
  firstn (List.length dst)
    (firstn pos dst ++ src ++ skipn (pos + List.length src) dst).

(** [std::vector<unsigned char> v(n)]: [n] value-initialised bytes. *)
Definition vector (n : nat) : list byte := repeat x00 n.

(** [v.data()]: the null pointer for a vector without storage, else the
    array (libstdc++, libc++ and the MSVC library allocate nothing for a
    vector constructed with size 0). *)
Definition data (v : list byte) : option (list byte) :=
  match v with
  | [] => None
  | _ => Some v
  end.

(** ** DER encoding of an ECDSA signature ([i2d_ECDSA_SIG], [d2i_ECDSA_SIG]) *)

Module DER.

Definition ID_SEQUENCE : byte := x30.
Definition ID_INTEGER : byte := x02.

(** The length octets: short form below 128, else [0x81] or [0x82] and one
    or two bytes; lengths above [0xffff] are refused. *)
Definition encode_der_length (cont_len : Z) : option (list byte) :=
  if 65535 <? cont_len then None
  else if 255 <? cont_len then Some (x82 :: be_bytes 2 cont_len)
  else if 127 <? cont_len then Some [x81; byte_of_Z cont_len]
  else Some [byte_of_Z cont_len].

(** An INTEGER: the content has [BN_num_bits(n) / 8 + 1] bytes, so that the
    first bit is always 0; negative numbers are refused. *)
Definition encode_der_integer (n : Z) : option (list byte) :=
  if n <? 0 then None
  else
    let cont_len := BN_num_bits n / 8 + 1 in
    match encode_der_length cont_len, BN_bn2binpad n (Z.to_nat cont_len) with
    | Some len, Some content => Some (ID_INTEGER :: len ++ content)
    | _, _ => None
    end.

(** [SEQUENCE { INTEGER r, INTEGER s }]. *)
Definition encode_der_dsa_sig (r s : Z) : option (list byte) :=
  match encode_der_integer r, encode_der_integer s with
  | Some er, Some es =>
      match encode_der_length (Z.of_nat (List.length (er ++ es))) with
      | Some len => Some (ID_SEQUENCE :: len ++ er ++ es)
      | None => None
      end
  | _, _ => None
  end.

(** [i2d_ECDSA_SIG(sig, &der)] with [der == NULL]: the encoding and its
    length, or a negative length. *)
Definition i2d_ECDSA_SIG (sig : Z * Z) : option (list byte) * Z :=
  match encode_der_dsa_sig (fst sig) (snd sig) with
  | Some der => (Some der, Z.of_nat (List.length der))
  | None => (None, -1)
  end.

(** Reading: [PACKET_get_sub_packet] cuts [len] bytes off the packet. *)
Definition get_sub_packet (pkt : list byte) (len : nat) : option (list byte * list byte) :=
  if (len <=? List.length pkt)%nat then Some (firstn len pkt, skipn len pkt) else None.

(** The length octets and the content they announce; the rest follows. *)
Definition decode_der_length (pkt : list byte) : option (list byte * list byte) :=
  match pkt with
  | [] => None
  | b :: rest =>
      if Z_of_byte b <? 128 then get_sub_packet rest (Z.to_nat (Z_of_byte b))
      else if Byte.eqb b x81 then
        match rest with
        | l1 :: rest' => get_sub_packet rest' (Z.to_nat (Z_of_byte l1))
        | [] => None
        end
      else if Byte.eqb b x82 then
        match rest with
        | l1 :: l2 :: rest' => get_sub_packet rest' (Z.to_nat (BN_bin2bn [l1; l2]))
        | _ => None
        end
      else None
  end.

(** An INTEGER must be non-negative and minimally padded: a leading zero
    byte only before a byte with the first bit set. *)
Definition decode_der_integer (pkt : list byte) : option (Z * list byte) :=
  match pkt with
  | tag :: rest =>
      if negb (Byte.eqb tag ID_INTEGER) then None
      else
        match decode_der_length rest with
        | None => None
        | Some (content, rest') =>
            match content with
            | [] => None
            | b0 :: more =>
                if 128 <=? Z_of_byte b0 then None
                else
                  match more with
                  | b1 :: _ =>
                      if (Z_of_byte b0 =? 0) && (Z_of_byte b1 <? 128) then None
                      else Some (BN_bin2bn content, rest')
                  | [] => Some (BN_bin2bn content, rest')
                  end
            end
        end
  | [] => None
  end.

(** [ossl_decode_der_dsa_sig]: the sequence must hold exactly the two
    integers; bytes after the sequence are not looked at. *)
Definition decode_der_dsa_sig (pkt : list byte) : option (Z * Z) :=
  match pkt with
  | tag :: rest =>
      if negb (Byte.eqb tag ID_SEQUENCE) then None
      else
        match decode_der_length rest with
        | None => None
        | Some (content, _) =>
            match decode_der_integer content with
            | None => None
            | Some (r, content') =>
                match decode_der_integer content' with
                | Some (s, []) => Some (r, s)
                | _ => None
                end
            end
        end
  | [] => None
  end.

(** [d2i_ECDSA_SIG(NULL, &p, len)]: the signature, or [NULL]. *)
Definition d2i_ECDSA_SIG (der : list byte) : option (Z * Z) := decode_der_dsa_sig der.

End DER.

(** ** Elliptic curves over a prime field ([EC_GROUP], [EC_POINT], ECDSA) *)

Module EC.

(** [EC_GROUP]: the curve [y^2 = x^3 + a x + b] over the field of [field]
    elements, a generator and its order. *)
Record EC_GROUP : Type := mkGROUP {
  field : Z;
  a : Z;
  b : Z;
  generator : Z * Z;
  order : Z
}.

(** [NID_X9_62_prime256v1] (NIST P-256, secp256r1). *)
Definition prime256v1 : EC_GROUP :=
  {| field := 0xffffffff00000001000000000000000000000000ffffffffffffffffffffffff;
     a := 0xffffffff00000001000000000000000000000000fffffffffffffffffffffffc;
     b := 0x5ac635d8aa3a93e7b3ebbd55769886bc651d06b0cc53b0f63bce3c3e27d2604b;
     generator :=
       (0x6b17d1f2e12c4247f8bce6e563a440f277037d812deb33a0f4a13945d898c296,
        0x4fe342e2fe1a7f9b8ee7eb4a7c0f9e162bce33576b315ececbb6406837bf51f5);
     order := 0xffffffff00000000ffffffffffffffffbce6faada7179e84f3b9cac2fc632551 |}.

(** A curve of 31 points over the field of 23 elements, for running the
    algorithms by hand. *)
Definition curve23 : EC_GROUP :=
  {| field := 23; a := 20; b := 8; generator := (0, 10); order := 31 |}.

(** [EC_POINT]: affine coordinates, or the point at infinity ([None]).
    Nothing in the type says the coordinates satisfy the equation. *)
Definition EC_POINT : Type := option (Z * Z).

Section Group.

Variable group : EC_GROUP.

Let p : Z := field group.

(** [EC_POINT_new(group)]: a fresh point is the point at infinity. *)
Definition EC_POINT_new : EC_POINT := None.

Definition EC_GROUP_get0_generator : EC_POINT := Some (generator group).

Definition EC_POINT_is_at_infinity (P : EC_POINT) : bool :=
  match P with None => true | Some _ => false end.

(** [EC_POINT_is_on_curve]: the equation holds, or the point is at
    infinity. *)
Definition EC_POINT_is_on_curve (P : EC_POINT) : bool :=
  match P with
  | None => true
  | Some (x, y) => (y * y - (x * x * x + a group * x + b group)) mod p =? 0
  end.

(** A point of the curve with reduced coordinates. *)
Definition valid_point (P : EC_POINT) : bool :=
  match P with
  | None => true
  | Some (x, y) =>
      (0 <=? x) && (x <? p) && (0 <=? y) && (y <? p) && EC_POINT_is_on_curve P
  end.

Definition EC_POINT_dbl (P : EC_POINT) : EC_POINT :=
  match P with
  | None => None
  | Some (x, y) =>
      if (2 * y) mod p =? 0 then None
      else
        let lam := ((3 * x * x + a group) * Z.invmod (2 * y) p) mod p in
        let x3 := (lam * lam - 2 * x) mod p in
        Some (x3, (lam * (x - x3) - y) mod p)
  end.

(** [EC_POINT_add]: the chord-and-tangent law. *)
Definition EC_POINT_add (P Q : EC_POINT) : EC_POINT :=
  match P, Q with
  | None, _ => Q
  | _, None => P
  | Some (x1, y1), Some (x2, y2) =>
      if (x1 - x2) mod p =? 0 then
        if (y1 - y2) mod p =? 0 then EC_POINT_dbl P else None
      else
        let lam := ((y2 - y1) * Z.invmod (x2 - x1) p) mod p in
        let x3 := (lam * lam - x1 - x2) mod p in
        Some (x3, (lam * (x1 - x3) - y1) mod p)
  end.

(** [k * P] for a non-negative scalar, by doubling and adding. *)
Definition scalar_mul (k : Z) (P : EC_POINT) : EC_POINT :=
  match k with
  | Zpos k' => Pos.iter_op EC_POINT_add k' P
  | _ => None
  end.

(** [EC_POINT_mul(group, r, n, q, m, ctx)]: [r = n * generator + m * q];
    either part may be absent (null pointers).  Always succeeds. *)
Definition EC_POINT_mul (n : option Z) (q : option EC_POINT) (m : option Z) : Z * EC_POINT :=
  let gen_part :=
    match n with Some k => scalar_mul k EC_GROUP_get0_generator | None => None end in
  let point_part :=
    match q, m with Some P, Some k => scalar_mul k P | _, _ => None end in
  (1, EC_POINT_add gen_part point_part).

(** [EC_POINT_get_affine_coordinates(group, p, x, y, ctx)]: fails at
    infinity. *)
Definition EC_POINT_get_affine_coordinates (P : EC_POINT) : Z * option (Z * Z) :=
  match P with
  | Some xy => (1, Some xy)
  | None => (0, None)
  end.

(** [EC_POINT_set_affine_coordinates]: the coordinates are stored, and then
    the call fails if the point is not on the curve. *)
Definition EC_POINT_set_affine_coordinates (x y : Z) : Z * EC_POINT :=
  let P := Some (x mod p, y mod p) in
  (if EC_POINT_is_on_curve P then 1 else 0, P).

Definition field_len : nat := Z.to_nat (BN_num_bytes p).

(** [EC_POINT_point2oct(group, p, POINT_CONVERSION_UNCOMPRESSED, buf, len,
    ctx)]: one zero byte for infinity, else [04 || X || Y]; the bytes
    written, none when the buffer is too small. *)
Definition EC_POINT_point2oct (P : EC_POINT) (len : nat) : list byte :=
  match P with
  | None => if (1 <=? len)%nat then [x00] else []
  | Some (x, y) =>
      if (1 + 2 * field_len <=? len)%nat
      then
        match BN_bn2binpad x field_len, BN_bn2binpad y field_len with
        | Some bx, Some byy => x04 :: bx ++ byy
        | _, _ => []
        end
      else []
  end.

(** [BN_mod_sqrt(ret, a, p)] as computed for [p = 3 (mod 4)], the case of
    prime256v1: [a^((p+1)/4)], checked by squaring. *)
Definition BN_mod_sqrt (v : Z) : option Z :=
  let v := v mod p in
  let r := Zpow_mod v (p / 4 + 1) p in
  if (r * r) mod p =? v then Some r else None.

(** [EC_POINT_set_compressed_coordinates]: [y] is the square root of
    [x^3 + a x + b] with the parity [y_bit]. *)
Definition EC_POINT_set_compressed_coordinates (P : EC_POINT) (x : Z) (y_bit : bool)
  : Z * EC_POINT :=
  let x := x mod p in
  match BN_mod_sqrt (x * x * x + a group * x + b group) with
  | None => (0, P)
  | Some y =>
      if Bool.eqb y_bit (Z.odd y) then EC_POINT_set_affine_coordinates x y
      else if y =? 0 then (0, P)
      else EC_POINT_set_affine_coordinates x (p - y)
  end.

(** [EC_POINT_oct2point(group, p, buf, len, ctx)]: the status and what the
    point holds afterwards.  On most failures the point is left as it was;
    coordinates that are in range but not on the curve are stored before
    the call fails. *)
Definition EC_POINT_oct2point (P : EC_POINT) (buf : list byte) : Z * EC_POINT :=
  match buf with
  | [] => (0, P)
  | b0 :: rest =>
      let y_bit := Z.odd (Z_of_byte b0) in
      let form := Z.land (Z_of_byte b0) 254 in
      if negb ((form =? 0) || (form =? 2) || (form =? 4) || (form =? 6)) then (0, P)
      else if ((form =? 0) || (form =? 4)) && y_bit then (0, P)
      else if form =? 0 then
        match rest with
        | [] => (1, None)
        | _ => (0, P)
        end
      else
        let enc_len := if form =? 2 then field_len else (2 * field_len)%nat in
        if negb (List.length rest =? enc_len)%nat then (0, P)
        else
          let x := BN_bin2bn (firstn field_len rest) in
          if p <=? x then (0, P)
          else if form =? 2 then EC_POINT_set_compressed_coordinates P x y_bit
          else
            let y := BN_bin2bn (skipn field_len rest) in
            if p <=? y then (0, P)
            else if (form =? 6) && negb (Bool.eqb y_bit (Z.odd y)) then (0, P)
            else EC_POINT_set_affine_coordinates x y
  end.

(** *** [EC_KEY] *)

Record EC_KEY : Type := mkKEY {
  priv_key : option Z;
  pub_key : option EC_POINT
}.

(** [EC_KEY_new_by_curve_name(NID_X9_62_prime256v1)]; allocation failure is
    not modelled. *)
Definition EC_KEY_new_by_curve_name : option EC_KEY := Some (mkKEY None None).

(** [EC_KEY_set_private_key(key, priv)]: any number is taken, no range is
    checked. *)
Definition EC_KEY_set_private_key (key : EC_KEY) (priv : Z) : Z * EC_KEY :=
  (1, mkKEY (Some priv) (pub_key key)).

(** [EC_KEY_set_public_key(key, pub)]: the point is copied as it is. *)
Definition EC_KEY_set_public_key (key : EC_KEY) (pub : EC_POINT) : Z * EC_KEY :=
  (1, mkKEY (priv_key key) (Some pub)).

(** *** ECDSA *)

Definition n : Z := order group.

(** The inverse modulo the group order, by Fermat: [x^(n-2) mod n]. *)
Definition inverse_mod_order (x : Z) : Z := Zpow_mod x (n - 2) n.

(** The digest as a number: its leftmost [BN_num_bits(n)] bits. *)
Definition digest_to_bn (dgst : list byte) : Z :=
  let i := BN_num_bits n in
  let dgst_len := Z.of_nat (List.length dgst) in
  let len := if i <? 8 * dgst_len then (i + 7) / 8 else dgst_len in
  let m := BN_bin2bn (firstn (Z.to_nat len) dgst) in
  if i <? 8 * len then Z.shiftr m (8 - i mod 8) else m.

(** One round of signing with the nonce [k]: [None] when [k], [r] or [s]
    is zero and another nonce has to be drawn; [Some None] when the point
    [k * G] has no coordinates and signing fails. *)
Definition sign_with_nonce (m priv k : Z) : option (option (Z * Z)) :=
  if k =? 0 then None
  else
    match EC_POINT_get_affine_coordinates (snd (EC_POINT_mul (Some k) None None)) with
    | (_, None) => Some None
    | (_, Some (x, _)) =>
        let r := x mod n in
        if r =? 0 then None
        else
          let s := (inverse_mod_order k * (m + r * priv)) mod n in
          if s =? 0 then None else Some (Some (r, s))
    end.

(** The nonces come from the random number generator; [draws] are the
    numbers it delivers, each below the order, and it fails when they run
    out. *)
Fixpoint sign_loop (m priv : Z) (draws : list Z) : option (Z * Z) :=
  match draws with
  | [] => None
  | k :: rest =>
      match sign_with_nonce m priv k with
      | None => sign_loop m priv rest
      | Some result => result
      end
  end.

(** [ECDSA_do_sign(dgst, dgst_len, eckey)]: the signature [(r, s)], or
    [NULL]. *)
Definition ECDSA_do_sign (draws : list Z) (dgst : list byte) (key : EC_KEY) : option (Z * Z) :=
  match priv_key key with
  | None => None
  | Some priv => sign_loop (digest_to_bn dgst) priv draws
  end.

(** [ECDSA_do_verify(dgst, dgst_len, sig, eckey)]: 1 for a valid signature,
    0 for an invalid one, -1 on error (no signature, no public key, a
    result at infinity). *)
Definition ECDSA_do_verify (dgst : list byte) (sig : option (Z * Z)) (key : EC_KEY) : Z :=
  match pub_key key, sig with
  | Some pub, Some (r, s) =>
      if (r <=? 0) || (n <=? r) || (s <=? 0) || (n <=? s) then 0
      else
        let w := inverse_mod_order s in
        let u1 := (digest_to_bn dgst * w) mod n in
        let u2 := (r * w) mod n in
        match EC_POINT_get_affine_coordinates
                (snd (EC_POINT_mul (Some u1) (Some pub) (Some u2))) with
        | (_, None) => -1
        | (_, Some (x, _)) => if x mod n =? r then 1 else 0
        end
  | _, _ => -1
  end.

(** *** Key generation *)

(** The loop of [EC_KEY_generate_key]: [BN_priv_rand_range_ex] delivers
    numbers below the order, and zero is drawn again.  [draws] are the
    numbers delivered; when they run out the generator has failed. *)
Fixpoint generate_loop (draws : list Z) : option Z :=
  match draws with
  | [] => None
  | k :: rest => if k =? 0 then generate_loop rest else Some k
  end.

(** [EC_KEY_generate_key(key)]: the private key and the public key
    [priv * G] are stored in the key; 0 when the generator fails. *)
Definition EC_KEY_generate_key (draws : list Z) (key : EC_KEY) : Z * EC_KEY :=
  match generate_loop draws with
  | None => (0, key)
  | Some priv => (1, mkKEY (Some priv) (Some (snd (EC_POINT_mul (Some priv) None None))))
  end.

Definition EC_KEY_get0_private_key (key : EC_KEY) : option Z := priv_key key.

End Group.

End EC.

(** ** SHA-256 (FIPS 180-4), the digest behind [EVP_sha256] *)

Module SHA256.

Definition w32 (x : Z) : Z := x mod 4294967296.

Definition rotr (n x : Z) : Z := Z.lor (Z.shiftr x n) (w32 (Z.shiftl x (32 - n))).

Definition Ch (x y z : Z) : Z :=
  Z.lxor (Z.land x y) (Z.land (Z.lxor x 4294967295) z).

Definition Maj (x y z : Z) : Z :=
  Z.lxor (Z.lxor (Z.land x y) (Z.land x z)) (Z.land y z).

Definition Sigma0 (x : Z) : Z := Z.lxor (Z.lxor (rotr 2 x) (rotr 13 x)) (rotr 22 x).
Definition Sigma1 (x : Z) : Z := Z.lxor (Z.lxor (rotr 6 x) (rotr 11 x)) (rotr 25 x).
Definition sigma0 (x : Z) : Z := Z.lxor (Z.lxor (rotr 7 x) (rotr 18 x)) (Z.shiftr x 3).
Definition sigma1 (x : Z) : Z := Z.lxor (Z.lxor (rotr 17 x) (rotr 19 x)) (Z.shiftr x 10).

Definition K : list Z :=
  [ 1116352408; 1899447441; 3049323471; 3921009573; 961987163; 1508970993;
    2453635748; 2870763221; 3624381080; 310598401; 607225278; 1426881987;
    1925078388; 2162078206; 2614888103; 3248222580; 3835390401; 4022224774;
    264347078; 604807628; 770255983; 1249150122; 1555081692; 1996064986;
    2554220882; 2821834349; 2952996808; 3210313671; 3336571891; 3584528711;
    113926993; 338241895; 666307205; 773529912; 1294757372; 1396182291;
    1695183700; 1986661051; 2177026350; 2456956037; 2730485921; 2820302411;
    3259730800; 3345764771; 3516065817; 3600352804; 4094571909; 275423344;
    430227734; 506948616; 659060556; 883997877; 958139571; 1322822218;
    1537002063; 1747873779; 1955562222; 2024104815; 2227730452; 2361852424;
    2428436474; 2756734187; 3204031479; 3329325298 ].

Definition H0 : list Z :=
  [ 1779033703; 3144134277; 1013904242; 2773480762;
    1359893119; 2600822924; 528734635; 1541459225 ].

(** Padding: the bit 1, zeros up to 56 modulo 64 bytes, the bit length on
    64 bits. *)
Definition pad (msg : list byte) : list byte :=
  let len := Z.of_nat (List.length msg) in
  msg ++ [x80] ++ repeat x00 (Z.to_nat ((55 - len) mod 64)) ++ be_bytes 8 (8 * len).

Fixpoint words (n : nat) (l : list byte) : list Z :=
  match n with
  | O => []
  | S k => BN_bin2bn (firstn 4 l) :: words k (skipn 4 l)
  end.

(** The message schedule, most recent word first. *)
Fixpoint schedule (n : nat) (rev_w : list Z) : list Z :=
  match n with
  | O => rev_w
  | S k =>
      let w := w32 (sigma1 (nth 1 rev_w 0) + nth 6 rev_w 0 +
                    sigma0 (nth 14 rev_w 0) + nth 15 rev_w 0) in
      schedule k (w :: rev_w)
  end.

Definition round (st : list Z) (kw : Z * Z) : list Z :=
  match st with
  | [a; b; c; d; e; f; g; h] =>
      let t1 := h + Sigma1 e + Ch e f g + fst kw + snd kw in
      let t2 := Sigma0 a + Maj a b c in
      [w32 (t1 + t2); a; b; c; w32 (d + t1); e; f; g]
  | _ => st
  end.

Definition compress (h : list Z) (block : list byte) : list Z :=
  let w := rev (schedule 48 (rev (words 16 block))) in
  let st := fold_left round (combine K w) h in
  map (fun p => w32 (fst p + snd p)) (combine h st).

Fixpoint blocks (n : nat) (h : list Z) (l : list byte) : list Z :=
  match n with
  | O => h
  | S k => blocks k (compress h (firstn 64 l)) (skipn 64 l)
  end.

Definition digest (msg : list byte) : list byte :=
  let m := pad msg in
  flat_map (be_bytes 4) (blocks (List.length m / 64) H0 m).

End SHA256.

(** ** AES-128 encryption of one block (FIPS 197), the block function of
    [EVP_aes_128_ccm] *)

Module AES.

Definition sbox : list Z :=
  [ 99; 124; 119; 123; 242; 107; 111; 197; 48; 1; 103; 43; 254; 215; 171;
    118; 202; 130; 201; 125; 250; 89; 71; 240; 173; 212; 162; 175; 156;
    164; 114; 192; 183; 253; 147; 38; 54; 63; 247; 204; 52; 165; 229; 241;
    113; 216; 49; 21; 4; 199; 35; 195; 24; 150; 5; 154; 7; 18; 128; 226;
    235; 39; 178; 117; 9; 131; 44; 26; 27; 110; 90; 160; 82; 59; 214; 179;
    41; 227; 47; 132; 83; 209; 0; 237; 32; 252; 177; 91; 106; 203; 190; 57;
    74; 76; 88; 207; 208; 239; 170; 251; 67; 77; 51; 133; 69; 249; 2; 127;
    80; 60; 159; 168; 81; 163; 64; 143; 146; 157; 56; 245; 188; 182; 218;
    33; 16; 255; 243; 210; 205; 12; 19; 236; 95; 151; 68; 23; 196; 167;
    126; 61; 100; 93; 25; 115; 96; 129; 79; 220; 34; 42; 144; 136; 70; 238;
    184; 20; 222; 94; 11; 219; 224; 50; 58; 10; 73; 6; 36; 92; 194; 211;
    172; 98; 145; 149; 228; 121; 231; 200; 55; 109; 141; 213; 78; 169; 108;
    86; 244; 234; 101; 122; 174; 8; 186; 120; 37; 46; 28; 166; 180; 198;
    232; 221; 116; 31; 75; 189; 139; 138; 112; 62; 181; 102; 72; 3; 246;
    14; 97; 53; 87; 185; 134; 193; 29; 158; 225; 248; 152; 17; 105; 217;
    142; 148; 155; 30; 135; 233; 206; 85; 40; 223; 140; 161; 137; 13; 191;
    230; 66; 104; 65; 153; 45; 15; 176; 84; 187; 22 ].

Definition SubByte (x : Z) : Z := nth (Z.to_nat x) sbox 0.

Definition xtime (x : Z) : Z :=
  Z.land (Z.lxor (Z.shiftl x 1) (if Z.testbit x 7 then 27 else 0)) 255.

Definition xor_words (a b : list Z) : list Z :=
  map (fun p => Z.lxor (fst p) (snd p)) (combine a b).

(** The state is the 16 bytes in input order: byte [4*c + r] is row [r] of
    column [c]. *)
Definition ShiftRows (st : list Z) : list Z :=
  map (fun i => nth (4 * ((i / 4 + i mod 4) mod 4) + i mod 4)%nat st 0) (seq 0 16).

Definition MixColumn (col : list Z) : list Z :=
  match col with
  | [a0; a1; a2; a3] =>
      [ Z.lxor (Z.lxor (xtime a0) (Z.lxor (xtime a1) a1)) (Z.lxor a2 a3);
        Z.lxor (Z.lxor a0 (xtime a1)) (Z.lxor (Z.lxor (xtime a2) a2) a3);
        Z.lxor (Z.lxor a0 a1) (Z.lxor (xtime a2) (Z.lxor (xtime a3) a3));
        Z.lxor (Z.lxor (Z.lxor (xtime a0) a0) a1) (Z.lxor a2 (xtime a3)) ]
  | _ => col
  end.

Definition MixColumns (st : list Z) : list Z :=
  flat_map (fun c => MixColumn (firstn 4 (skipn (4 * c) st))) (seq 0 4).

(** Key expansion: eleven round keys of 16 bytes; [prev] is the previous
    round key, [rc] the round constant. *)
Definition next_round_key (prev : list Z) (rc : Z) : list Z :=
  let w0 := firstn 4 prev in
  let w1 := firstn 4 (skipn 4 prev) in
  let w2 := firstn 4 (skipn 8 prev) in
  let w3 := firstn 4 (skipn 12 prev) in
  let t := match map SubByte w3 with
           | [b0; b1; b2; b3] => [Z.lxor b1 rc; b2; b3; b0]
           | other => other
           end in
  let n0 := xor_words w0 t in
  let n1 := xor_words w1 n0 in
  let n2 := xor_words w2 n1 in
  let n3 := xor_words w3 n2 in
  n0 ++ n1 ++ n2 ++ n3.

Definition Rcon : list Z := [1; 2; 4; 8; 16; 32; 64; 128; 27; 54].

Definition cipher_round (last : bool) (st rk : list Z) : list Z :=
  let s := ShiftRows (map SubByte st) in
  xor_words (if last then s else MixColumns s) rk.

Fixpoint rounds (st rk : list Z) (rcs : list Z) : list Z :=
  match rcs with
  | [] => st
  | rc :: rest =>
      let rk' := next_round_key rk rc in
      rounds (cipher_round (match rest with [] => true | _ => false end) st rk') rk' rest
  end.

(** [AES_encrypt(in, out, key)] for a 128-bit key. *)
Definition encrypt_block (key block : list byte) : list byte :=
  let k := map Z_of_byte (buffer 16 key) in
  let st := xor_words (map Z_of_byte (buffer 16 block)) k in
  map byte_of_Z (rounds st k Rcon).

End AES.

(** ** CCM over a 128-bit block cipher ([CRYPTO_ccm128_*], NIST SP 800-38C) *)

Module CCM.

Section Ccm128.

(** The block function [block128_f] under an expanded key: 16 bytes in,
    16 bytes out. *)
Variable block_encrypt : list byte -> list byte -> list byte.

Definition block (key inp : list byte) : list byte :=
  buffer 16 (block_encrypt key inp).

(** [CCM128_CONTEXT]: the counter/flags block [nonce], the running CBC-MAC
    [cmac], the block count and the key. *)
Record CCM128_CONTEXT : Type := mkCCM128 {
  nonce : list byte;
  cmac : list byte;
  blocks : Z;
  key : list byte
}.

Definition flags_of (c : list byte) : Z := Z_of_byte (nth 0 c x00).

(** [CRYPTO_ccm128_init(ctx, M, L, key, block)]. *)
Definition CRYPTO_ccm128_init (M L : Z) (k : list byte) : CCM128_CONTEXT :=
  let flags := Z.lor (Z.land (L - 1) 7) (Z.shiftl (Z.land ((M - 2) / 2) 7) 3) in
  mkCCM128 (store (repeat x00 16) 0 [byte_of_Z flags]) (repeat x00 16) 0 k.

(** [CRYPTO_ccm128_setiv(ctx, nonce, nlen, mlen)]: the message length goes
    into the low-order bytes of the first block, then the nonce is copied
    over bytes 1 .. 14-L (with the 12-byte nonce used here only the three
    low-order bytes of [mlen] survive). *)
Definition CRYPTO_ccm128_setiv (ctx : CCM128_CONTEXT) (n : list byte) (nlen mlen : Z)
  : Z * CCM128_CONTEXT :=
  let L := Z.land (flags_of (nonce ctx)) 7 in
  if nlen <? 14 - L then (-1, ctx)
  else
    let c := nonce ctx in
    let c := if 3 <=? L then store c 8 (be_bytes 4 (Z.shiftr mlen 32))
             else store c 8 (repeat x00 8) in
    let c := store c 12 (be_bytes 4 mlen) in
    let c := store c 0 [byte_of_Z (Z.land (flags_of c) 191)] in
    let c := store c 1 (firstn (Z.to_nat (14 - L)) n) in
    (0, mkCCM128 c (cmac ctx) (blocks ctx) (key ctx)).

(** One CBC-MAC step over [alen] more bytes of associated data, starting at
    offset [i] of the MAC block. *)
Fixpoint aad_blocks (fuel : nat) (k mac : list byte) (i : nat) (aad : list byte)
  : list byte * Z :=
  match fuel with
  | O => (mac, 0)
  | S fuel' =>
      let chunk := firstn (16 - i) aad in
      let mac' := block k (store mac i (xor_into (firstn (List.length chunk) (skipn i mac)) chunk)) in
      match skipn (16 - i) aad with
      | [] => (mac', 1)
      | rest => let '(m, cnt) := aad_blocks fuel' k mac' 0 rest in (m, cnt + 1)
      end
  end.

(** [CRYPTO_ccm128_aad(ctx, aad, alen)]: nothing happens for [alen == 0]. *)
Definition CRYPTO_ccm128_aad (ctx : CCM128_CONTEXT) (aad : list byte) : CCM128_CONTEXT :=
  let alen := Z.of_nat (List.length aad) in
  if alen =? 0 then ctx
  else
    let c := store (nonce ctx) 0 [byte_of_Z (Z.lor (flags_of (nonce ctx)) 64)] in
    let mac := block (key ctx) c in
    let hdr :=
      if alen <? 65280 then be_bytes 2 alen
      else if 4294967296 <=? alen then [xff; xff] ++ be_bytes 8 alen
      else [xff; xfe] ++ be_bytes 4 alen in
    let mac := xor_into mac hdr in
    let '(mac, cnt) := aad_blocks (S (List.length aad)) (key ctx) mac (List.length hdr) aad in
    mkCCM128 c mac (blocks ctx + 1 + cnt) (key ctx).

(** [ctr64_inc]: the last eight bytes as a big-endian counter. *)
Definition ctr64_inc (c : list byte) : list byte :=
  store c 8 (be_bytes 8 (BN_bin2bn (skipn 8 c) + 1)).

(** The block loop of [CRYPTO_ccm128_encrypt]: whole blocks (the counter
    moves on after each), then the partial one.  Returns the output bytes,
    the final MAC and the final counter block. *)
Fixpoint encrypt_blocks (fuel : nat) (k mac ctr inp : list byte)
  : list byte * list byte * list byte :=
  match fuel, inp with
  | O, _ | _, [] => ([], mac, ctr)
  | S fuel', _ =>
      let chunk := firstn 16 inp in
      let mac' := block k (xor_into mac chunk) in
      let scratch := block k ctr in
      let ctr' := if (List.length chunk =? 16)%nat then ctr64_inc ctr else ctr in
      let '(out, mac'', ctr'') := encrypt_blocks fuel' k mac' ctr' (skipn 16 inp) in
      (xor_into chunk scratch ++ out, mac'', ctr'')
  end.

(** The block loop of [CRYPTO_ccm128_decrypt]: the key stream first, the
    MAC over the recovered plaintext. *)
Fixpoint decrypt_blocks (fuel : nat) (k mac ctr inp : list byte)
  : list byte * list byte * list byte :=
  match fuel, inp with
  | O, _ | _, [] => ([], mac, ctr)
  | S fuel', _ =>
      let chunk := firstn 16 inp in
      let scratch := block k ctr in
      let ctr' := if (List.length chunk =? 16)%nat then ctr64_inc ctr else ctr in
      let plain := xor_into chunk scratch in
      let mac' := block k (xor_into mac plain) in
      let '(out, mac'', ctr'') := decrypt_blocks fuel' k mac' ctr' (skipn 16 inp) in
      (plain ++ out, mac'', ctr'')
  end.

(** The part shared by [CRYPTO_ccm128_encrypt] and [CRYPTO_ccm128_decrypt]:
    the MAC of the first block when there is no associated data, the length
    stored by [setiv] against [len], the counter block set to 1, the block
    budget, the loop, and the MAC masked with the key stream block 0.
    Returns [-1] on a length mismatch and [-2] on too much data; the output
    bytes are written only on success. *)
Definition ccm128_crypt (decrypting : bool) (ctx : CCM128_CONTEXT) (inp : list byte)
  : Z * CCM128_CONTEXT * list byte :=
  let len := Z.of_nat (List.length inp) in
  let flags0 := flags_of (nonce ctx) in
  let k := key ctx in
  let '(mac, blks) :=
    if Z.land flags0 64 =? 0 then (block k (nonce ctx), blocks ctx + 1)
    else (cmac ctx, blocks ctx) in
  let L := Z.land flags0 7 in
  let lenpos := Z.to_nat (15 - L) in
  let n := BN_bin2bn (skipn lenpos (nonce ctx)) in
  let zeroed := store (nonce ctx) lenpos (repeat x00 (16 - lenpos)) in
  let ctr := store (store zeroed 0 [byte_of_Z L]) 15 [x01] in
  if negb (n =? len) then (-1, mkCCM128 ctr mac blks k, [])
  else
    let blks := blks + Z.lor (Z.shiftr (len + 15) 3) 1 in
    if 2305843009213693952 <? blks then (-2, mkCCM128 ctr mac blks k, [])
    else
      let '(out, mac, ctr) :=
        if decrypting then decrypt_blocks (List.length inp) k mac ctr inp
        else encrypt_blocks (List.length inp) k mac ctr inp in
      let ctr0 := store ctr lenpos (repeat x00 (16 - lenpos)) in
      let mac := xor_into mac (block k ctr0) in
      (0, mkCCM128 (store ctr0 0 [byte_of_Z flags0]) mac blks k, out).

Definition CRYPTO_ccm128_encrypt := ccm128_crypt false.
Definition CRYPTO_ccm128_decrypt := ccm128_crypt true.

(** [CRYPTO_ccm128_tag(ctx, tag, len)]: the first [M] bytes of the MAC, and
    0 when [len] is not the tag length of the context. *)
Definition CRYPTO_ccm128_tag (ctx : CCM128_CONTEXT) (len : Z) : Z * list byte :=
  let M := Z.land (Z.shiftr (flags_of (nonce ctx)) 3) 7 * 2 + 2 in
  if len =? M then (M, firstn (Z.to_nat M) (cmac ctx)) else (0, []).

End Ccm128.

End CCM.

(** ** The EVP cipher context for [EVP_aes_128_ccm]

    The calls follow EVP_EncryptInit(3): a call of [EVP_*Update] with both
    buffers null sets the message length, one with a null output buffer
    supplies associated data, one with an output buffer encrypts or
    decrypts-and-verifies; [EVP_CTRL_CCM_GET_TAG] needs a tag computed by an
    encryption.  Return values are the integers of the C interface (the
    program tests them with [!]). *)

Module EVP.

Inductive EVP_CIPHER : Type := EVP_aes_128_ccm.

Inductive CTRL : Type :=
| EVP_CTRL_CCM_SET_IVLEN
| EVP_CTRL_CCM_GET_TAG
| EVP_CTRL_CCM_SET_TAG.

Section CipherContext.

Variable block_encrypt : list byte -> list byte -> list byte.

Record EVP_CIPHER_CTX : Type := mkCTX {
  cipher : option EVP_CIPHER;
  encrypt : bool;
  key_set : bool;
  iv_set : bool;
  tag_set : bool;
  len_set : bool;
  l : Z;                (* CCM parameter L, 15 - nonce length *)
  m : Z;                (* CCM parameter M, the tag length *)
  iv : list byte;
  buf : list byte;      (* the expected tag, when decrypting *)
  ccm_ctx : CCM.CCM128_CONTEXT
}.

Definition set_flags (c : EVP_CIPHER_CTX) (iv' tag' len' : bool) (cc : CCM.CCM128_CONTEXT)
  : EVP_CIPHER_CTX :=
  mkCTX (cipher c) (encrypt c) (key_set c) iv' tag' len' (l c) (m c) (iv c) (buf c) cc.

(** [EVP_CIPHER_CTX_new()]; allocation failure is not modelled. *)
Definition EVP_CIPHER_CTX_new : option EVP_CIPHER_CTX :=
  Some (mkCTX None false false false false false 8 12 [] []
              (CCM.CRYPTO_ccm128_init 12 8 [])).

(** [EVP_EncryptInit_ex] / [EVP_DecryptInit_ex (ctx, cipher, NULL, key, iv)].
    A cipher resets the context to L = 8, M = 12 with nothing set; a key
    (its first 16 bytes) starts the CCM state with the current M and L; an
    IV is the first [15 - L] bytes at [iv]. *)
Definition EVP_CipherInit_ex (enc : bool) (c : EVP_CIPHER_CTX) (type : option EVP_CIPHER)
  (k i : option (list byte)) : Z * EVP_CIPHER_CTX :=
  let c1 :=
    match type with
    | Some t => mkCTX (Some t) enc false false false false 8 12 [] []
                      (CCM.CRYPTO_ccm128_init 12 8 [])
    | None => mkCTX (cipher c) enc (key_set c) (iv_set c) (tag_set c) (len_set c)
                    (l c) (m c) (iv c) (buf c) (ccm_ctx c)
    end in
  match cipher c1 with
  | None => (0, c)
  | Some _ =>
      let c2 :=
        match i with
        | Some bytes =>
            mkCTX (cipher c1) enc (key_set c1) true (tag_set c1) (len_set c1)
                  (l c1) (m c1) (buffer (Z.to_nat (15 - l c1)) bytes) (buf c1) (ccm_ctx c1)
        | None => c1
        end in
      let c3 :=
        match k with
        | Some bytes =>
            mkCTX (cipher c2) enc true (iv_set c2) (tag_set c2) (len_set c2)
                  (l c2) (m c2) (iv c2) (buf c2)
                  (CCM.CRYPTO_ccm128_init (m c2) (l c2) (buffer 16 bytes))
        | None => c2
        end in
      (1, c3)
  end.

Definition EVP_EncryptInit_ex := EVP_CipherInit_ex true.
Definition EVP_DecryptInit_ex := EVP_CipherInit_ex false.

(** [EVP_CIPHER_CTX_ctrl(ctx, type, arg, ptr)]; the last component is what
    is written through [ptr] by [GET_TAG]. *)
Definition EVP_CIPHER_CTX_ctrl (c : EVP_CIPHER_CTX) (type : CTRL) (arg : Z)
  (ptr : option (list byte)) : Z * EVP_CIPHER_CTX * list byte :=
  match cipher c with
  | None => (0, c, [])
  | Some _ =>
      match type with
      | EVP_CTRL_CCM_SET_IVLEN =>
          let ivlen := 15 - arg in
          if (arg <? 0) || (ivlen <? 2) || (8 <? ivlen) then (0, c, [])
          else
            (1, mkCTX (cipher c) (encrypt c) (key_set c)
                      (if l c =? ivlen then iv_set c else false)
                      (tag_set c) (len_set c) ivlen (m c) (iv c) (buf c) (ccm_ctx c), [])
      | EVP_CTRL_CCM_SET_TAG =>
          if Z.odd arg || (arg <? 4) || (16 <? arg) then (0, c, [])
          else
            match ptr with
            | Some tag =>
                if encrypt c then (0, c, [])
                else
                  (1, mkCTX (cipher c) (encrypt c) (key_set c) (iv_set c) true (len_set c)
                            (l c) arg (iv c) (buffer (Z.to_nat arg) tag) (ccm_ctx c), [])
            | None =>
                (1, mkCTX (cipher c) (encrypt c) (key_set c) (iv_set c) (tag_set c) (len_set c)
                          (l c) arg (iv c) (buf c) (ccm_ctx c), [])
            end
      | EVP_CTRL_CCM_GET_TAG =>
          if negb (encrypt c) || negb (tag_set c) then (0, c, [])
          else
            let '(r, tag) := CCM.CRYPTO_ccm128_tag (ccm_ctx c) arg in
            if r <=? 0 then (0, c, [])
            else (1, set_flags c false false false (ccm_ctx c), tag)
      end
  end.

(** [ccm_set_iv]: the nonce and the message length go into the CCM state. *)
Definition ccm_set_iv (c : EVP_CIPHER_CTX) (mlen : Z) : bool * EVP_CIPHER_CTX :=
  let '(r, cc) := CCM.CRYPTO_ccm128_setiv (ccm_ctx c) (iv c) (15 - l c) mlen in
  if r =? 0 then (true, set_flags c (iv_set c) (tag_set c) true cc)
  else (false, c).

(** The cipher proper, for [len] bytes at [inp] and room at [out] (a null
    pointer is [None]).  Returns success, the length reported, what [out]
    holds afterwards and the context. *)
Definition ccm_cipher_internal (c : EVP_CIPHER_CTX) (out inp : option (list byte)) (len : Z)
  : bool * Z * option (list byte) * EVP_CIPHER_CTX :=
  if negb (key_set c) then (false, 0, out, c)
  else
    match inp, out with
    | None, Some _ => (true, 0, out, c)
    | None, None =>
        if negb (iv_set c) then (false, 0, out, c)
        else
          let '(ok, c') := ccm_set_iv c len in
          if ok then (true, len, out, c') else (false, 0, out, c)
    | Some aad, None =>
        if negb (iv_set c) then (false, 0, out, c)
        else if negb (len_set c) && negb (len =? 0) then (false, 0, out, c)
        else
          (true, len, out,
           set_flags c (iv_set c) (tag_set c) (len_set c)
             (CCM.CRYPTO_ccm128_aad block_encrypt (ccm_ctx c) (firstn (Z.to_nat len) aad)))
    | Some src, Some dst =>
        if negb (iv_set c) then (false, 0, out, c)
        else
          let '(ok, c1) := if len_set c then (true, c) else ccm_set_iv c len in
          if negb ok then (false, 0, out, c)
          else
            let bytes := firstn (Z.to_nat len) src in
            if encrypt c1 then
              let '(r, cc, written) := CCM.CRYPTO_ccm128_encrypt block_encrypt (ccm_ctx c1) bytes in
              if r =? 0
              then (true, len, Some (store dst 0 written),
                    set_flags c1 (iv_set c1) true (len_set c1) cc)
              else (false, 0, out, set_flags c1 (iv_set c1) (tag_set c1) (len_set c1) cc)
            else if negb (tag_set c1) then (false, 0, out, c1)
            else
              let '(r, cc, written) := CCM.CRYPTO_ccm128_decrypt block_encrypt (ccm_ctx c1) bytes in
              let '(tl, tag) := CCM.CRYPTO_ccm128_tag cc (m c1) in
              if (r =? 0) && negb (tl =? 0) && (CRYPTO_memcmp tag (buf c1) (Z.to_nat (m c1)) =? 0)
              then (true, len, Some (store dst 0 written), set_flags c1 false false false cc)
              else
                (* OPENSSL_cleanse(out, len) *)
                (false, 0, Some (store dst 0 (repeat x00 (Z.to_nat len))),
                 set_flags c1 (iv_set c1) (tag_set c1) (len_set c1) cc)
    end.

(** [EVP_EncryptUpdate] / [EVP_DecryptUpdate (ctx, out, &outl, in, inl)]:
    [*outl] is 0 unless the call succeeds; the [int] length is widened to
    [size_t] for the cipher and the reported length must fit an [int]. *)
Definition EVP_CipherUpdate (enc : bool) (c : EVP_CIPHER_CTX) (out inp : option (list byte))
  (inl : Z) : Z * Z * option (list byte) * EVP_CIPHER_CTX :=
  if negb (Bool.eqb (encrypt c) enc) then (0, 0, out, c)
  else
    match cipher c with
    | None => (0, 0, out, c)
    | Some _ =>
        let '(ok, soutl, out', c') := ccm_cipher_internal c out inp (inl mod 2 ^ 64) in
        if ok then
          if INT_MAX <? soutl then (0, 0, out', c') else (1, soutl, out', c')
        else (0, 0, out', c')
    end.

Definition EVP_EncryptUpdate := EVP_CipherUpdate true.
Definition EVP_DecryptUpdate := EVP_CipherUpdate false.

(** [EVP_EncryptFinal_ex(ctx, out, &outl)]: no data is produced in CCM mode. *)
Definition EVP_EncryptFinal_ex (c : EVP_CIPHER_CTX) (out : option (list byte))
  : Z * Z * EVP_CIPHER_CTX :=
  if negb (encrypt c) then (0, 0, c)
  else
    match cipher c with
    | None => (0, 0, c)
    | Some _ =>
        let '(ok, _, _, c') := ccm_cipher_internal c out None 0 in
        if ok then (1, 0, c') else (0, 0, c')
    end.

End CipherContext.

End EVP.

(** [RAND_bytes(buf, num)]: the entropy source either delivers ([Some], the
    bytes drawn) or fails. *)
Definition RAND_bytes (entropy : option (list byte)) (num : nat) : Z * list byte :=
  match entropy with
  | Some r => (1, buffer num r)
  | None => (0, repeat x00 num)
  end.

(** ** [class Crypto] *)

Module Crypto.

Import EVP.

Section Methods.

(** The digest computed by [EVP_DigestInit_ex(EVP_sha256())],
    [EVP_DigestUpdate], [EVP_DigestFinal_ex], and the AES block function.
    The methods are written over any such pair; [SHA256.digest] and
    [AES.encrypt_block] are the ones of the library. *)
Variable SHA256 : list byte -> list byte.
Variable AES_encrypt : list byte -> list byte -> list byte.

(** The group behind [NID_X9_62_prime256v1]; [EC.prime256v1] in the
    program. *)
Variable group : EC.EC_GROUP.

(** [unsigned char hash[32]] after the three digest calls. *)
Definition EVP_Digest (message : list byte) : list byte := buffer 32 (SHA256 message).

(** [generatePrivateKey()]; [draws] is what the random number generator
    delivers to [EC_KEY_generate_key].  The result of [BN_bn2binpad] is not
    looked at: a key that does not fit 32 bytes would leave the buffer as
    it was, which is written as zeros here (a key below the order of
    prime256v1 always fits). *)
Definition generatePrivateKey (draws : list Z) : result string :=
  match EC.EC_KEY_new_by_curve_name with
  | None => Throw (runtime_error "Failed to create EC_KEY")
  | Some key =>
      let '(r, key) := EC.EC_KEY_generate_key group draws key in
      if r =? 0 then Throw (runtime_error "Failed to generate private key") else
      let privateKey :=
        match EC.EC_KEY_get0_private_key key with
        | Some priv =>
            match BN_bn2binpad priv 32 with
            | Some bytes => bytes
            | None => repeat x00 32
            end
        | None => repeat x00 32
        end in
      Ok (Codec.bytesToHex privateKey)
  end.

(** [derivePublicKey(privateKeyHex)]. *)
Definition derivePublicKey (privateKeyHex : string) : result string :=
  match EC.EC_KEY_new_by_curve_name with
  | None => Throw (runtime_error "Failed to create EC_KEY")
  | Some key =>
      privateKeyBytes <- Codec.hexToBytes privateKeyHex ;;
      let priv := BN_bin2bn privateKeyBytes in
      let '(r, key) := EC.EC_KEY_set_private_key key priv in
      if r =? 0 then Throw (runtime_error "Failed to set private key") else
      let '(r, pub) := EC.EC_POINT_mul group (Some priv) None None in
      if r =? 0 then Throw (runtime_error "Failed to compute public key") else
      let '(_, key) := EC.EC_KEY_set_public_key key pub in
      let publicKey := EC.EC_POINT_point2oct group pub 65 in
      Ok (Codec.bytesToHex publicKey)
  end.

(** [sign(message, privateKeyHex)]; [draws] is what the random number
    generator delivers to [ECDSA_do_sign].  A failing [i2d_ECDSA_SIG] would
    hand a null pointer and a negative length to [bytesToHex]; the encoder
    cannot fail on numbers below 2^256 and that case is left at the empty
    string. *)
Definition sign (draws : list Z) (message privateKeyHex : string) : result string :=
  match EC.EC_KEY_new_by_curve_name with
  | None => Throw (runtime_error "Failed to create signature")
  | Some key =>
      privateKeyBytes <- Codec.hexToBytes privateKeyHex ;;
      let priv := BN_bin2bn privateKeyBytes in
      let '(_, key) := EC.EC_KEY_set_private_key key priv in
      let hash := EVP_Digest (bytes_of_string message) in
      match EC.ECDSA_do_sign group draws hash key with
      | None => Throw (runtime_error "Failed to create signature")
      | Some signature =>
          let '(der, derLen) := DER.i2d_ECDSA_SIG signature in
          match der with
          | Some bytes => Ok (Codec.bytesToHex bytes)
          | None => Ok EmptyString
          end
      end
  end.

(** [verify(signatureHex, message, publicKeyHex)]: the results of
    [EC_POINT_oct2point] and [EC_KEY_set_public_key] are not looked at. *)
Definition verify (signatureHex message publicKeyHex : string) : result bool :=
  match EC.EC_KEY_new_by_curve_name with
  | None => Ok false
  | Some key =>
      let pub := EC.EC_POINT_new in
      publicKeyBytes <- Codec.hexToBytes publicKeyHex ;;
      let '(_, pub) := EC.EC_POINT_oct2point group pub publicKeyBytes in
      let '(_, key) := EC.EC_KEY_set_public_key key pub in
      let hash := EVP_Digest (bytes_of_string message) in
      sigBytes <- Codec.hexToBytes signatureHex ;;
      let signature := DER.d2i_ECDSA_SIG sigBytes in
      let result := EC.ECDSA_do_verify group hash signature key in
      Ok (result =? 1)
  end.

(** [getSharedKey(secretKeyHex, publicKeyHex)]. *)
Definition getSharedKey (secretKeyHex publicKeyHex : string) : result string :=
  match EC.EC_KEY_new_by_curve_name with
  | None => Throw (runtime_error "Failed to create EC_KEY for private key")
  | Some privateKey =>
      secretKeyBytes <- Codec.hexToBytes secretKeyHex ;;
      let priv := BN_bin2bn secretKeyBytes in
      let '(r, privateKey) := EC.EC_KEY_set_private_key privateKey priv in
      if r =? 0 then Throw (runtime_error "Failed to set private key") else
      let pub := EC.EC_POINT_new in
      publicKeyBytes <- Codec.hexToBytes publicKeyHex ;;
      let '(r, pub) := EC.EC_POINT_oct2point group pub publicKeyBytes in
      if r =? 0 then Throw (runtime_error "Failed to create public key point") else
      let '(r, sharedPoint) := EC.EC_POINT_mul group None (Some pub) (Some priv) in
      if r =? 0 then Throw (runtime_error "Failed to compute shared point") else
      match EC.EC_POINT_get_affine_coordinates sharedPoint with
      | (_, None) => Throw (runtime_error "Failed to get shared secret")
      | (_, Some (sharedSecretBN, _)) =>
          let sharedSecret :=
            match BN_bn2binpad sharedSecretBN 32 with
            | Some bytes => bytes
            | None => repeat x00 32
            end in
          Ok (Codec.bytesToHex sharedSecret)
      end
  end.

(** [encrypt(key, msg)]; [entropy] is what [RAND_bytes] draws. *)
Definition encrypt (entropy : option (list byte)) (key msg : string) : result string :=
  let '(r, nonce) := RAND_bytes entropy 12 in
  if negb (r =? 1) then Throw (runtime_error "Failed to generate nonce") else
  let keyHash := EVP_Digest (bytes_of_string key) in
  let msg_bytes := bytes_of_string msg in
  let msg_length := Z.of_nat (String.length msg) in
  let ciphertext := vector (String.length msg) in
  match EVP_CIPHER_CTX_new with
  | None => Throw (runtime_error "Failed to create cipher context")
  | Some ctx =>
  let '(r, ctx) := EVP_EncryptInit_ex ctx (Some EVP_aes_128_ccm) None None in
  if r =? 0 then Throw (runtime_error "Failed to initialize CCM mode") else
  let '(r1, ctx, _) := EVP_CIPHER_CTX_ctrl ctx EVP_CTRL_CCM_SET_IVLEN 12 None in
  let '(r2, ctx, _) :=
    if r1 =? 0 then (r1, ctx, [])
    else EVP_CIPHER_CTX_ctrl ctx EVP_CTRL_CCM_SET_TAG 16 None in
  if (r1 =? 0) || (r2 =? 0) then Throw (runtime_error "Failed to set CCM parameters") else
  let '(r, ctx) := EVP_EncryptInit_ex ctx None (Some keyHash) (Some nonce) in
  if r =? 0 then Throw (runtime_error "Failed to initialize encryption") else
  let '(r, ciphertext_len, _, ctx) :=
    EVP_EncryptUpdate AES_encrypt ctx None None (int_of_Z msg_length) in
  if r =? 0 then Throw (runtime_error "Failed to set message length") else
  let '(r, ciphertext_len, out, ctx) :=
    EVP_EncryptUpdate AES_encrypt ctx (data ciphertext) (Some msg_bytes) (int_of_Z msg_length) in
  if r =? 0 then Throw (runtime_error "Failed to encrypt message") else
  let ciphertext := match out with Some written => written | None => ciphertext end in
  let '(r, ciphertext_len, ctx) := EVP_EncryptFinal_ex AES_encrypt ctx (data ciphertext) in
  if r =? 0 then Throw (runtime_error "Failed to finalize encryption") else
  let '(r, ctx, tag) := EVP_CIPHER_CTX_ctrl ctx EVP_CTRL_CCM_GET_TAG 16 (Some (repeat x00 16)) in
  if r =? 0 then Throw (runtime_error "Failed to get tag") else
  let result := buffer 12 nonce ++ ciphertext ++ buffer 16 tag in
  Ok (Codec.bytesToHex result)
  end.

(** [decrypt(key, encryptedHex)]. *)
Definition decrypt (key encryptedHex : string) : result string :=
  encrypted <- Codec.hexToBytes encryptedHex ;;
  if (List.length encrypted <? 28)%nat
  then Throw (runtime_error "Invalid encrypted data length") else
  let keyHash := EVP_Digest (bytes_of_string key) in
  let nonce := encrypted in
  let ciphertext_len := (List.length encrypted - 28)%nat in
  let ciphertext := skipn 12 encrypted in
  let tag := skipn (List.length encrypted - 16) encrypted in
  let plaintext := vector ciphertext_len in
  match EVP_CIPHER_CTX_new with
  | None => Throw (runtime_error "Failed to create cipher context")
  | Some ctx =>
  let '(r, ctx) := EVP_DecryptInit_ex ctx (Some EVP_aes_128_ccm) None None in
  if r =? 0 then Throw (runtime_error "Failed to initialize CCM mode") else
  let '(r1, ctx, _) := EVP_CIPHER_CTX_ctrl ctx EVP_CTRL_CCM_SET_IVLEN 12 None in
  let '(r2, ctx, _) :=
    if r1 =? 0 then (r1, ctx, [])
    else EVP_CIPHER_CTX_ctrl ctx EVP_CTRL_CCM_SET_TAG 16 (Some tag) in
  if (r1 =? 0) || (r2 =? 0) then Throw (runtime_error "Failed to set CCM parameters") else
  let '(r, ctx) := EVP_DecryptInit_ex ctx None (Some keyHash) (Some nonce) in
  if r =? 0 then Throw (runtime_error "Failed to initialize decryption") else
  let '(r, plaintext_len, _, ctx) :=
    EVP_DecryptUpdate AES_encrypt ctx None None (int_of_Z (Z.of_nat ciphertext_len)) in
  if r =? 0 then Throw (runtime_error "Failed to set ciphertext length") else
  let '(r, plaintext_len, out, ctx) :=
    EVP_DecryptUpdate AES_encrypt ctx (data plaintext) (Some ciphertext)
      (int_of_Z (Z.of_nat ciphertext_len)) in
  if r =? 0
  then Throw (runtime_error "Failed to decrypt message or tag verification failed") else
  let plaintext := match out with Some written => written | None => plaintext end in
  Ok (string_of_bytes (firstn (Z.to_nat plaintext_len) plaintext))
  end.

End Methods.

End Crypto.

(** ** [main] *)

Module Main.

(** What the program has written so far: the lines on [std::cout] (every
    output statement of [main] ends in [std::endl]) and on [std::cerr]. *)
Record console : Type := mkConsole {
  cout : list string;
  cerr : list string
}.

(** [e.what()]. *)
Definition what (e : exn) : string :=
  match e with
  | runtime_error w | invalid_argument w | out_of_range w => w
  end.

(** A statement sequence inside a [try] block: it writes to the console,
    and returns or throws; what was written before a throw stays written. *)
Definition program (A : Type) : Type := console -> console * result A.

Definition seq {A B : Type} (p : program A) (k : A -> program B) : program B :=
  fun c =>
    let '(c', r) := p c in
    match r with
    | Ok a => k a c'
    | Throw e => (c', Throw e)
    end.

Notation "x <~ p ;; k" := (seq p (fun x => k))
  (at level 61, p at next level, right associativity).

(** A call of a method of [Crypto]. *)
Definition call {A : Type} (r : result A) : program A := fun c => (c, r).

(** [std::cout << line << std::endl]. *)
Definition print (line : string) : program unit :=
  fun c => (mkConsole (cout c ++ [line]) (cerr c), Ok tt).

(** [try { body } catch (const std::exception& e) { std::cerr << "Error: "
    << e.what() << std::endl; }]. *)
Definition try_catch (body : program unit) (c : console) : console :=
  let '(c', r) := body c in
  match r with
  | Ok _ => c'
  | Throw e => mkConsole (cout c') (cerr c' ++ [("Error: " ++ what e)%string])
  end.

(** What the random number generator delivers to the calls of one run, in
    the order of the calls: the draws of the four key generations and of
    [ECDSA_do_sign], and the bytes of [RAND_bytes] in [encrypt]. *)
Record random_source : Type := mkRandom {
  key_draws : list Z;
  sign_draws : list Z;
  alice_draws : list Z;
  bob_draws : list Z;
  nonce_entropy : option (list byte);
  second_key_draws : list Z
}.

Section Program.

Variable SHA256 : list byte -> list byte.
Variable AES_encrypt : list byte -> list byte -> list byte.
Variable group : EC.EC_GROUP.
Variable rng : random_source.

Let generatePrivateKey := Crypto.generatePrivateKey group.
Let derivePublicKey := Crypto.derivePublicKey group.
Let sign := Crypto.sign SHA256 group.
Let verify := Crypto.verify SHA256 group.
Let getSharedKey := Crypto.getSharedKey group.
Let encrypt := Crypto.encrypt SHA256 AES_encrypt.
Let decrypt := Crypto.decrypt SHA256 AES_encrypt.

(** The first [try] block: key pair, signature, shared key, encryption. *)
Definition first_block : program unit :=
  privateKey <~ call (generatePrivateKey (key_draws rng)) ;;
  _ <~ print ("Private Key: " ++ privateKey)%string ;;
  publicKey <~ call (derivePublicKey privateKey) ;;
  _ <~ print ("Public Key: " ++ publicKey)%string ;;
  let message := "Hello, World!!!!!!!!"%string in
  signature <~ call (sign (sign_draws rng) message privateKey) ;;
  _ <~ print ("Signature: " ++ signature)%string ;;
  isValid <~ call (verify signature message publicKey) ;;
  _ <~ print ("Signature Valid: " ++ (if isValid : bool then "Yes" else "No"))%string ;;
  alicePrivateKey <~ call (generatePrivateKey (alice_draws rng)) ;;
  alicePublicKey <~ call (derivePublicKey alicePrivateKey) ;;
  bobPrivateKey <~ call (generatePrivateKey (bob_draws rng)) ;;
  bobPublicKey <~ call (derivePublicKey bobPrivateKey) ;;
  sharedKey1 <~ call (getSharedKey alicePrivateKey bobPublicKey) ;;
  sharedKey2 <~ call (getSharedKey bobPrivateKey alicePublicKey) ;;
  _ <~ print ("SharedKey Value: " ++ sharedKey1)%string ;;
  _ <~ print ("SharedKey Valid: " ++
               (if String.eqb sharedKey1 sharedKey2 then "Yes" else "No"))%string ;;
  encrypted <~ call (encrypt (nonce_entropy rng) sharedKey1 message) ;;
  _ <~ print ("Encrypted: " ++ encrypted)%string ;;
  decrypted <~ call (decrypt sharedKey2 encrypted) ;;
  print ("Decrypted: " ++ decrypted)%string.

(** The signature the second block checks against a fresh key. *)
Definition foreign_signature : string :=
  "304402206caa7f734d7ed1abdf6295922daf47e32efa849fbf8fd8128291f59135ad176302200a529b628f534083c400c80822c64a68f08a188e7375c9b129a7a8a7d37d4542".

(** The second [try] block: a signature that is not the key's. *)
Definition second_block : program unit :=
  _ <~ print "------------------------" ;;
  _ <~ print EmptyString ;;
  _ <~ print "실패 테스트" ;;
  privateKey <~ call (generatePrivateKey (second_key_draws rng)) ;;
  _ <~ print ("Private Key: " ++ privateKey)%string ;;
  publicKey <~ call (derivePublicKey privateKey) ;;
  _ <~ print ("Public Key: " ++ publicKey)%string ;;
  let message := "Hello, World!"%string in
  let signature := foreign_signature in
  _ <~ print ("Signature: " ++ signature)%string ;;
  isValid <~ call (verify signature message publicKey) ;;
  _ <~ print ("Signature Valid: " ++ (if isValid : bool then "Yes" else "No"))%string ;;
  print ("Signature Valid: " ++
         (if isValid : bool then "실패 테스트 실패" else "실패 테스트 성공"))%string.

(** [main()]: the exit status and everything written. *)
Definition main : Z * console :=
  (0, try_catch second_block (try_catch first_block (mkConsole [] []))).

End Program.

End Main.

(** ** Vocabulary of the statements *)

(** All 256 bytes, for checks by enumeration. *)
Definition all_bytes : list byte := map (fun k => byte_of_Z (Z.of_nat k)) (seq 0 256).

Module CodecProps.
Import Codec.

(** Every character is one of the 256 values of [ascii_of_N]. *)
Definition all_ascii : list ascii :=
  map (fun k => ascii_of_nat k) (seq 0 256).

(** What [stoi] does on a chunk, checked on all 256 (and 65536) chunks. *)
Definition stoi_chunk_spec (chunk : string) (converts : bool) : bool :=
  match stoi16 chunk with
  | Ok v => converts && (-15 <=? v) && (v <=? 255)
  | Throw (invalid_argument what) => negb converts && String.eqb what "stoi"
  | Throw _ => false
  end.

(** One lowercase chunk decodes to the byte that prints back as the chunk. *)
Definition lower_chunk_spec (c1 c2 : ascii) : bool :=
  negb (is_lower_hex c1 && is_lower_hex c2) ||
  match stoi16 (String c1 (String c2 EmptyString)) with
  | Ok v => String.eqb (setw_fill0 2 (put_hex (Z_of_byte (byte_of_Z v))))
                       (String c1 (String c2 EmptyString))
  | Throw _ => false
  end.

(** The character at offset [i], if any. *)
Definition char_at (i : nat) (s : string) : option ascii := String.get i s.

End CodecProps.

(** The states of the cipher context along [encrypt] and [decrypt]. *)
Module EVPStates.
Import EVP.

(** The CCM state once key, nonce and message length are in. *)
Definition session (k ivb : list byte) (mlen : Z) : CCM.CCM128_CONTEXT :=
  snd (CCM.CRYPTO_ccm128_setiv (CCM.CRYPTO_ccm128_init 16 3 k) ivb 12 mlen).

Definition ctx_fresh : EVP_CIPHER_CTX :=
  mkCTX None false false false false false 8 12 [] [] (CCM.CRYPTO_ccm128_init 12 8 []).

Definition ctx_reset (enc : bool) : EVP_CIPHER_CTX :=
  mkCTX (Some EVP_aes_128_ccm) enc false false false false 8 12 [] []
        (CCM.CRYPTO_ccm128_init 12 8 []).

Definition ctx_ivlen (enc : bool) : EVP_CIPHER_CTX :=
  mkCTX (Some EVP_aes_128_ccm) enc false false false false 3 12 [] []
        (CCM.CRYPTO_ccm128_init 12 8 []).

Definition ctx_params (enc tagset : bool) (tg : list byte) : EVP_CIPHER_CTX :=
  mkCTX (Some EVP_aes_128_ccm) enc false false tagset false 3 16 [] tg
        (CCM.CRYPTO_ccm128_init 12 8 []).

Definition ctx_keyed (enc tagset : bool) (tg k ivb : list byte) : EVP_CIPHER_CTX :=
  mkCTX (Some EVP_aes_128_ccm) enc true true tagset false 3 16 ivb tg
        (CCM.CRYPTO_ccm128_init 16 3 k).

Definition ctx_sized (enc tagset : bool) (tg k ivb : list byte) (n : Z) : EVP_CIPHER_CTX :=
  mkCTX (Some EVP_aes_128_ccm) enc true true tagset true 3 16 ivb tg (session k ivb n).

Definition ctx_after (enc ivset tagset : bool) (tg ivb : list byte) (cc : CCM.CCM128_CONTEXT)
  : EVP_CIPHER_CTX :=
  mkCTX (Some EVP_aes_128_ccm) enc true ivset tagset ivset 3 16 ivb tg cc.

End EVPStates.

Module AEADProps.
Import CCM EVPStates.

Section Methods.

Variable SHA256 : list byte -> list byte.
Variable AES : list byte -> list byte -> list byte.

(** The AES key: the first 16 bytes of the digest of the key material. *)
Definition aes_key (key : string) : list byte :=
  buffer 16 (Crypto.EVP_Digest SHA256 (bytes_of_string key)).

(** The tag CCM assigns to the ciphertext of an envelope under a key, and
    the tag the envelope carries. *)
Definition expected_tag (key : string) (encrypted : list byte) : list byte :=
  let clen := (List.length encrypted - 28)%nat in
  cmac (snd (fst (CRYPTO_ccm128_decrypt AES
                    (session (aes_key key) (buffer 12 encrypted) (Z.of_nat clen))
                    (firstn clen (skipn 12 encrypted))))).

Definition envelope_tag (encrypted : list byte) : list byte :=
  skipn (List.length encrypted - 16) encrypted.

End Methods.

End AEADProps.

Module DERProps.

(** The content bytes of the INTEGER for [v]. *)
Definition integer_content (v : Z) : list byte :=
  be_bytes (Z.to_nat (BN_num_bits v / 8 + 1)) v.

End DERProps.

(** ** The laws of the curve group, and its points by enumeration *)

Module ECLaws.
Import EC.

(** What the proofs use of a curve: its points form a group under
    [EC_POINT_add], the generator has prime order [order], and field and
    order fit 256 bits.  These are the textbook facts about prime256v1.
    Below, all of them are proved for the small curve by enumeration; for
    prime256v1 the generator and the sizes are checked by computation. *)
Record group_laws (g : EC_GROUP) : Prop := {
  order_prime : Z.prime (order g);
  add_closed : forall P Q,
    valid_point g P = true -> valid_point g Q = true ->
    valid_point g (EC_POINT_add g P Q) = true;
  add_assoc : forall P Q R,
    valid_point g P = true -> valid_point g Q = true -> valid_point g R = true ->
    EC_POINT_add g P (EC_POINT_add g Q R) = EC_POINT_add g (EC_POINT_add g P Q) R;
  generator_valid : valid_point g (EC_GROUP_get0_generator g) = true;
  generator_order : scalar_mul g (order g) (EC_GROUP_get0_generator g) = None;
  field_256 : 1 < field g < 2 ^ 256;
  order_256 : order g < 2 ^ 256
}.

(** The uncompressed encoding of the affine point [(x, y)]: the octet 04,
    then both coordinates at the length of the field. *)
Definition point_octets (g : EC_GROUP) (x y : Z) : list byte :=
  x04 :: be_bytes (field_len g) x ++ be_bytes (field_len g) y.

(** The numbers below [m]. *)
Definition residues (m : Z) : list Z := List.map Z.of_nat (seq 0 (Z.to_nat m)).

(** Every valid point of a curve, the point at infinity first. *)
Definition points (g : EC_GROUP) : list EC_POINT :=
  None :: List.filter (valid_point g)
            (List.map Some (list_prod (residues (field g)) (residues (field g)))).

Definition eqb_point (P Q : EC_POINT) : bool :=
  match P, Q with
  | None, None => true
  | Some (x, y), Some (x', y') => (x =? x') && (y =? y')
  | _, _ => false
  end.

(** Closure and associativity of [EC_POINT_add], checked over a list of
    points. *)
Definition closed_on (g : EC_GROUP) (l : list EC_POINT) : bool :=
  forallb (fun P => forallb (fun Q => valid_point g (EC_POINT_add g P Q)) l) l.

Definition assoc_on (g : EC_GROUP) (l : list EC_POINT) : bool :=
  forallb (fun P => forallb (fun Q => forallb (fun R =>
    eqb_point (EC_POINT_add g P (EC_POINT_add g Q R))
              (EC_POINT_add g (EC_POINT_add g P Q) R)) l) l) l.

End ECLaws.

(** Letter case, to state what the decoder makes of uppercase digits. *)
Module HexProps.
Import Codec.

(** [tolower] on the letters A to Z. *)
Definition tolower (c : ascii) : ascii :=
  let k := N_of_ascii c in
  if ((65 <=? k) && (k <=? 90))%N then ascii_of_N (k + 32) else c.

Fixpoint lowercase (s : string) : string :=
  match s with
  | EmptyString => EmptyString
  | String c rest => String (tolower c) (lowercase rest)
  end.

(** One chunk of two hex digits of either case decodes to the byte that
    prints back as the chunk in lowercase. *)
Definition hex_chunk_spec (c1 c2 : ascii) : bool :=
  negb (is_hex c1 && is_hex c2) ||
  match stoi16 (String c1 (String c2 EmptyString)) with
  | Ok v => String.eqb (setw_fill0 2 (put_hex (Z_of_byte (byte_of_Z v))))
                       (String (tolower c1) (String (tolower c2) EmptyString))
  | Throw _ => false
  end.

End HexProps.

Module ECDSAProps.
Import EC.

(** A pair [(r, s)] written down without any private key, from the digest
    and a scalar [c]: [r] is the x coordinate of [c * G] and [s] is
    [e / c], both modulo the order. *)
Definition signature_without_key (g : EC_GROUP) (dgst : list byte) (c : Z) : Z * Z :=
  (match scalar_mul g c (EC_GROUP_get0_generator g) with
   | Some (x, _) => x mod order g
   | None => 0
   end,
   (digest_to_bn g dgst * inverse_mod_order g c) mod order g).

End ECDSAProps.

(** ** Test data *)



(** The class over the real primitives, and inputs of the known-answer
    tests. *)
Module TestVectors.

Definition encrypt := Crypto.encrypt SHA256.digest AES.encrypt_block.
Definition decrypt := Crypto.decrypt SHA256.digest AES.encrypt_block.
Definition nonce_0_to_11 : list byte :=
  [x00; x01; x02; x03; x04; x05; x06; x07; x08; x09; x0a; x0b].

Definition derivePublicKey := Crypto.derivePublicKey EC.prime256v1.
Definition sign := Crypto.sign SHA256.digest EC.prime256v1.
Definition verify := Crypto.verify SHA256.digest EC.prime256v1.
Definition getSharedKey := Crypto.getSharedKey EC.prime256v1.

(** The public keys of the private keys 1, 7 and 9. *)
Definition pub1 : string :=
  "046b17d1f2e12c4247f8bce6e563a440f277037d812deb33a0f4a13945d898c2964fe342e2fe1a7f9b8ee7eb4a7c0f9e162bce33576b315ececbb6406837bf51f5".

Definition pub7 : string :=
  "048e533b6fa0bf7b4625bb30667c01fb607ef9f8b8a80fef5b300628703187b2a373eb1dbde03318366d069f83a6f5900053c73633cb041b21c55e1a86c1f400b4".

Definition pub9 : string :=
  "04ea68d7b6fedf0b71878938d51d71f8729e0acb8c2c6df8b3d79e8a4b90949ee02a2744c972c9fce787014a964a8ea0c84d714feaa4de823fe85a224a4dd048fa".

(** A signature made without any private key, for the message
    ["Hello, World!"]: [r] is the x coordinate of the generator and [s] the
    digest of the message, both reduced modulo the order. *)
Definition keyless_signature : string :=
  "304502206b17d1f2e12c4247f8bce6e563a440f277037d812deb33a0f4a13945d898c296022100dffd6021bb2bd5b0af676290809ec3a53191dd81c7f70a4b28688a362182986f".

(** An envelope of [encrypt] for the key ["key"], the plaintext ["hello"]
    and the nonce [00 01 .. 0b]. *)
Definition envelope_hello : list byte :=
  [x00; x01; x02; x03; x04; x05; x06; x07; x08; x09; x0a; x0b;
   xb5; x75; x03; x56; x65;
   xa2; x0e; x10; x64; x00; x05; x9e; x68; x0e; xf1; x47; xff; x1c; xeb; xb0; x8f].

(** What the random number generator delivers in a run of [main] on the
    small curve. *)
Definition small_run : Main.random_source :=
  Main.mkRandom [7] [5] [9] [11] (Some nonce_0_to_11) [3].

End TestVectors.

(* ================================================================== *)
(** * Part II — theorems                                               *)
(* ================================================================== *)

(** ** Bytes *)

Lemma byte_of_Z_of_byte (b : byte) : byte_of_Z (Z_of_byte b) = b.
Proof. destruct b; reflexivity. Qed.

Lemma Z_of_byte_range (b : byte) : 0 <= Z_of_byte b < 256.
Proof.
  unfold Z_of_byte. pose proof (Byte.to_N_bounded b). lia.
Qed.

Lemma Z_of_byte_of_Z (v : Z) : Z_of_byte (byte_of_Z v) = v mod 256.
Proof.
  unfold byte_of_Z, Z_of_byte.
  pose proof (Z.mod_pos_bound v 256 ltac:(lia)) as Hb.
  destruct (Byte.of_N (Z.to_N (v mod 256))) as [b|] eqn:E.
  - apply Byte.to_of_N in E. rewrite E. lia.
  - apply Byte.of_N_None_iff in E. lia.
Qed.

Lemma all_bytes_complete (b : byte) : In b all_bytes.
Proof.
  unfold all_bytes. apply in_map_iff. exists (Z.to_nat (Z_of_byte b)).
  pose proof (Z_of_byte_range b). split.
  - rewrite Z2Nat.id by lia. apply byte_of_Z_of_byte.
  - apply in_seq. lia.
Qed.

Lemma forall_bytes2 (P : byte -> byte -> bool) :
  forallb (fun x => forallb (P x) all_bytes) all_bytes = true ->
  forall x y, P x y = true.
Proof.
  intros H x y. rewrite forallb_forall in H.
  specialize (H x (all_bytes_complete x)). rewrite forallb_forall in H.
  apply H, all_bytes_complete.
Qed.

Lemma xor_byte_involutive (x y : byte) : xor_byte (xor_byte x y) y = x.
Proof.
  apply Byte.byte_dec_bl. revert x y.
  apply (forall_bytes2 (fun x y => Byte.eqb (xor_byte (xor_byte x y) y) x)).
  vm_compute. reflexivity.
Qed.

Lemma xor_into_length (dst src : list byte) :
  List.length (xor_into dst src) = List.length dst.
Proof.
  revert src. induction dst as [| d dst IH]; intros [| s src]; cbn; auto.
Qed.

Lemma xor_into_involutive (dst src : list byte) :
  xor_into (xor_into dst src) src = dst.
Proof.
  revert src. induction dst as [| d dst IH]; intros [| s src]; cbn; auto.
  now rewrite xor_byte_involutive, IH.
Qed.

Lemma buffer_length (n : nat) (l : list byte) : List.length (buffer n l) = n.
Proof.
  unfold buffer. rewrite length_firstn, length_app, repeat_length. lia.
Qed.

Lemma buffer_id (n : nat) (l : list byte) : List.length l = n -> buffer n l = l.
Proof.
  intros <-. unfold buffer. rewrite firstn_app, Nat.sub_diag, firstn_all. cbn.
  apply app_nil_r.
Qed.

Lemma store_length (dst : list byte) (pos : nat) (src : list byte) :
  List.length (store dst pos src) = List.length dst.
Proof.
  unfold store. rewrite length_firstn, !length_app, length_firstn, length_skipn. lia.
Qed.

Lemma store_all (dst src : list byte) :
  List.length src = List.length dst -> store dst 0 src = src.
Proof.
  intros H. unfold store. cbn [firstn app Nat.add]. rewrite <- H.
  rewrite firstn_app, Nat.sub_diag, firstn_all. cbn. apply app_nil_r.
Qed.

Lemma store_head (dst : list byte) (b : byte) :
  dst <> [] -> nth 0 (store dst 0 [b]) x00 = b.
Proof.
  destruct dst as [| d dst]; [congruence |]. reflexivity.
Qed.

Lemma CRYPTO_memcmp_refl (a : list byte) (len : nat) :
  (len <= List.length a)%nat -> CRYPTO_memcmp a a len = 0.
Proof.
  revert a. induction len as [| len IH]; intros [| x a] H; cbn in *; try lia.
  rewrite (Byte.byte_dec_lb (eq_refl x)). apply IH. lia.
Qed.

Lemma CRYPTO_memcmp_eq (a b : list byte) (len : nat) :
  List.length a = len -> List.length b = len -> CRYPTO_memcmp a b len = 0 -> a = b.
Proof.
  revert a b. induction len as [| len IH]; intros [| x a] [| y b] Ha Hb H;
    cbn in *; try lia; auto.
  destruct (Byte.eqb x y) eqn:E; [| discriminate].
  apply Byte.byte_dec_bl in E. subst y. f_equal. apply IH; auto.
Qed.

(** ** Big-endian integers *)

Lemma be_bytes_length (n : nat) (v : Z) : List.length (be_bytes n v) = n.
Proof. induction n; cbn; auto. Qed.

Lemma fold_be_bytes (n : nat) (v acc : Z) :
  fold_left (fun a b => a * 256 + Z_of_byte b) (be_bytes n v) acc =
  acc * 2 ^ (8 * Z.of_nat n) + v mod 2 ^ (8 * Z.of_nat n).
Proof.
  revert acc. induction n as [| k IH]; intros acc.
  - cbn [be_bytes fold_left]. change (2 ^ (8 * Z.of_nat 0)) with 1.
    rewrite Z.mod_1_r. lia.
  - cbn [be_bytes fold_left]. rewrite IH, Z_of_byte_of_Z, Z.shiftr_div_pow2 by lia.
    replace (8 * Z.of_nat (S k)) with (8 * Z.of_nat k + 8) by lia.
    rewrite Z.pow_add_r by lia. change (2 ^ 8) with 256.
    assert (Hp : 0 < 2 ^ (8 * Z.of_nat k)) by (apply Z.pow_pos_nonneg; lia).
    rewrite (Z.rem_mul_r v (2 ^ (8 * Z.of_nat k)) 256) by lia. ring.
Qed.

Lemma BN_bin2bn_be_bytes (n : nat) (v : Z) :
  BN_bin2bn (be_bytes n v) = v mod 2 ^ (8 * Z.of_nat n).
Proof. unfold BN_bin2bn. rewrite fold_be_bytes. lia. Qed.

Lemma BN_bin2bn_nonneg (s : list byte) : 0 <= BN_bin2bn s.
Proof.
  unfold BN_bin2bn.
  assert (H : forall acc, 0 <= acc ->
            0 <= fold_left (fun a b => a * 256 + Z_of_byte b) s acc).
  { induction s as [| b s IH]; intros acc Hacc; cbn [fold_left]; [exact Hacc |].
    apply IH. pose proof (Z_of_byte_range b). lia. }
  apply H. lia.
Qed.

(** ** Codec *)

Module CodecFacts.
Import Codec CodecProps.

Lemma chunk_of_byte (b : byte) :
  exists c1 c2,
    setw_fill0 2 (put_hex (Z_of_byte b)) = String c1 (String c2 EmptyString) /\
    is_lower_hex c1 = true /\ is_lower_hex c2 = true /\
    stoi16 (String c1 (String c2 EmptyString)) = Ok (Z_of_byte b).
Proof.
  destruct b; do 2 eexists; (split; [reflexivity | repeat split; reflexivity]).
Qed.

Lemma all_ascii_complete (c : ascii) : In c all_ascii.
Proof.
  unfold all_ascii. apply in_map_iff. exists (nat_of_ascii c). split.
  - apply ascii_nat_embedding.
  - apply in_seq. pose proof (nat_ascii_bounded c). lia.
Qed.

Lemma forall_ascii (P : ascii -> bool) :
  forallb P all_ascii = true -> forall c, P c = true.
Proof.
  intros H c. rewrite forallb_forall in H. apply H, all_ascii_complete.
Qed.

Lemma forall_ascii2 (P : ascii -> ascii -> bool) :
  forallb (fun c1 => forallb (P c1) all_ascii) all_ascii = true ->
  forall c1 c2, P c1 c2 = true.
Proof.
  intros H c1 c2.
  apply (forall_ascii (P c1)). apply (forall_ascii _ H c1).
Qed.

Lemma stoi_chunk1 (c1 : ascii) :
  stoi_chunk_spec (String c1 EmptyString) (chunk_converts c1 None) = true.
Proof.
  revert c1. apply forall_ascii. vm_compute. reflexivity.
Qed.

Lemma stoi_chunk2 (c1 c2 : ascii) :
  stoi_chunk_spec (String c1 (String c2 EmptyString)) (chunk_converts c1 (Some c2)) = true.
Proof.
  revert c1 c2.
  apply (forall_ascii2 (fun c1 c2 =>
    stoi_chunk_spec (String c1 (String c2 EmptyString)) (chunk_converts c1 (Some c2)))).
  vm_compute. reflexivity.
Qed.

Lemma stoi_chunk_cases (chunk : string) (converts : bool) :
  stoi_chunk_spec chunk converts = true ->
  (converts = true /\ exists v, stoi16 chunk = Ok v) \/
  (converts = false /\ stoi16 chunk = Throw (invalid_argument "stoi")).
Proof.
  unfold stoi_chunk_spec. destruct (stoi16 chunk) as [v | [w | w | w]]; intros H.
  - left. apply andb_true_iff in H as [H _]. apply andb_true_iff in H as [H _].
    split; [exact H | now exists v].
  - discriminate.
  - right. apply andb_true_iff in H as [H1 H2].
    apply String.eqb_eq in H2. subst w.
    split; [now destruct converts | reflexivity].
  - discriminate.
Qed.

(** Induction over a string two characters at a time, as the decoding loop
    walks it. *)
Lemma string_chunk_ind (P : string -> Prop) :
  P EmptyString ->
  (forall c1, P (String c1 EmptyString)) ->
  (forall c1 c2 rest, P rest -> P (String c1 (String c2 rest))) ->
  forall s, P s.
Proof.
  intros H0 H1 H2.
  fix IH 1. intros [| c1 [| c2 rest]].
  - exact H0.
  - apply H1.
  - apply H2, IH.
Qed.

Lemma bytesToHex_cons (b : byte) (rest : list byte) :
  exists c1 c2,
    bytesToHex (b :: rest) = String c1 (String c2 (bytesToHex rest)) /\
    is_lower_hex c1 = true /\ is_lower_hex c2 = true /\
    stoi16 (String c1 (String c2 EmptyString)) = Ok (Z_of_byte b).
Proof.
  destruct (chunk_of_byte b) as (c1 & c2 & E & H1 & H2 & H3).
  exists c1, c2. cbn [bytesToHex]. rewrite E. auto.
Qed.

Lemma bytesToHex_length (data : list byte) :
  String.length (bytesToHex data) = (2 * List.length data)%nat.
Proof.
  induction data as [| b rest IH]; [reflexivity |].
  destruct (bytesToHex_cons b rest) as (c1 & c2 & E & _).
  rewrite E. cbn [String.length List.length]. lia.
Qed.

Lemma bytesToHex_lowercase (data : list byte) :
  all_chars is_lower_hex (bytesToHex data) = true.
Proof.
  induction data as [| b rest IH]; [reflexivity |].
  destruct (bytesToHex_cons b rest) as (c1 & c2 & E & H1 & H2 & _).
  rewrite E. cbn [all_chars]. now rewrite H1, H2, IH.
Qed.

Lemma bytesToHex_app (l1 l2 : list byte) :
  bytesToHex (l1 ++ l2) = (bytesToHex l1 ++ bytesToHex l2)%string.
Proof.
  induction l1 as [| b rest IH]; [reflexivity |].
  cbn [bytesToHex app]. rewrite IH.
  destruct (chunk_of_byte b) as (c1 & c2 & E & _). rewrite E. reflexivity.
Qed.

(** What the encoder writes, the decoder reads back, chunk by chunk; the
    lemma the proofs about envelopes, keys and signatures rely on. *)
Lemma decode_encoded (b : list byte) : hexToBytes (bytesToHex b) = Ok b.
Proof.
  induction b as [| x rest IH]; [reflexivity |].
  destruct (bytesToHex_cons x rest) as (c1 & c2 & E & _ & _ & Hs).
  rewrite E. cbn [hexToBytes]. rewrite Hs. cbn [bind]. rewrite IH. cbn [bind].
  now rewrite byte_of_Z_of_byte.
Qed.

(** C7.  For every byte sequence [b], decoding the hex encoding of [b]
    returns [b] unchanged: [hexToBytes(bytesToHex(b)) == b]. *)
Theorem hexToBytes_bytesToHex (b : list byte) :
  hexToBytes (bytesToHex b) = Ok b.
Proof. exact (decode_encoded b). Qed.

Lemma lower_chunk (c1 c2 : ascii) : lower_chunk_spec c1 c2 = true.
Proof.
  revert c1 c2. apply (forall_ascii2 lower_chunk_spec). vm_compute. reflexivity.
Qed.

(** C10.  For every even-length string [s] of lowercase hex digits,
    re-encoding its decoding reproduces it:
    [bytesToHex(hexToBytes(s)) == s]. *)
Theorem bytesToHex_hexToBytes (s : string) :
  Nat.even (String.length s) = true ->
  all_chars is_lower_hex s = true ->
  exists bytes, hexToBytes s = Ok bytes /\ bytesToHex bytes = s.
Proof.
  induction s as [| c1 | c1 c2 rest IH] using string_chunk_ind; intros Hlen Hhex.
  - exists []. split; reflexivity.
  - discriminate Hlen.
  - cbn [all_chars] in Hhex.
    apply andb_true_iff in Hhex as [H1 Hhex]. apply andb_true_iff in Hhex as [H2 Hhex].
    destruct (IH Hlen Hhex) as (bytes & Hdec & Henc).
    pose proof (lower_chunk c1 c2) as Hc. unfold lower_chunk_spec in Hc.
    rewrite H1, H2 in Hc. cbn [andb negb orb] in Hc.
    cbn [hexToBytes].
    destruct (stoi16 (String c1 (String c2 EmptyString))) as [v | e]; [| discriminate].
    apply String.eqb_eq in Hc.
    exists (byte_of_Z v :: bytes). cbn [bind]. rewrite Hdec. cbn [bind].
    split; [reflexivity |].
    cbn [bytesToHex]. rewrite Hc, Henc. reflexivity.
Qed.

(** Witness for C10 at ["00ff7a"]. *)
Lemma bytesToHex_hexToBytes_witness :
  exists bytes, hexToBytes "00ff7a" = Ok bytes /\ bytesToHex bytes = "00ff7a"%string.
Proof.
  apply (bytesToHex_hexToBytes "00ff7a"); reflexivity.
Defined.

(** The decoder fails exactly on a chunk that [stoi] cannot convert, and
    then always with [std::invalid_argument]. *)
Lemma hexToBytes_characterised (s : string) :
  if all_chunks_convert s
  then returns (hexToBytes s)
  else hexToBytes s = Throw (invalid_argument "stoi").
Proof.
  induction s as [| c1 | c1 c2 rest IH] using string_chunk_ind.
  - now exists [].
  - cbn [all_chunks_convert hexToBytes].
    destruct (stoi_chunk_cases _ _ (stoi_chunk1 c1)) as [[-> [v ->]] | [-> ->]].
    + now eexists.
    + reflexivity.
  - cbn [all_chunks_convert hexToBytes].
    destruct (stoi_chunk_cases _ _ (stoi_chunk2 c1 c2)) as [[-> [v ->]] | [-> ->]].
    + cbn [andb bind]. destruct (all_chunks_convert rest).
      * destruct IH as [bytes ->]. now eexists.
      * now rewrite IH.
    + reflexivity.
Qed.

Lemma bad_even_char_blocks (s : string) (i : nat) (c : ascii) :
  Nat.even i = true ->
  char_at i s = Some c ->
  is_hex c = false -> isspace c = false -> is_sign c = false ->
  all_chunks_convert s = false.
Proof.
  unfold char_at. revert i.
  induction s as [| c1 | c1 c2 rest IH] using string_chunk_ind;
    intros i Hev Hget Hh Hs Hg.
  - destruct i; discriminate.
  - destruct i as [| [| i]]; cbn in Hget; try discriminate.
    injection Hget as ->. cbn. unfold chunk_converts. now rewrite Hh, Hs, Hg.
  - destruct i as [| [| i]]; cbn [String.get] in Hget.
    + injection Hget as ->. cbn [all_chunks_convert]. unfold chunk_converts.
      now rewrite Hh, Hs, Hg.
    + discriminate Hev.
    + cbn [all_chunks_convert]. rewrite (IH i); auto using andb_false_r.
Qed.

(** C8 (amended).  [hexToBytes] fails, with [std::invalid_argument], exactly
    when some chunk at an even offset is not convertible by [stoi] (it
    starts with neither a hex digit nor one blank or sign followed by a hex
    digit); in particular it fails whenever a character at an even offset is
    not a hex digit, a blank or a sign.  Otherwise it returns bytes: odd
    length alone, or a non-hex character at an odd offset, is accepted. *)
Theorem hexToBytes_rejects (s : string) :
  (all_chunks_convert s = false <-> throws (hexToBytes s)) /\
  (throws (hexToBytes s) -> hexToBytes s = Throw (invalid_argument "stoi")) /\
  (forall i c, Nat.even i = true -> char_at i s = Some c ->
     is_hex c = false -> isspace c = false -> is_sign c = false ->
     hexToBytes s = Throw (invalid_argument "stoi")).
Proof.
  pose proof (hexToBytes_characterised s) as H.
  destruct (all_chunks_convert s) eqn:E.
  - destruct H as [bytes Hb]. repeat split.
    + discriminate.
    + intros [e He]. congruence.
    + intros [e He]. congruence.
    + intros i c Hev Hget Hh Hs Hg.
      rewrite (bad_even_char_blocks s i c) in E; auto. discriminate.
  - repeat split; auto.
    intros _. exists (invalid_argument "stoi"). exact H.
Qed.

(** C8 at a string whose first character is no hex digit. *)
Lemma hexToBytes_rejects_witness : hexToBytes "zz" = Throw (invalid_argument "stoi").
Proof.
  apply (proj2 (proj2 (hexToBytes_rejects "zz")) 0%nat "z"%char); reflexivity.
Defined.

(** C8 (as stated) fails: an odd-length string and a string with a non-hex
    character both decode without any error. *)
Lemma hexToBytes_accepts_malformed :
  Nat.odd (String.length "a") = true /\
  hexToBytes "a" = Ok [x0a] /\
  all_chars is_hex "1g" = false /\
  hexToBytes "1g" = Ok [x01].
Proof. repeat split. Qed.

End CodecFacts.

(** ** CCM: decryption inverts encryption *)

Module CCMFacts.
Import CCM.

Section Ccm128.

Variable E : list byte -> list byte -> list byte.

Lemma block_length (k inp : list byte) : List.length (block E k inp) = 16%nat.
Proof. apply buffer_length. Qed.

Lemma encrypt_blocks_nil (fuel : nat) (k mac ctr : list byte) :
  encrypt_blocks E fuel k mac ctr [] = ([], mac, ctr).
Proof. destruct fuel; reflexivity. Qed.

Lemma decrypt_blocks_nil (fuel : nat) (k mac ctr : list byte) :
  decrypt_blocks E fuel k mac ctr [] = ([], mac, ctr).
Proof. destruct fuel; reflexivity. Qed.

Lemma encrypt_blocks_step (fuel : nat) (k mac ctr inp : list byte) :
  inp <> [] ->
  encrypt_blocks E (S fuel) k mac ctr inp =
  let chunk := firstn 16 inp in
  let '(out, mac'', ctr'') :=
    encrypt_blocks E fuel k (block E k (xor_into mac chunk))
      (if (List.length chunk =? 16)%nat then ctr64_inc ctr else ctr) (skipn 16 inp) in
  (xor_into chunk (block E k ctr) ++ out, mac'', ctr'').
Proof. destruct inp; [congruence | reflexivity]. Qed.

Lemma decrypt_blocks_step (fuel : nat) (k mac ctr inp : list byte) :
  inp <> [] ->
  decrypt_blocks E (S fuel) k mac ctr inp =
  let chunk := firstn 16 inp in
  let plain := xor_into chunk (block E k ctr) in
  let '(out, mac'', ctr'') :=
    decrypt_blocks E fuel k (block E k (xor_into mac plain))
      (if (List.length chunk =? 16)%nat then ctr64_inc ctr else ctr) (skipn 16 inp) in
  (plain ++ out, mac'', ctr'').
Proof. destruct inp; [congruence | reflexivity]. Qed.

(** A chunk of a non-empty input, followed by what the rest of the loop
    produced, splits again at 16 bytes. *)
Lemma rechunk (inp x out : list byte) :
  List.length x = List.length (firstn 16 inp) ->
  (skipn 16 inp = [] -> out = []) ->
  firstn 16 (x ++ out) = x /\ skipn 16 (x ++ out) = out.
Proof.
  intros Hx Hout. rewrite length_firstn in Hx.
  destruct (Nat.le_gt_cases 16 (List.length inp)) as [Hge | Hlt].
  - assert (Hl : List.length x = 16%nat) by lia.
    rewrite firstn_app, skipn_app, Hl, Nat.sub_diag.
    change (firstn 0 out) with (@nil byte). change (skipn 0 out) with out.
    rewrite firstn_all2, skipn_all2 by lia.
    now rewrite app_nil_r.
  - assert (Hs : skipn 16 inp = []) by (apply skipn_all2; lia).
    rewrite (Hout Hs), app_nil_r.
    split; [apply firstn_all2 | apply skipn_all2]; lia.
Qed.

Lemma decrypt_encrypt_blocks (fuel : nat) :
  forall k mac ctr inp out mac' ctr',
    (List.length inp <= fuel)%nat ->
    encrypt_blocks E fuel k mac ctr inp = (out, mac', ctr') ->
    decrypt_blocks E fuel k mac ctr out = (inp, mac', ctr') /\
    List.length out = List.length inp /\
    List.length ctr' = List.length ctr.
Proof.
  induction fuel as [| fuel IH]; intros k mac ctr inp out mac' ctr' Hlen Henc.
  - destruct inp; [| cbn in Hlen; lia]. cbn in Henc.
    injection Henc as <- <- <-. auto.
  - destruct inp as [| b inp'].
    + cbn in Henc. injection Henc as <- <- <-. auto.
    + remember (b :: inp') as inp eqn:Hinp.
      assert (Hne : inp <> []) by (subst inp; discriminate).
      assert (Hpos : (1 <= List.length inp)%nat) by (subst inp; cbn; lia).
      clear Hinp b inp'.
      rewrite (encrypt_blocks_step fuel k mac ctr inp Hne) in Henc.
      cbv zeta in Henc.
      destruct (encrypt_blocks E fuel k (block E k (xor_into mac (firstn 16 inp)))
                  (if (List.length (firstn 16 inp) =? 16)%nat then ctr64_inc ctr else ctr)
                  (skipn 16 inp)) as [[out1 mac1] ctr1] eqn:Hrec.
      apply pair_equal_spec in Henc as [Henc H3].
      apply pair_equal_spec in Henc as [H1 H2]. subst out mac' ctr'.
      assert (Hskip : (List.length (skipn 16 inp) <= fuel)%nat).
      { rewrite length_skipn. lia. }
      destruct (IH _ _ _ _ _ _ _ Hskip Hrec) as (Hdec & Hlo & Hlc).
      set (x := xor_into (firstn 16 inp) (block E k ctr)) in *.
      assert (Hx : List.length x = List.length (firstn 16 inp))
        by apply xor_into_length.
      assert (Hout : skipn 16 inp = [] -> out1 = []).
      { intros Hnil. rewrite Hnil, encrypt_blocks_nil in Hrec. congruence. }
      destruct (rechunk inp x out1 Hx Hout) as [Hf Hs].
      assert (Hxne : x ++ out1 <> []).
      { destruct x; [| discriminate].
        rewrite length_firstn in Hx. cbn [List.length] in Hx. lia. }
      rewrite (decrypt_blocks_step fuel k mac ctr (x ++ out1) Hxne).
      cbv zeta. rewrite Hf, Hs, Hx.
      subst x. rewrite xor_into_involutive, Hdec.
      rewrite firstn_skipn. repeat split.
      * rewrite length_app, Hlo, xor_into_length, <- length_app, firstn_skipn.
        reflexivity.
      * rewrite Hlc. destruct (List.length (firstn 16 inp) =? 16)%nat; auto.
        unfold ctr64_inc. apply store_length.
Qed.

Lemma encrypt_blocks_mac_length (fuel : nat) :
  forall k mac ctr inp out mac' ctr',
    List.length mac = 16%nat ->
    encrypt_blocks E fuel k mac ctr inp = (out, mac', ctr') ->
    List.length mac' = 16%nat.
Proof.
  induction fuel as [| fuel IH]; intros k mac ctr inp out mac' ctr' Hm Henc.
  - cbn in Henc. destruct inp; injection Henc as <- <- <-; auto.
  - destruct inp as [| b inp'].
    + cbn in Henc. injection Henc as <- <- <-. auto.
    + rewrite encrypt_blocks_step in Henc by discriminate. cbv zeta in Henc.
      destruct (encrypt_blocks E fuel k
                  (block E k (xor_into mac (firstn 16 (b :: inp'))))
                  (if (List.length (firstn 16 (b :: inp')) =? 16)%nat
                   then ctr64_inc ctr else ctr)
                  (skipn 16 (b :: inp'))) as [[out1 mac1] ctr1] eqn:Hrec.
      apply pair_equal_spec in Henc as [Henc H3].
      apply pair_equal_spec in Henc as [H1 H2]. subst mac'.
      eapply IH; [| exact Hrec]. apply block_length.
Qed.

(** [CRYPTO_ccm128_decrypt] on what [CRYPTO_ccm128_encrypt] wrote, from the
    same state: the plaintext, and the very same final state (so the same
    MAC). *)
Lemma ccm128_decrypt_encrypt (ctx ctx' : CCM128_CONTEXT) (inp out : list byte) :
  CRYPTO_ccm128_encrypt E ctx inp = (0, ctx', out) ->
  CRYPTO_ccm128_decrypt E ctx out = (0, ctx', inp) /\
  List.length out = List.length inp.
Proof.
  unfold CRYPTO_ccm128_encrypt, CRYPTO_ccm128_decrypt, ccm128_crypt.
  destruct (if Z.land (flags_of (nonce ctx)) 64 =? 0
            then (block E (key ctx) (nonce ctx), blocks ctx + 1)
            else (cmac ctx, blocks ctx)) as [mac blks].
  set (lenpos := Z.to_nat (15 - Z.land (flags_of (nonce ctx)) 7)).
  set (n := BN_bin2bn (skipn lenpos (nonce ctx))).
  set (ctr := store (store (store (nonce ctx) lenpos (repeat x00 (16 - lenpos))) 0 _) 15 [x01]).
  destruct (negb (n =? Z.of_nat (List.length inp))) eqn:Hn; [discriminate |].
  destruct (2305843009213693952 <?
            blks + Z.lor (Z.shiftr (Z.of_nat (List.length inp) + 15) 3) 1) eqn:Hb;
    [discriminate |].
  destruct (encrypt_blocks E (List.length inp) (key ctx) mac ctr inp)
    as [[out1 mac1] ctr1] eqn:Henc.
  intros H. injection H as <- <-.
  destruct (decrypt_encrypt_blocks _ _ _ _ _ _ _ _ (le_n _) Henc) as (Hdec & Hlo & _).
  rewrite Hlo, Hn, Hb, Hdec. auto.
Qed.

End Ccm128.

End CCMFacts.

(** ** The EVP calls of [encrypt] and [decrypt], one by one *)

Module EVPFacts.
Import EVP EVPStates.

Section CipherContext.

Variable AES : list byte -> list byte -> list byte.

Lemma step_new : EVP_CIPHER_CTX_new = Some ctx_fresh.
Proof. reflexivity. Qed.

Lemma step_init (enc : bool) :
  EVP_CipherInit_ex enc ctx_fresh (Some EVP_aes_128_ccm) None None = (1, ctx_reset enc).
Proof. reflexivity. Qed.

Lemma step_ivlen (enc : bool) :
  EVP_CIPHER_CTX_ctrl (ctx_reset enc) EVP_CTRL_CCM_SET_IVLEN 12 None = (1, ctx_ivlen enc, []).
Proof. reflexivity. Qed.

Lemma step_tag_enc :
  EVP_CIPHER_CTX_ctrl (ctx_ivlen true) EVP_CTRL_CCM_SET_TAG 16 None =
  (1, ctx_params true false [], []).
Proof. reflexivity. Qed.

Lemma step_tag_dec (tg : list byte) :
  EVP_CIPHER_CTX_ctrl (ctx_ivlen false) EVP_CTRL_CCM_SET_TAG 16 (Some tg) =
  (1, ctx_params false true (buffer 16 tg), []).
Proof. reflexivity. Qed.

Lemma step_key (enc tagset : bool) (tg kh nn : list byte) :
  EVP_CipherInit_ex enc (ctx_params enc tagset tg) None (Some kh) (Some nn) =
  (1, ctx_keyed enc tagset tg (buffer 16 kh) (buffer 12 nn)).
Proof. reflexivity. Qed.

Lemma int_of_Z_small (n : Z) : 0 <= n <= INT_MAX -> int_of_Z n = n.
Proof. unfold int_of_Z, INT_MAX. intros. rewrite Z.mod_small; lia. Qed.

Lemma size_t_of_int (n : Z) : 0 <= n <= INT_MAX -> n mod 2 ^ 64 = n.
Proof. unfold INT_MAX. intros. apply Z.mod_small. lia. Qed.

Lemma fits_int (n : Z) : 0 <= n <= INT_MAX -> (INT_MAX <? n) = false.
Proof. intros. apply Z.ltb_ge. lia. Qed.

Lemma step_size (enc tagset : bool) (tg k ivb : list byte) (n : Z) :
  0 <= n <= INT_MAX ->
  EVP_CipherUpdate AES enc (ctx_keyed enc tagset tg k ivb) None None n =
  (1, n, None, ctx_sized enc tagset tg k ivb n).
Proof.
  intros Hn. unfold EVP_CipherUpdate, ctx_keyed. cbn [encrypt cipher].
  rewrite Bool.eqb_reflx, size_t_of_int by assumption. cbn [negb].
  unfold ccm_cipher_internal. cbn [key_set iv_set negb].
  unfold ccm_set_iv. cbn [ccm_ctx EVP.iv l].
  change (CCM.CRYPTO_ccm128_setiv (CCM.CRYPTO_ccm128_init 16 3 k) ivb (15 - 3) n)
    with (0, session k ivb n).
  cbn [Z.eqb]. rewrite fits_int by assumption. reflexivity.
Qed.

Lemma step_encrypt (tg k ivb : list byte) (n : Z) (dst src : list byte) :
  0 <= n <= INT_MAX ->
  EVP_CipherUpdate AES true (ctx_sized true false tg k ivb n) (Some dst) (Some src) n =
  let '(r, cc, w) :=
    CCM.CRYPTO_ccm128_encrypt AES (session k ivb n) (firstn (Z.to_nat n) src) in
  if r =? 0 then (1, n, Some (store dst 0 w), ctx_after true true true tg ivb cc)
  else (0, 0, Some dst, ctx_after true true false tg ivb cc).
Proof.
  intros Hn. unfold EVP_CipherUpdate, ctx_sized. cbn [encrypt cipher Bool.eqb negb].
  rewrite size_t_of_int by assumption.
  unfold ccm_cipher_internal. cbn [key_set iv_set len_set negb encrypt ccm_ctx].
  destruct (CCM.CRYPTO_ccm128_encrypt AES (session k ivb n) (firstn (Z.to_nat n) src))
    as [[r cc] w].
  destruct (r =? 0); [rewrite fits_int by assumption |]; reflexivity.
Qed.

Lemma step_decrypt (tg k ivb : list byte) (n : Z) (dst src : list byte) :
  0 <= n <= INT_MAX ->
  EVP_CipherUpdate AES false (ctx_sized false true tg k ivb n) (Some dst) (Some src) n =
  let '(r, cc, w) :=
    CCM.CRYPTO_ccm128_decrypt AES (session k ivb n) (firstn (Z.to_nat n) src) in
  let '(tl, tag) := CCM.CRYPTO_ccm128_tag cc 16 in
  if (r =? 0) && negb (tl =? 0) && (CRYPTO_memcmp tag tg 16 =? 0)
  then (1, n, Some (store dst 0 w), ctx_after false false false tg ivb cc)
  else (0, 0, Some (store dst 0 (repeat x00 (Z.to_nat n))), ctx_after false true true tg ivb cc).
Proof.
  intros Hn. unfold EVP_CipherUpdate, ctx_sized. cbn [encrypt cipher Bool.eqb negb].
  rewrite size_t_of_int by assumption.
  unfold ccm_cipher_internal.
  cbn [key_set iv_set len_set tag_set negb encrypt ccm_ctx m buf].
  destruct (CCM.CRYPTO_ccm128_decrypt AES (session k ivb n) (firstn (Z.to_nat n) src))
    as [[r cc] w].
  destruct (CCM.CRYPTO_ccm128_tag cc 16) as [tl tag].
  change (Z.to_nat 16) with 16%nat.
  destruct ((r =? 0) && negb (tl =? 0) && (CRYPTO_memcmp tag tg 16 =? 0));
    [rewrite fits_int by assumption |]; reflexivity.
Qed.

(** With a null output pointer the data is taken as associated data; for
    zero bytes of it nothing happens at all. *)
Lemma step_aad_empty (enc tagset : bool) (tg k ivb src : list byte) :
  EVP_CipherUpdate AES enc (ctx_sized enc tagset tg k ivb 0) None (Some src) 0 =
  (1, 0, None, ctx_sized enc tagset tg k ivb 0).
Proof.
  unfold EVP_CipherUpdate, ctx_sized. cbn [encrypt cipher].
  rewrite Bool.eqb_reflx. reflexivity.
Qed.

Lemma step_final (tagset : bool) (tg ivb out : list byte) (cc : CCM.CCM128_CONTEXT) :
  EVP_EncryptFinal_ex AES (ctx_after true true tagset tg ivb cc) (Some out) =
  (1, 0, ctx_after true true tagset tg ivb cc).
Proof. reflexivity. Qed.

Lemma step_final_null (tg k ivb : list byte) :
  EVP_EncryptFinal_ex AES (ctx_sized true false tg k ivb 0) None =
  (1, 0, mkCTX (Some EVP_aes_128_ccm) true true true false true 3 16 ivb tg
               (snd (CCM.CRYPTO_ccm128_setiv (session k ivb 0) ivb 12 0))).
Proof. reflexivity. Qed.

Lemma step_get_tag (tg ivb ptr : list byte) (cc : CCM.CCM128_CONTEXT) :
  EVP_CIPHER_CTX_ctrl (ctx_after true true true tg ivb cc) EVP_CTRL_CCM_GET_TAG 16 (Some ptr) =
  let '(r, tag) := CCM.CRYPTO_ccm128_tag cc 16 in
  if r <=? 0 then (0, ctx_after true true true tg ivb cc, [])
  else (1, ctx_after true false false tg ivb cc, tag).
Proof.
  unfold EVP_CIPHER_CTX_ctrl, ctx_after. cbn [cipher encrypt tag_set negb orb ccm_ctx].
  destruct (CCM.CRYPTO_ccm128_tag cc 16) as [r tag]. destruct (r <=? 0); reflexivity.
Qed.

Lemma step_get_tag_unset (enc ivset lenset : bool) (tg ivb ptr : list byte) (cc : CCM.CCM128_CONTEXT) :
  fst (fst (EVP_CIPHER_CTX_ctrl
              (mkCTX (Some EVP_aes_128_ccm) enc true ivset false lenset 3 16 ivb tg cc)
              EVP_CTRL_CCM_GET_TAG 16 (Some ptr))) = 0.
Proof.
  unfold EVP_CIPHER_CTX_ctrl. cbn [cipher encrypt tag_set negb orb].
  destruct enc; reflexivity.
Qed.

End CipherContext.

End EVPFacts.

(** ** The CCM state of one message: 12-byte nonce, 16-byte tag *)

Module SessionFacts.
Import CCM EVPStates EVPFacts.

Section Ccm128.

Variable AES : list byte -> list byte -> list byte.

Lemma list12 (l : list byte) :
  List.length l = 12%nat ->
  exists b0 b1 b2 b3 b4 b5 b6 b7 b8 b9 b10 b11,
    l = [b0; b1; b2; b3; b4; b5; b6; b7; b8; b9; b10; b11].
Proof.
  intros H. do 12 (destruct l as [| ? l]; [discriminate H |]).
  destruct l; [| discriminate H]. repeat eexists.
Qed.

(** The first block: flags [0x3a] (L = 3, M = 16, no associated data), the
    nonce, the message length on three bytes. *)
Lemma session_nonce (k ivb : list byte) (n : Z) :
  List.length ivb = 12%nat ->
  nonce (session k ivb n) = x3a :: ivb ++ be_bytes 3 n.
Proof.
  intros H. destruct (list12 ivb H) as (b0&b1&b2&b3&b4&b5&b6&b7&b8&b9&b10&b11&->).
  reflexivity.
Qed.

Lemma session_stored_length (ivb : list byte) (n : Z) :
  List.length ivb = 12%nat ->
  BN_bin2bn (skipn 13 (x3a :: ivb ++ be_bytes 3 n)) = n mod 2 ^ 24.
Proof.
  intros H. destruct (list12 ivb H) as (b0&b1&b2&b3&b4&b5&b6&b7&b8&b9&b10&b11&->).
  change (skipn 13 _) with (be_bytes 3 n). apply BN_bin2bn_be_bytes.
Qed.

Lemma block_budget (len : Z) :
  0 <= len < 2 ^ 24 ->
  (2305843009213693952 <? 0 + 1 + Z.lor (Z.shiftr (len + 15) 3) 1) = false.
Proof.
  intros H. apply Z.ltb_ge.
  pose proof (Z.add_lor_land (Z.shiftr (len + 15) 3) 1) as Hl.
  assert (0 <= Z.land (Z.shiftr (len + 15) 3) 1).
  { apply Z.land_nonneg. right. lia. }
  rewrite Z.shiftr_div_pow2 in * by lia.
  assert ((len + 15) / 2 ^ 3 <= len + 15).
  { apply Z.div_le_upper_bound; lia. }
  change (2 ^ 24) with 16777216 in H. lia.
Qed.

Lemma decrypt_blocks_lengths (fuel : nat) :
  forall k mac ctr inp out mac' ctr',
    List.length mac = 16%nat ->
    decrypt_blocks AES fuel k mac ctr inp = (out, mac', ctr') ->
    List.length mac' = 16%nat /\ List.length ctr' = List.length ctr.
Proof.
  induction fuel as [| fuel IH]; intros k mac ctr inp out mac' ctr' Hm Hdec.
  - cbn in Hdec. destruct inp; injection Hdec as <- <- <-; auto.
  - destruct inp as [| b inp'].
    + cbn in Hdec. injection Hdec as <- <- <-. auto.
    + rewrite CCMFacts.decrypt_blocks_step in Hdec by discriminate. cbv zeta in Hdec.
      destruct (decrypt_blocks AES fuel k
                  (block AES k (xor_into mac
                     (xor_into (firstn 16 (b :: inp')) (block AES k ctr))))
                  (if (List.length (firstn 16 (b :: inp')) =? 16)%nat
                   then ctr64_inc ctr else ctr)
                  (skipn 16 (b :: inp'))) as [[out1 mac1] ctr1] eqn:Hrec.
      apply pair_equal_spec in Hdec as [Hdec H3].
      apply pair_equal_spec in Hdec as [H1 H2]. subst mac' ctr'.
      destruct (IH _ _ _ _ _ _ _ (CCMFacts.block_length AES _ _) Hrec) as [Hl Hc].
      split; [exact Hl |]. rewrite Hc.
      destruct (List.length (firstn 16 (b :: inp')) =? 16)%nat; auto.
      unfold ctr64_inc. apply store_length.
Qed.

(** What [CRYPTO_ccm128_encrypt] / [CRYPTO_ccm128_decrypt] do on the state
    of a message announced with length [n]: [-1] unless the data has the
    length that the three length bytes hold, else success with a 16-byte MAC
    and the flags byte back in place. *)
Lemma ccm128_crypt_session (dec : bool) (k ivb : list byte) (n : Z) (inp : list byte) :
  List.length ivb = 12%nat ->
  (n mod 2 ^ 24 <> Z.of_nat (List.length inp) ->
   fst (fst (ccm128_crypt AES dec (session k ivb n) inp)) = -1) /\
  (n mod 2 ^ 24 = Z.of_nat (List.length inp) ->
   exists cc out,
     ccm128_crypt AES dec (session k ivb n) inp = (0, cc, out) /\
     CRYPTO_ccm128_tag cc 16 = (16, cmac cc) /\
     List.length (cmac cc) = 16%nat).
Proof.
  intros H. unfold ccm128_crypt.
  change (cmac (session k ivb n)) with (repeat x00 16).
  change (blocks (session k ivb n)) with 0.
  change (key (session k ivb n)) with k.
  rewrite (session_nonce k ivb n H).
  change (flags_of (x3a :: ivb ++ be_bytes 3 n)) with 58.
  change (Z.land 58 64 =? 0) with true. cbv iota.
  change (Z.to_nat (15 - Z.land 58 7)) with 13%nat.
  rewrite (session_stored_length ivb n H).
  set (ctr := store (store (store (x3a :: ivb ++ be_bytes 3 n) 13 _) 0 _) 15 _).
  set (mac := block AES k (x3a :: ivb ++ be_bytes 3 n)).
  split; intros Hn.
  - apply Z.eqb_neq in Hn. rewrite Hn. reflexivity.
  - rewrite Hn, Z.eqb_refl. cbn [negb].
    rewrite block_budget
      by (rewrite <- Hn; apply Z.mod_pos_bound; lia).
    assert (Hmac : List.length mac = 16%nat) by apply CCMFacts.block_length.
    assert (Hctr : List.length ctr = 16%nat).
    { subst ctr. rewrite !store_length. cbn [List.length].
      rewrite length_app, be_bytes_length. lia. }
    assert (Hloop : exists out mac1 ctr1,
               (if dec then decrypt_blocks AES (List.length inp) k mac ctr inp
                else encrypt_blocks AES (List.length inp) k mac ctr inp) =
               (out, mac1, ctr1) /\
               List.length mac1 = 16%nat /\ List.length ctr1 = 16%nat).
    { destruct dec.
      - destruct (decrypt_blocks AES (List.length inp) k mac ctr inp)
          as [[out mac1] ctr1] eqn:E.
        destruct (decrypt_blocks_lengths _ _ _ _ _ _ _ _ Hmac E) as [H1 H2].
        exists out, mac1, ctr1. repeat split; congruence.
      - destruct (encrypt_blocks AES (List.length inp) k mac ctr inp)
          as [[out mac1] ctr1] eqn:E.
        destruct (CCMFacts.decrypt_encrypt_blocks AES _ _ _ _ _ _ _ _ (le_n _) E)
          as (_ & _ & H2).
        pose proof (CCMFacts.encrypt_blocks_mac_length AES _ _ _ _ _ _ _ _ Hmac E).
        exists out, mac1, ctr1. repeat split; congruence. }
    destruct Hloop as (out & mac1 & ctr1 & -> & Hm1 & Hc1).
    eexists. exists out. split; [reflexivity |].
    cbn [cmac nonce]. split.
    + unfold CRYPTO_ccm128_tag. cbn [nonce cmac].
      unfold flags_of. rewrite store_head.
      * change (16 =? Z.land (Z.shiftr (Z_of_byte (byte_of_Z 58)) 3) 7 * 2 + 2) with true.
        cbv iota.
        change (Z.land (Z.shiftr (Z_of_byte (byte_of_Z 58)) 3) 7 * 2 + 2) with 16.
        change (Z.to_nat 16) with 16%nat.
        rewrite firstn_all2; [reflexivity |].
        rewrite xor_into_length. lia.
      * intros Hnil. apply (f_equal (@List.length byte)) in Hnil.
        rewrite store_length in Hnil. cbn in Hnil. lia.
    + rewrite xor_into_length. exact Hm1.
Qed.

End Ccm128.

End SessionFacts.

(** ** [encrypt] and [decrypt] *)

Module AEADFacts.
Import EVP CCM EVPStates EVPFacts SessionFacts AEADProps.

Section Methods.

Variable SHA256 : list byte -> list byte.
Variable AES : list byte -> list byte -> list byte.

Local Abbreviation encrypt := (Crypto.encrypt SHA256 AES).
Local Abbreviation decrypt := (Crypto.decrypt SHA256 AES).
Local Abbreviation aes_key := (AEADProps.aes_key SHA256).
Local Abbreviation expected_tag := (AEADProps.expected_tag SHA256 AES).

Lemma bytes_of_string_length (s : string) :
  List.length (bytes_of_string s) = String.length s.
Proof.
  unfold bytes_of_string, list_byte_of_string. rewrite length_map.
  induction s; cbn; auto.
Qed.

Lemma string_of_bytes_of_string (s : string) : string_of_bytes (bytes_of_string s) = s.
Proof. apply string_of_list_byte_of_string. Qed.

Lemma data_nonempty (v : list byte) : v <> [] -> data v = Some v.
Proof. destruct v; [congruence | reflexivity]. Qed.

Lemma vector_nonempty (n : nat) (w : list byte) : (0 < n)%nat -> store (vector n) 0 w <> [].
Proof.
  intros Hn Hnil. apply (f_equal (@List.length byte)) in Hnil.
  rewrite store_length in Hnil. unfold vector in Hnil. rewrite repeat_length in Hnil.
  cbn in Hnil. lia.
Qed.

Ltac run := cbv beta iota zeta; repeat (change (1 =? 0) with false; cbv beta iota).

(** [encrypt] on a non-empty message: all calls up to the cipher succeed and
    the outcome is that of [CRYPTO_ccm128_encrypt]. *)
Lemma encrypt_eval (r : list byte) (key msg : string) :
  msg <> EmptyString ->
  Z.of_nat (String.length msg) <= INT_MAX ->
  encrypt (Some r) key msg =
  let '(rc, cc, w) :=
    CRYPTO_ccm128_encrypt AES
      (session (aes_key key) (buffer 12 (buffer 12 r)) (Z.of_nat (String.length msg)))
      (bytes_of_string msg) in
  if rc =? 0 then
    let '(tl, tag) := CRYPTO_ccm128_tag cc 16 in
    if tl <=? 0 then Throw (runtime_error "Failed to get tag")
    else Ok (Codec.bytesToHex
               (buffer 12 (buffer 12 r) ++ store (vector (String.length msg)) 0 w
                ++ buffer 16 tag))
  else Throw (runtime_error "Failed to encrypt message").
Proof.
  intros Hne Hn.
  assert (Hn' : 0 <= Z.of_nat (String.length msg) <= INT_MAX) by lia.
  assert (Hpos : (0 < String.length msg)%nat) by (destruct msg; [congruence | cbn; lia]).
  unfold Crypto.encrypt, RAND_bytes, aes_key.
  cbv beta iota zeta. change (negb (1 =? 1)) with false. cbv beta iota.
  rewrite step_new. unfold EVP_EncryptInit_ex, EVP_EncryptUpdate.
  rewrite step_init. run.
  rewrite step_ivlen. run.
  rewrite step_tag_enc. run. change ((1 =? 0) || (1 =? 0)) with false. cbv beta iota.
  rewrite step_key. run.
  rewrite !int_of_Z_small by assumption.
  rewrite step_size by assumption. run.
  rewrite data_nonempty.
  2:{ unfold vector. destruct (String.length msg); [lia | discriminate]. }
  rewrite step_encrypt by assumption.
  rewrite Nat2Z.id, firstn_all2 by (rewrite bytes_of_string_length; lia).
  destruct (CRYPTO_ccm128_encrypt AES _ (bytes_of_string msg)) as [[rc cc] w].
  destruct (rc =? 0); run; [| reflexivity].
  rewrite data_nonempty by (apply vector_nonempty; assumption).
  rewrite step_final. run.
  rewrite step_get_tag.
  destruct (CRYPTO_ccm128_tag cc 16) as [tl tag].
  destruct (tl <=? 0); run; reflexivity.
Qed.

(** [encrypt] on the empty message: the vector has no storage, its
    [data()] is null, [EVP_EncryptUpdate] takes the call for associated data,
    no tag is ever computed and [EVP_CTRL_CCM_GET_TAG] fails. *)
Lemma encrypt_empty (r : list byte) (key : string) :
  encrypt (Some r) key EmptyString = Throw (runtime_error "Failed to get tag").
Proof.
  unfold Crypto.encrypt, RAND_bytes.
  cbv beta iota zeta. change (negb (1 =? 1)) with false. cbv beta iota.
  rewrite step_new. unfold EVP_EncryptInit_ex, EVP_EncryptUpdate.
  rewrite step_init. run.
  rewrite step_ivlen. run.
  rewrite step_tag_enc. run. change ((1 =? 0) || (1 =? 0)) with false. cbv beta iota.
  rewrite step_key. run.
  change (int_of_Z (Z.of_nat (String.length EmptyString))) with 0.
  rewrite step_size by (unfold INT_MAX; lia). run.
  change (data (vector (String.length EmptyString))) with (@None (list byte)).
  rewrite step_aad_empty. run.
  rewrite step_final_null. run.
  match goal with
  | |- context [EVP_CIPHER_CTX_ctrl ?c EVP_CTRL_CCM_GET_TAG 16 (Some ?p)] =>
      pose proof (step_get_tag_unset true true true [] (buffer 12 (buffer 12 r)) p
                    (snd (CRYPTO_ccm128_setiv
                            (session (buffer 16 (Crypto.EVP_Digest SHA256 (bytes_of_string key)))
                                     (buffer 12 (buffer 12 r)) 0)
                            (buffer 12 (buffer 12 r)) 12 0))) as Hret;
      destruct (EVP_CIPHER_CTX_ctrl c EVP_CTRL_CCM_GET_TAG 16 (Some p)) as [[ret c'] tag]
  end.
  cbn [fst] in Hret. subst ret. reflexivity.
Qed.

(** [encrypt] on a message of 2^24 bytes or more (that still fits an
    [int]): the three length bytes of CCM with a 12-byte nonce cannot hold
    the length and [CRYPTO_ccm128_encrypt] reports the mismatch. *)
Lemma encrypt_too_long (r : list byte) (key msg : string) :
  2 ^ 24 <= Z.of_nat (String.length msg) <= INT_MAX ->
  encrypt (Some r) key msg = Throw (runtime_error "Failed to encrypt message").
Proof.
  intros Hn.
  assert (Hne : msg <> EmptyString).
  { intros ->. cbn in Hn. lia. }
  rewrite encrypt_eval by (auto; lia).
  destruct (ccm128_crypt_session AES false (aes_key key) (buffer 12 (buffer 12 r))
              (Z.of_nat (String.length msg)) (bytes_of_string msg)
              (buffer_length _ _)) as [Hfail _].
  unfold CRYPTO_ccm128_encrypt.
  destruct (ccm128_crypt AES false _ (bytes_of_string msg)) as [[rc cc] w].
  cbn [fst] in Hfail. rewrite Hfail; [reflexivity |].
  rewrite bytes_of_string_length.
  pose proof (Z.mod_pos_bound (Z.of_nat (String.length msg)) (2 ^ 24) ltac:(lia)).
  lia.
Qed.

(** [encrypt] on a message of 1 to 2^24 - 1 bytes: the envelope. *)
Lemma encrypt_ok (r : list byte) (key msg : string) :
  1 <= Z.of_nat (String.length msg) < 2 ^ 24 ->
  exists cc ct,
    CRYPTO_ccm128_encrypt AES
      (session (aes_key key) (buffer 12 r) (Z.of_nat (String.length msg)))
      (bytes_of_string msg) = (0, cc, ct) /\
    List.length ct = String.length msg /\
    List.length (cmac cc) = 16%nat /\
    CRYPTO_ccm128_tag cc 16 = (16, cmac cc) /\
    encrypt (Some r) key msg = Ok (Codec.bytesToHex (buffer 12 r ++ ct ++ cmac cc)).
Proof.
  intros Hn.
  assert (Hne : msg <> EmptyString).
  { intros ->. cbn in Hn. lia. }
  assert (Hint : Z.of_nat (String.length msg) <= INT_MAX).
  { unfold INT_MAX. change (2 ^ 24) with 16777216 in Hn. lia. }
  rewrite encrypt_eval by assumption.
  rewrite (buffer_id 12 (buffer 12 r)) by apply buffer_length.
  destruct (ccm128_crypt_session AES false (aes_key key) (buffer 12 r)
              (Z.of_nat (String.length msg)) (bytes_of_string msg)
              (buffer_length _ _)) as [_ Hok].
  destruct Hok as (cc & ct & Hrun & Htag & Hmac).
  { rewrite bytes_of_string_length. apply Z.mod_small. lia. }
  unfold CRYPTO_ccm128_encrypt. rewrite Hrun.
  destruct (CCMFacts.ccm128_decrypt_encrypt AES _ _ _ _ Hrun) as [_ Hlen].
  rewrite bytes_of_string_length in Hlen.
  exists cc, ct. repeat split; auto.
  change (0 =? 0) with true. cbv iota. rewrite Htag.
  change (16 <=? 0) with false. cbv iota.
  rewrite store_all by (unfold vector; rewrite repeat_length; auto).
  rewrite (buffer_id 16) by assumption. reflexivity.
Qed.

(** [decrypt] on an envelope with at least one ciphertext byte: the outcome
    is that of [CRYPTO_ccm128_decrypt] and of the comparison of the tags. *)
Lemma decrypt_eval (key hex : string) (encrypted : list byte) :
  Codec.hexToBytes hex = Ok encrypted ->
  (28 < List.length encrypted)%nat ->
  Z.of_nat (List.length encrypted - 28) <= INT_MAX ->
  decrypt key hex =
  let clen := (List.length encrypted - 28)%nat in
  let '(rc, cc, w) :=
    CRYPTO_ccm128_decrypt AES
      (session (aes_key key) (buffer 12 encrypted) (Z.of_nat clen))
      (firstn clen (skipn 12 encrypted)) in
  let '(tl, tag) := CRYPTO_ccm128_tag cc 16 in
  if (rc =? 0) && negb (tl =? 0) &&
     (CRYPTO_memcmp tag (buffer 16 (skipn (List.length encrypted - 16) encrypted)) 16 =? 0)
  then Ok (string_of_bytes (firstn clen (store (vector clen) 0 w)))
  else Throw (runtime_error "Failed to decrypt message or tag verification failed").
Proof.
  intros Hhex Hlen Hint.
  assert (Hn : 0 <= Z.of_nat (List.length encrypted - 28) <= INT_MAX) by lia.
  unfold Crypto.decrypt, aes_key. rewrite Hhex. cbn [bind].
  replace (List.length encrypted <? 28)%nat with false
    by (symmetry; apply Nat.ltb_ge; lia).
  cbv beta iota zeta.
  rewrite step_new. unfold EVP_DecryptInit_ex, EVP_DecryptUpdate.
  rewrite step_init. run.
  rewrite step_ivlen. run.
  rewrite step_tag_dec. run. change ((1 =? 0) || (1 =? 0)) with false. cbv beta iota.
  rewrite step_key. run.
  rewrite !int_of_Z_small by assumption.
  rewrite step_size by assumption. run.
  rewrite data_nonempty.
  2:{ unfold vector. destruct (List.length encrypted - 28)%nat eqn:E; [lia | discriminate]. }
  rewrite step_decrypt by assumption.
  rewrite Nat2Z.id.
  destruct (CRYPTO_ccm128_decrypt AES _ _) as [[rc cc] w].
  destruct (CRYPTO_ccm128_tag cc 16) as [tl tag].
  destruct ((rc =? 0) && negb (tl =? 0) && (CRYPTO_memcmp tag _ 16 =? 0)); run.
  - rewrite Nat2Z.id. reflexivity.
  - reflexivity.
Qed.

(** [decrypt] on an envelope of exactly 28 bytes: the plaintext vector has
    no storage, [EVP_DecryptUpdate] takes the call for associated data and
    succeeds with length 0; the tag is never compared. *)
Lemma decrypt_28 (key hex : string) (encrypted : list byte) :
  Codec.hexToBytes hex = Ok encrypted ->
  List.length encrypted = 28%nat ->
  decrypt key hex = Ok EmptyString.
Proof.
  intros Hhex Hlen.
  unfold Crypto.decrypt. rewrite Hhex. cbn [bind]. rewrite Hlen.
  change (28 <? 28)%nat with false. cbv beta iota zeta.
  rewrite step_new. unfold EVP_DecryptInit_ex, EVP_DecryptUpdate.
  rewrite step_init. run.
  rewrite step_ivlen. run.
  rewrite step_tag_dec. run. change ((1 =? 0) || (1 =? 0)) with false. cbv beta iota.
  rewrite step_key. run.
  change (int_of_Z (Z.of_nat (28 - 28))) with 0.
  rewrite step_size by (unfold INT_MAX; lia). run.
  change (data (vector (28 - 28))) with (@None (list byte)).
  rewrite step_aad_empty. run. reflexivity.
Qed.

Lemma buffer_prefix (n : nat) (l rest : list byte) :
  List.length l = n -> buffer n (l ++ rest) = l.
Proof.
  intros <-. unfold buffer. rewrite <- app_assoc, firstn_app, Nat.sub_diag, firstn_all.
  cbn. apply app_nil_r.
Qed.

(** The pieces [decrypt] cuts out of [nonce ++ ciphertext ++ tag]. *)
Lemma envelope_split (nn ct tg : list byte) :
  List.length nn = 12%nat -> List.length tg = 16%nat ->
  let encrypted := nn ++ ct ++ tg in
  List.length encrypted = (List.length ct + 28)%nat /\
  buffer 12 encrypted = nn /\
  firstn (List.length encrypted - 28) (skipn 12 encrypted) = ct /\
  buffer 16 (skipn (List.length encrypted - 16) encrypted) = tg.
Proof.
  intros Hn Ht encrypted.
  assert (Hl : List.length encrypted = (List.length ct + 28)%nat).
  { subst encrypted. rewrite !length_app. lia. }
  assert (H12 : skipn 12 (nn ++ ct ++ tg) = ct ++ tg).
  { rewrite skipn_app, Hn, Nat.sub_diag. rewrite (skipn_all2 nn) by lia. reflexivity. }
  split; [exact Hl |]. split; [| split].
  - apply buffer_prefix, Hn.
  - rewrite Hl. subst encrypted. rewrite H12.
    replace (List.length ct + 28 - 28)%nat with (List.length ct) by lia.
    rewrite firstn_app, Nat.sub_diag, firstn_all. cbn. apply app_nil_r.
  - rewrite Hl. subst encrypted.
    replace (List.length ct + 28 - 16)%nat with (List.length ct + 12)%nat by lia.
    rewrite <- skipn_skipn, H12.
    rewrite skipn_app, Nat.sub_diag, skipn_all. cbn [skipn app].
    apply buffer_id, Ht.
Qed.



(** C6.  For every key-material string and every hex envelope that decodes
    to fewer than 28 bytes, [decrypt] fails with "Invalid encrypted data
    length"; this holds whatever the digest and the block cipher are, none
    of them is consulted. *)
Theorem decrypt_too_short (key hex : string) (encrypted : list byte) :
  Codec.hexToBytes hex = Ok encrypted ->
  (List.length encrypted < 28)%nat ->
  decrypt key hex = Throw (runtime_error "Invalid encrypted data length").
Proof.
  intros Hhex Hlen. unfold Crypto.decrypt. rewrite Hhex. cbn [bind].
  apply Nat.ltb_lt in Hlen. now rewrite Hlen.
Qed.

(** An envelope with at least one ciphertext byte whose tag is not the
    expected one is rejected, always with the same exception, whether the
    key or the envelope is at fault. *)
Lemma decrypt_rejects_bad_tag (key hex : string) (encrypted : list byte) :
  Codec.hexToBytes hex = Ok encrypted ->
  (28 < List.length encrypted)%nat ->
  Z.of_nat (List.length encrypted - 28) <= INT_MAX ->
  envelope_tag encrypted <> expected_tag key encrypted ->
  decrypt key hex =
  Throw (runtime_error "Failed to decrypt message or tag verification failed").
Proof.
  intros Hhex Hlen Hint Hbad.
  rewrite (decrypt_eval key hex encrypted Hhex Hlen Hint). cbv zeta.
  unfold expected_tag, envelope_tag in Hbad.
  set (clen := (List.length encrypted - 28)%nat) in *.
  assert (Htl : List.length (skipn (List.length encrypted - 16) encrypted) = 16%nat)
    by (rewrite length_skipn; lia).
  rewrite (buffer_id 16) by exact Htl.
  pose proof (ccm128_crypt_session AES true (aes_key key) (buffer 12 encrypted)
                (Z.of_nat clen) (firstn clen (skipn 12 encrypted))
                (buffer_length _ _)) as [Hfail Hok].
  unfold CRYPTO_ccm128_decrypt in *.
  destruct (Z.eq_dec (Z.of_nat clen mod 2 ^ 24)
              (Z.of_nat (List.length (firstn clen (skipn 12 encrypted))))) as [E | E].
  - destruct (Hok E) as (cc & w & Hrun & Htag & Hmac).
    rewrite Hrun in *. cbn [fst snd] in Hbad. rewrite Htag.
    destruct (CRYPTO_memcmp (cmac cc) _ 16 =? 0) eqn:Hcmp.
    + apply Z.eqb_eq in Hcmp. apply CRYPTO_memcmp_eq in Hcmp; auto. congruence.
    + now rewrite andb_false_r.
  - specialize (Hfail E).
    destruct (ccm128_crypt AES true _ _) as [[rc cc] w]. cbn [fst] in Hfail. subst rc.
    destruct (CRYPTO_ccm128_tag cc 16) as [tl tag]. reflexivity.
Qed.

End Methods.

(** *** The claims as stated, on concrete inputs *)








Lemma decrypt_too_short_witness :
  Crypto.decrypt SHA256.digest AES.encrypt_block "key" "00112233" =
  Throw (runtime_error "Invalid encrypted data length").
Proof.
  apply (decrypt_too_short SHA256.digest AES.encrypt_block "key" "00112233" [x00; x11; x22; x33]).
  - reflexivity.
  - cbn. lia.
Defined.

(** C5 at an envelope of exactly 28 bytes (nonce and tag, no ciphertext):
    the all-zero envelope is accepted under the key ["key"] and the empty
    plaintext is returned, although the tag it carries (16 zero bytes) is
    not the tag CCM assigns to the empty message under that key and nonce
    ([58ba4419a5d2d3738e2a705029dc182d]). *)
Theorem decrypt_accepts_unverified_tag :
  exists encrypted,
    Codec.hexToBytes "00000000000000000000000000000000000000000000000000000000"
      = Ok encrypted /\
    List.length encrypted = 28%nat /\
    envelope_tag encrypted = repeat x00 16 /\
    Codec.bytesToHex (expected_tag SHA256.digest AES.encrypt_block "key" encrypted)
      = "58ba4419a5d2d3738e2a705029dc182d"%string /\
    Crypto.decrypt SHA256.digest AES.encrypt_block "key"
      "00000000000000000000000000000000000000000000000000000000" = Ok ""%string.
Proof.
  exists (repeat x00 28). split; [reflexivity |]. split; [reflexivity |].
  split; [reflexivity |]. split; [vm_compute; reflexivity |].
  eapply decrypt_28; reflexivity.
Qed.

End AEADFacts.

(** ** DER: decoding inverts encoding *)

Module DERFacts.
Import DER DERProps.

Lemma num_bits_nonneg (v : Z) : 0 <= BN_num_bits v.
Proof.
  unfold BN_num_bits. destruct (v <=? 0); [lia |]. pose proof (Z.log2_nonneg v). lia.
Qed.

Lemma num_bits_upper (v : Z) : 0 <= v -> v < 2 ^ BN_num_bits v.
Proof.
  intros Hv. unfold BN_num_bits. destruct (Z.leb_spec v 0).
  - cbn. lia.
  - pose proof (Z.log2_spec v ltac:(lia)). 
    replace (Z.log2 v + 1) with (Z.succ (Z.log2 v)) by lia. lia.
Qed.

Lemma num_bits_lower (v : Z) : 0 < v -> 2 ^ (BN_num_bits v - 1) <= v.
Proof.
  intros Hv. unfold BN_num_bits. destruct (Z.leb_spec v 0); [lia |].
  pose proof (Z.log2_spec v ltac:(lia)).
  replace (Z.log2 v + 1 - 1) with (Z.log2 v) by lia. lia.
Qed.

Lemma num_bits_le (v : Z) (k : Z) : 0 <= k -> 0 <= v < 2 ^ k -> BN_num_bits v <= k.
Proof.
  intros Hk Hv. unfold BN_num_bits. destruct (Z.leb_spec v 0); [lia |].
  pose proof (Z.log2_lt_pow2 v k ltac:(lia)). lia.
Qed.

Lemma BN_bn2binpad_ok (v : Z) (len : nat) :
  0 <= v < 2 ^ (8 * Z.of_nat len) ->
  BN_bn2binpad v len = Some (be_bytes len v).
Proof.
  intros Hv. unfold BN_bn2binpad, BN_num_bytes.
  pose proof (num_bits_le v (8 * Z.of_nat len) ltac:(lia) Hv).
  pose proof (num_bits_nonneg v).
  replace ((BN_num_bits v + 7) / 8 <=? Z.of_nat len) with true; [reflexivity |].
  symmetry. apply Z.leb_le.
  assert ((BN_num_bits v + 7) / 8 < Z.of_nat len + 1)
    by (apply Z.div_lt_upper_bound; lia).
  lia.
Qed.

Lemma get_sub_packet_app (content rest : list byte) :
  get_sub_packet (content ++ rest) (List.length content) = Some (content, rest).
Proof.
  unfold get_sub_packet. rewrite length_app.
  replace (List.length content <=? List.length content + List.length rest)%nat with true
    by (symmetry; apply Nat.leb_le; lia).
  rewrite firstn_app, skipn_app, Nat.sub_diag, firstn_all, skipn_all. cbn.
  now rewrite app_nil_r.
Qed.

Lemma decode_short_length (content rest : list byte) :
  Z.of_nat (List.length content) < 128 ->
  decode_der_length (byte_of_Z (Z.of_nat (List.length content)) :: content ++ rest) =
  Some (content, rest).
Proof.
  intros Hl. unfold decode_der_length.
  rewrite Z_of_byte_of_Z, Z.mod_small by lia.
  replace (Z.of_nat (List.length content) <? 128) with true by (symmetry; apply Z.ltb_lt; lia).
  rewrite Nat2Z.id. apply get_sub_packet_app.
Qed.

Lemma encode_short_length (len : Z) :
  0 <= len < 128 -> encode_der_length len = Some [byte_of_Z len].
Proof.
  intros H. unfold encode_der_length.
  replace (65535 <? len) with false by (symmetry; apply Z.ltb_ge; lia).
  replace (255 <? len) with false by (symmetry; apply Z.ltb_ge; lia).
  replace (127 <? len) with false by (symmetry; apply Z.ltb_ge; lia).
  reflexivity.
Qed.

Lemma integer_content_length (v : Z) :
  0 <= v < 2 ^ 256 ->
  1 <= Z.of_nat (List.length (integer_content v)) <= 33.
Proof.
  intros Hv. unfold integer_content. rewrite be_bytes_length.
  pose proof (num_bits_nonneg v). pose proof (num_bits_le v 256 ltac:(lia) Hv).
  assert (0 <= BN_num_bits v / 8 <= 32).
  { split; [apply Z.div_pos; lia | apply Z.div_le_upper_bound; lia]. }
  lia.
Qed.

Lemma encode_integer (v : Z) :
  0 <= v < 2 ^ 256 ->
  encode_der_integer v =
  Some (ID_INTEGER :: byte_of_Z (Z.of_nat (List.length (integer_content v)))
          :: integer_content v).
Proof.
  intros Hv. unfold encode_der_integer.
  replace (v <? 0) with false by (symmetry; apply Z.ltb_ge; lia).
  pose proof (integer_content_length v Hv) as Hl.
  unfold integer_content in *. rewrite be_bytes_length in Hl.
  rewrite be_bytes_length.
  pose proof (num_bits_nonneg v).
  assert (0 <= BN_num_bits v / 8) by (apply Z.div_pos; lia).
  rewrite Z2Nat.id in * by lia.
  rewrite encode_short_length by lia.
  rewrite BN_bn2binpad_ok; [reflexivity |].
  rewrite Z2Nat.id by lia. split; [lia |].
  eapply Z.lt_le_trans; [apply num_bits_upper; lia |].
  apply Z.pow_le_mono_r; [lia |].
  pose proof (Z.div_mod (BN_num_bits v) 8 ltac:(lia)).
  pose proof (Z.mod_pos_bound (BN_num_bits v) 8 ltac:(lia)). lia.
Qed.

Lemma integer_content_value (v : Z) : 0 <= v -> BN_bin2bn (integer_content v) = v.
Proof.
  intros Hv. unfold integer_content. rewrite BN_bin2bn_be_bytes.
  pose proof (num_bits_nonneg v).
  assert (0 <= BN_num_bits v / 8) by (apply Z.div_pos; lia).
  rewrite Z2Nat.id by lia. apply Z.mod_small. split; [lia |].
  eapply Z.lt_le_trans; [apply num_bits_upper; lia |].
  apply Z.pow_le_mono_r; [lia |].
  pose proof (Z.div_mod (BN_num_bits v) 8 ltac:(lia)).
  pose proof (Z.mod_pos_bound (BN_num_bits v) 8 ltac:(lia)). lia.
Qed.

(** The first content byte has its first bit clear, and a leading zero byte
    is followed by a byte with the first bit set. *)
Lemma integer_content_shape (v : Z) :
  0 <= v ->
  exists b0 more,
    integer_content v = b0 :: more /\
    Z_of_byte b0 < 128 /\
    (forall b1 rest, more = b1 :: rest -> Z_of_byte b0 = 0 -> 128 <= Z_of_byte b1).
Proof.
  intros Hv. unfold integer_content.
  pose proof (num_bits_nonneg v) as Hb.
  set (c := BN_num_bits v / 8).
  assert (Hc : 0 <= c) by (apply Z.div_pos; lia).
  pose proof (Z.div_mod (BN_num_bits v) 8 ltac:(lia)) as Hdm.
  pose proof (Z.mod_pos_bound (BN_num_bits v) 8 ltac:(lia)) as Hm.
  fold c in Hdm.
  replace (Z.to_nat (c + 1)) with (S (Z.to_nat c)) by lia.
  cbn [be_bytes]. eexists. eexists. split; [reflexivity |].
  rewrite Z_of_byte_of_Z, Z2Nat.id, Z.shiftr_div_pow2 by lia.
  assert (Hp : 0 < 2 ^ (8 * c)) by (apply Z.pow_pos_nonneg; lia).
  assert (Hq : v / 2 ^ (8 * c) < 128).
  { apply Z.div_lt_upper_bound; [lia |].
    eapply Z.lt_le_trans; [apply num_bits_upper; lia |].
    change 128 with (2 ^ 7). rewrite <- Z.pow_add_r by lia.
    apply Z.pow_le_mono_r; lia. }
  assert (Hq0 : 0 <= v / 2 ^ (8 * c)) by (apply Z.div_pos; lia).
  rewrite Z.mod_small by lia.
  split; [exact Hq |].
  intros b1 rest Hmore Hzero.
  destruct (Z.to_nat c) as [| c'] eqn:Ec; [discriminate Hmore |].
  cbn [be_bytes] in Hmore.
  assert (Hb1 : b1 = byte_of_Z (Z.shiftr v (8 * Z.of_nat c'))) by congruence.
  subst b1. clear Hmore.
  rewrite Z_of_byte_of_Z, Z.shiftr_div_pow2 by lia.
  assert (Hc' : Z.of_nat c' = c - 1) by lia. rewrite Hc'.
  assert (Hvlt : v < 2 ^ (8 * c)).
  { apply Z.div_small_iff in Hzero; lia. }
  assert (Hpos : 0 < v).
  { destruct (Z.eq_dec v 0) as [-> |]; [| lia]. cbn in c. subst c. cbn in Ec. lia. }
  pose proof (num_bits_lower v Hpos) as Hlow.
  assert (Hge : 2 ^ (8 * c - 1) <= v).
  { eapply Z.le_trans; [| exact Hlow]. apply Z.pow_le_mono_r; lia. }
  assert (Hp' : 0 < 2 ^ (8 * (c - 1))) by (apply Z.pow_pos_nonneg; lia).
  assert (H1 : 128 <= v / 2 ^ (8 * (c - 1))).
  { apply Z.div_le_lower_bound; [lia |].
    change 128 with (2 ^ 7). rewrite <- Z.pow_add_r by lia.
    replace (8 * (c - 1) + 7) with (8 * c - 1) by lia. exact Hge. }
  assert (H2 : v / 2 ^ (8 * (c - 1)) < 256).
  { apply Z.div_lt_upper_bound; [lia |].
    change 256 with (2 ^ 8). rewrite <- Z.pow_add_r by lia.
    replace (8 * (c - 1) + 8) with (8 * c) by lia. exact Hvlt. }
  rewrite Z.mod_small; lia.
Qed.

Lemma decode_integer (v : Z) (rest : list byte) :
  0 <= v < 2 ^ 256 ->
  decode_der_integer
    (ID_INTEGER :: byte_of_Z (Z.of_nat (List.length (integer_content v)))
       :: integer_content v ++ rest) = Some (v, rest).
Proof.
  intros Hv. unfold decode_der_integer.
  change (negb (Byte.eqb ID_INTEGER ID_INTEGER)) with false. cbv iota.
  pose proof (integer_content_length v Hv) as Hl.
  rewrite decode_short_length by lia.
  destruct (integer_content_shape v ltac:(lia)) as (b0 & more & Hc & Hb0 & Hpad).
  pose proof (integer_content_value v ltac:(lia)) as Hval.
  rewrite Hc in *.
  replace (128 <=? Z_of_byte b0) with false by (symmetry; apply Z.leb_gt; lia).
  destruct more as [| b1 more']; [now rewrite Hval |].
  destruct (Z_of_byte b0 =? 0) eqn:E0.
  - apply Z.eqb_eq in E0. specialize (Hpad b1 more' eq_refl E0).
    replace (Z_of_byte b1 <? 128) with false by (symmetry; apply Z.ltb_ge; lia).
    cbn [andb]. now rewrite Hval.
  - cbn [andb]. now rewrite Hval.
Qed.

(** [d2i_ECDSA_SIG] undoes [i2d_ECDSA_SIG] on numbers below 2^256. *)
Lemma d2i_i2d (r s : Z) :
  0 <= r < 2 ^ 256 -> 0 <= s < 2 ^ 256 ->
  exists der,
    i2d_ECDSA_SIG (r, s) = (Some der, Z.of_nat (List.length der)) /\
    d2i_ECDSA_SIG der = Some (r, s).
Proof.
  intros Hr Hs. unfold i2d_ECDSA_SIG, d2i_ECDSA_SIG, encode_der_dsa_sig. cbn [fst snd].
  rewrite (encode_integer r Hr), (encode_integer s Hs).
  pose proof (integer_content_length r Hr) as Hlr.
  pose proof (integer_content_length s Hs) as Hls.
  set (er := ID_INTEGER :: byte_of_Z _ :: integer_content r).
  set (es := ID_INTEGER :: byte_of_Z _ :: integer_content s).
  assert (Hlen : 0 <= Z.of_nat (List.length (er ++ es)) < 128).
  { subst er es. rewrite length_app. cbn [List.length]. lia. }
  rewrite encode_short_length by exact Hlen.
  eexists. split; [reflexivity |].
  unfold decode_der_dsa_sig. cbn [app].
  change (negb (Byte.eqb ID_SEQUENCE ID_SEQUENCE)) with false. cbv iota.
  pose proof (decode_short_length (er ++ es) [] ltac:(lia)) as Hseq.
  rewrite app_nil_r in Hseq. rewrite Hseq.
  subst er es. cbn [app].
  rewrite (decode_integer r _ Hr).
  pose proof (decode_integer s [] Hs) as Hds. rewrite app_nil_r in Hds.
  rewrite Hds. reflexivity.
Qed.

End DERFacts.

(** ** The group of the curve *)

Module ECFacts.
Import EC ECLaws.

Section Laws.

Variable g : EC_GROUP.
Hypothesis laws : group_laws g.

Local Abbreviation add := (EC_POINT_add g).
Local Abbreviation valid := (valid_point g).
Local Abbreviation mul := (scalar_mul g).
Local Abbreviation G := (EC_GROUP_get0_generator g).

Lemma add_inf_r (P : EC_POINT) : add P None = P.
Proof. destruct P as [[x y] |]; reflexivity. Qed.

Lemma iter_valid (k : positive) :
  forall P, valid P = true -> valid (Pos.iter_op add k P) = true.
Proof.
  induction k as [k IH | k IH |]; intros P HP; cbn [Pos.iter_op]; auto.
  - apply (add_closed g laws); auto. apply IH. apply (add_closed g laws); auto.
  - apply IH. apply (add_closed g laws); auto.
Qed.

Lemma iter_succ (k : positive) :
  forall P, valid P = true ->
  Pos.iter_op add (Pos.succ k) P = add P (Pos.iter_op add k P).
Proof.
  induction k as [k IH | k IH |]; intros P HP; cbn [Pos.iter_op Pos.succ]; auto.
  rewrite IH by (apply (add_closed g laws); auto).
  symmetry. apply (add_assoc g laws); auto.
  apply iter_valid. apply (add_closed g laws); auto.
Qed.

Lemma iter_add (j k : positive) (P : EC_POINT) :
  valid P = true ->
  Pos.iter_op add (j + k) P = add (Pos.iter_op add j P) (Pos.iter_op add k P).
Proof.
  intros HP. induction j as [| j IH] using Pos.peano_ind.
  - rewrite Pos.add_1_l. apply iter_succ, HP.
  - rewrite Pos.add_succ_l, !iter_succ, IH by assumption.
    apply (add_assoc g laws); auto using iter_valid.
Qed.

Lemma iter_mul (j k : positive) (P : EC_POINT) :
  valid P = true ->
  Pos.iter_op add (j * k) P = Pos.iter_op add j (Pos.iter_op add k P).
Proof.
  intros HP. induction j as [| j IH] using Pos.peano_ind.
  - rewrite Pos.mul_1_l. reflexivity.
  - rewrite Pos.mul_succ_l, iter_add, IH by assumption.
    rewrite iter_succ by (apply iter_valid, HP). reflexivity.
Qed.

Lemma iter_inf (k : positive) : Pos.iter_op add k None = None.
Proof. induction k as [k IH | k IH |]; cbn [Pos.iter_op]; auto. Qed.

Lemma mul_valid (k : Z) (P : EC_POINT) : valid P = true -> valid (mul k P) = true.
Proof. destruct k; cbn [scalar_mul]; auto using iter_valid. Qed.

Lemma mul_inf (k : Z) : mul k None = None.
Proof. destruct k; cbn [scalar_mul]; auto using iter_inf. Qed.

Lemma mul_add (j k : Z) (P : EC_POINT) :
  0 <= j -> 0 <= k -> valid P = true ->
  mul (j + k) P = add (mul j P) (mul k P).
Proof.
  intros Hj Hk HP. destruct j as [| j | j]; [| | lia]; destruct k as [| k | k]; try lia.
  - reflexivity.
  - reflexivity.
  - cbn [Z.add scalar_mul]. now rewrite add_inf_r.
  - cbn [Z.add scalar_mul]. apply iter_add, HP.
Qed.

Lemma mul_mul (j k : Z) (P : EC_POINT) :
  0 <= j -> 0 <= k -> valid P = true ->
  mul j (mul k P) = mul (j * k) P.
Proof.
  intros Hj Hk HP. destruct j as [| j | j]; [| | lia]; destruct k as [| k | k]; try lia.
  - reflexivity.
  - reflexivity.
  - cbn [Z.mul scalar_mul]. apply iter_inf.
  - cbn [Z.mul scalar_mul]. symmetry. apply iter_mul, HP.
Qed.

Lemma order_pos : 1 < order g.
Proof. pose proof (Z.prime_ge_2 _ (order_prime g laws)). lia. Qed.

(** The multiples of the generator depend on the scalar modulo the order. *)
Lemma mul_mod_order (k : Z) : 0 <= k -> mul k G = mul (k mod order g) G.
Proof.
  intros Hk. pose proof order_pos as Hn.
  rewrite (Z.div_mod k (order g)) at 1 by lia.
  rewrite mul_add; try (apply (generator_valid g laws)).
  - rewrite (Z.mul_comm (order g)), <- mul_mul; try (apply (generator_valid g laws)); try lia.
    + now rewrite (generator_order g laws), mul_inf.
    + apply Z.div_pos; lia.
  - apply Z.mul_nonneg_nonneg; [lia |]. apply Z.div_pos; lia.
  - apply Z.mod_pos_bound. lia.
Qed.

(** A multiple [k * G] with [k] not a multiple of the order is a finite
    point. *)
Lemma mul_nonzero (k : Z) :
  0 <= k -> k mod order g <> 0 -> mul k G <> None.
Proof.
  intros Hk Hnz Hinf. pose proof order_pos as Hn.
  pose proof (Z.invmod_prime k (order g) (order_prime g laws) Hnz) as Hinv.
  assert (Hu : 0 <= Z.invmod k (order g)).
  { unfold Z.invmod. apply Z.mod_pos_bound. lia. }
  assert (H1 : mul 1 G = None).
  { rewrite <- Hinv, <- mul_mod_order by (apply Z.mul_nonneg_nonneg; lia).
    rewrite <- mul_mul by (auto; apply (generator_valid g laws)).
    now rewrite Hinf, mul_inf. }
  discriminate H1.
Qed.

Lemma inverse_mod_order_correct (x : Z) :
  x mod order g <> 0 -> (inverse_mod_order g x * x) mod order g = 1.
Proof.
  intros Hx. pose proof order_pos as Hn. unfold inverse_mod_order, EC.n.
  rewrite Zpow_mod_correct by lia.
  rewrite Z.mul_mod_idemp_l by lia.
  rewrite <- (Z.fermat_nz _ x (order_prime g laws) Hx).
  f_equal. replace (order g - 1) with (Z.succ (order g - 2)) by lia.
  rewrite Z.pow_succ_r by lia. ring.
Qed.

End Laws.

End ECFacts.

(** ** The laws on the small curve, by enumeration *)

Module SmallCurve.
Import EC ECLaws ECFacts.

(** The enumeration misses no valid point. *)
Lemma residues_complete (m x : Z) : 0 <= x < m -> In x (residues m).
Proof.
  intros H. unfold residues. apply in_map_iff. exists (Z.to_nat x). split; [lia |].
  apply in_seq. lia.
Qed.

Lemma points_complete (g : EC_GROUP) (P : EC_POINT) :
  valid_point g P = true -> In P (points g).
Proof.
  intros H. destruct P as [[x y] |]; [right | now left].
  apply filter_In. split; [| exact H].
  apply in_map, in_prod; apply residues_complete; cbn in H; lia.
Qed.

Lemma eqb_point_eq (P Q : EC_POINT) : eqb_point P Q = true -> P = Q.
Proof.
  destruct P as [[x y] |], Q as [[x' y'] |]; cbn; try congruence.
  intros H. apply andb_prop in H. destruct H as [H1 H2].
  apply Z.eqb_eq in H1, H2. congruence.
Qed.

Lemma prime_31 : Z.prime 31.
Proof.
  split; [lia |]. intros k Hk.
  assert (H : In k (List.map Z.of_nat (seq 2 29))).
  { apply in_map_iff. exists (Z.to_nat k). split; [lia | apply in_seq; lia]. }
  clear Hk. revert k H. apply Forall_forall.
  repeat (constructor; [intros [q Hq]; lia |]). constructor.
Qed.

(** All 31 points of the small curve, in pairs and in triples. *)
Lemma curve23_closed : closed_on curve23 (points curve23) = true.
Proof. vm_compute. reflexivity. Qed.

Lemma curve23_assoc : assoc_on curve23 (points curve23) = true.
Proof. vm_compute. reflexivity. Qed.

Lemma closed_on_points (g : EC_GROUP) :
  closed_on g (points g) = true ->
  forall P Q, valid_point g P = true -> valid_point g Q = true ->
              valid_point g (EC_POINT_add g P Q) = true.
Proof.
  intros H P Q HP HQ. unfold closed_on in H. rewrite forallb_forall in H.
  specialize (H P (points_complete _ _ HP)). rewrite forallb_forall in H.
  exact (H Q (points_complete _ _ HQ)).
Qed.

Lemma assoc_on_points (g : EC_GROUP) :
  assoc_on g (points g) = true ->
  forall P Q R, valid_point g P = true -> valid_point g Q = true -> valid_point g R = true ->
    EC_POINT_add g P (EC_POINT_add g Q R) = EC_POINT_add g (EC_POINT_add g P Q) R.
Proof.
  intros H P Q R HP HQ HR. unfold assoc_on in H. rewrite forallb_forall in H.
  specialize (H P (points_complete _ _ HP)). rewrite forallb_forall in H.
  specialize (H Q (points_complete _ _ HQ)). rewrite forallb_forall in H.
  exact (eqb_point_eq _ _ (H R (points_complete _ _ HR))).
Qed.

Lemma curve23_generator_order : scalar_mul curve23 31 (Some (0, 10)) = None.
Proof. vm_compute. reflexivity. Qed.

Lemma curve23_laws : group_laws curve23.
Proof.
  constructor.
  - exact prime_31.
  - exact (closed_on_points _ curve23_closed).
  - exact (assoc_on_points _ curve23_assoc).
  - reflexivity.
  - exact curve23_generator_order.
  - change (1 < 23 < 2 ^ 256). lia.
  - change (31 < 2 ^ 256). lia.
Qed.

End SmallCurve.

(** ** ECDSA and ECDH: [sign], [verify], [derivePublicKey], [getSharedKey] *)

Module ECDSAFacts.
Import EC ECLaws ECFacts DERFacts.

(** The arithmetic of ECDSA modulo the order [n]: with [s = k^-1 (e + r d)]
    and [w = s^-1], the scalars of verification recombine to the nonce,
    [e w + r w d = k]. *)
Lemma ecdsa_scalars (n e d k r kinv w s : Z) :
  1 < n -> 0 <= k < n ->
  (kinv * k) mod n = 1 ->
  s = (kinv * (e + r * d)) mod n ->
  (w * s) mod n = 1 ->
  ((e * w) mod n + (r * w) mod n * d) mod n = k.
Proof.
  intros Hn Hk H1 Hs H2.
  pose proof (Z.div_mod (kinv * k) n ltac:(lia)) as E1. rewrite H1 in E1.
  pose proof (Z.div_mod (kinv * (e + r * d)) n ltac:(lia)) as E3. rewrite <- Hs in E3.
  pose proof (Z.div_mod (w * s) n ltac:(lia)) as E2. rewrite H2 in E2.
  pose proof (Z.div_mod (e * w) n ltac:(lia)) as E4.
  pose proof (Z.div_mod (r * w) n ltac:(lia)) as E5.
  set (q1 := kinv * k / n) in *. set (q3 := kinv * (e + r * d) / n) in *.
  set (q2 := w * s / n) in *. set (q4 := e * w / n) in *. set (q5 := r * w / n) in *.
  set (m4 := (e * w) mod n) in *. set (m5 := (r * w) mod n) in *.
  assert (E : m4 + m5 * d =
              k + (k * q2 + k * w * q3 - q1 * w * (e + r * d) - q4 - q5 * d) * n)
    by nsatz.
  rewrite E, Z_mod_plus_full. apply Z.mod_small. lia.
Qed.

Section Laws.

Variable g : EC_GROUP.
Hypothesis laws : group_laws g.

Local Abbreviation G := (EC_GROUP_get0_generator g).
Local Abbreviation point_octets := (ECLaws.point_octets g).

Lemma mod_order_small (k : Z) : 0 < k < order g -> k mod order g <> 0.
Proof. intros H. rewrite Z.mod_small; lia. Qed.

(** A valid nonce never makes signing fail: [k * G] is a finite point. *)
Lemma nonce_point (k : Z) :
  0 < k < order g ->
  exists x y, scalar_mul g k G = Some (x, y) /\ valid_point g (Some (x, y)) = true.
Proof.
  intros Hk.
  pose proof (mul_valid g laws k G (generator_valid g laws)) as Hv.
  destruct (scalar_mul g k G) as [[x y] |] eqn:E.
  - exists x, y. auto.
  - exfalso. apply (mul_nonzero g laws k); auto using mod_order_small. lia.
Qed.

(** ECDSA: what one round of signing accepts, verification accepts, under
    the public key [d * G]. *)
Lemma sign_with_nonce_verifies (dgst : list byte) (d k r s : Z) (key0 : option Z) :
  0 <= d -> 0 <= k < order g ->
  sign_with_nonce g (digest_to_bn g dgst) d k = Some (Some (r, s)) ->
  ECDSA_do_verify g dgst (Some (r, s)) (mkKEY key0 (Some (scalar_mul g d G))) = 1.
Proof.
  intros Hd Hk Hsign. pose proof (order_pos g laws) as Hn.
  unfold sign_with_nonce in Hsign.
  destruct (Z.eqb_spec k 0) as [| Hk0]; [discriminate |].
  assert (Hk' : 0 < k < order g) by lia.
  destruct (nonce_point k Hk') as (x & y & HR & _).
  unfold EC_POINT_mul in Hsign. cbn [snd] in Hsign.
  rewrite add_inf_r, HR in Hsign. cbn [EC_POINT_get_affine_coordinates] in Hsign.
  fold (EC.n g) in *. unfold EC.n in *.
  set (e := digest_to_bn g dgst) in *.
  destruct (Z.eqb_spec (x mod order g) 0) as [| Hr0]; [discriminate |].
  destruct (Z.eqb_spec ((inverse_mod_order g k * (e + x mod order g * d)) mod order g) 0)
    as [| Hs0]; [discriminate |].
  injection Hsign as Hr Hs.
  pose proof (Z.mod_pos_bound x (order g) ltac:(lia)) as Hrb. rewrite Hr in *.
  pose proof (Z.mod_pos_bound (inverse_mod_order g k * (e + r * d)) (order g) ltac:(lia)) as Hsb.
  rewrite Hs in *.
  unfold ECDSA_do_verify. cbn [pub_key]. fold e. unfold EC.n.
  replace ((r <=? 0) || (order g <=? r) || (s <=? 0) || (order g <=? s)) with false.
  2:{ symmetry. rewrite !orb_false_iff. repeat split;
        first [apply Z.leb_gt; lia]. }
  unfold EC_POINT_mul. cbn [snd].
  set (w := inverse_mod_order g s).
  set (u1 := (e * w) mod order g). set (u2 := (r * w) mod order g).
  assert (Hu1 : 0 <= u1) by (apply Z.mod_pos_bound; lia).
  assert (Hu2 : 0 <= u2) by (apply Z.mod_pos_bound; lia).
  pose proof (generator_valid g laws) as HG.
  rewrite (mul_mul g laws) by assumption.
  rewrite <- (mul_add g laws) by (auto; apply Z.mul_nonneg_nonneg; lia).
  rewrite (mul_mod_order g laws)
    by (apply Z.add_nonneg_nonneg; [lia | apply Z.mul_nonneg_nonneg; lia]).
  assert (Hscal : (u1 + u2 * d) mod order g = k).
  { subst u1 u2. apply (ecdsa_scalars (order g) e d k r (inverse_mod_order g k) w s);
      auto; try lia.
    - apply (inverse_mod_order_correct g laws). apply mod_order_small. lia.
    - subst w. apply (inverse_mod_order_correct g laws). apply mod_order_small. lia. }
  rewrite Hscal, HR. cbn [EC_POINT_get_affine_coordinates].
  rewrite Hr, Z.eqb_refl. reflexivity.
Qed.

(** A round never ends signing with an error. *)
Lemma sign_with_nonce_no_error (m d k : Z) :
  0 <= k < order g -> sign_with_nonce g m d k <> Some None.
Proof.
  intros Hk. unfold sign_with_nonce.
  destruct (Z.eqb_spec k 0) as [| Hk0]; [discriminate |].
  destruct (nonce_point k ltac:(lia)) as (x & y & HR & _).
  unfold EC_POINT_mul. cbn [snd]. rewrite add_inf_r, HR.
  cbn [EC_POINT_get_affine_coordinates].
  destruct (x mod EC.n g =? 0); [discriminate |].
  destruct (_ =? 0); discriminate.
Qed.

(** The signing loop: a signature comes from the first accepted nonce and
    verifies; no signature means every nonce was turned down.  Signature
    components are below the order. *)
Lemma sign_loop_verifies (dgst : list byte) (d : Z) (key0 : option Z) (draws : list Z) :
  0 <= d ->
  Forall (fun k => 0 <= k < order g) draws ->
  match sign_loop g (digest_to_bn g dgst) d draws with
  | Some (r, s) =>
      ECDSA_do_verify g dgst (Some (r, s)) (mkKEY key0 (Some (scalar_mul g d G))) = 1 /\
      0 < r < order g /\ 0 < s < order g
  | None => Forall (fun k => sign_with_nonce g (digest_to_bn g dgst) d k = None) draws
  end.
Proof.
  intros Hd Hdraws. induction Hdraws as [| k draws Hk _ IH]; cbn [sign_loop].
  - constructor.
  - destruct (sign_with_nonce g (digest_to_bn g dgst) d k) as [[[r s] |] |] eqn:E.
    + split; [apply (sign_with_nonce_verifies dgst d k r s key0 Hd Hk E) |].
      pose proof (sign_with_nonce_verifies dgst d k r s key0 Hd Hk E) as Hv.
      unfold ECDSA_do_verify in Hv. cbn [pub_key] in Hv.
      destruct ((r <=? 0) || (EC.n g <=? r) || (s <=? 0) || (EC.n g <=? s)) eqn:Hrange;
        [discriminate |].
      rewrite !orb_false_iff in Hrange. destruct Hrange as [[[H1 H2] H3] H4].
      apply Z.leb_gt in H1, H2, H3, H4. unfold EC.n in *. lia.
    + exfalso. apply (sign_with_nonce_no_error _ d k Hk E).
    + destruct (sign_loop g (digest_to_bn g dgst) d draws) as [[r s] |].
      * exact IH.
      * constructor; assumption.
Qed.

(** *** Point encoding *)

Lemma field_len_bounds :
  (field_len g <= 32)%nat /\ field g <= 2 ^ (8 * Z.of_nat (field_len g)).
Proof.
  pose proof (field_256 g laws) as Hp. unfold field_len, BN_num_bytes.
  pose proof (num_bits_nonneg (field g)) as Hb.
  pose proof (num_bits_le (field g) 256 ltac:(lia) ltac:(lia)) as Hb'.
  pose proof (num_bits_upper (field g) ltac:(lia)) as Hu.
  assert (H0 : 0 <= (BN_num_bits (field g) + 7) / 8) by (apply Z.div_pos; lia).
  assert (H1 : (BN_num_bits (field g) + 7) / 8 <= 32).
  { assert ((BN_num_bits (field g) + 7) / 8 < 33) by (apply Z.div_lt_upper_bound; lia). lia. }
  split; [lia |].
  rewrite Z2Nat.id by lia.
  eapply Z.le_trans; [apply Z.lt_le_incl, Hu |].
  apply Z.pow_le_mono_r; [lia |].
  pose proof (Z.div_mod (BN_num_bits (field g) + 7) 8 ltac:(lia)).
  pose proof (Z.mod_pos_bound (BN_num_bits (field g) + 7) 8 ltac:(lia)). lia.
Qed.

Lemma valid_coordinates (x y : Z) :
  valid_point g (Some (x, y)) = true ->
  0 <= x < field g /\ 0 <= y < field g /\ EC_POINT_is_on_curve g (Some (x, y)) = true.
Proof.
  unfold valid_point. rewrite !andb_true_iff.
  intros [[[[H1 H2] H3] H4] H5].
  apply Z.leb_le in H1, H3. apply Z.ltb_lt in H2, H4. auto.
Qed.

(** A valid finite point fills the 65-byte buffer of [derivePublicKey] with
    its uncompressed encoding, and [EC_POINT_oct2point] reads it back. *)
Lemma point2oct_valid (x y : Z) :
  valid_point g (Some (x, y)) = true ->
  EC_POINT_point2oct g (Some (x, y)) 65 = point_octets x y.
Proof.
  intros Hv. destruct (valid_coordinates x y Hv) as (Hx & Hy & _).
  destruct field_len_bounds as [Hfl Hp].
  unfold EC_POINT_point2oct.
  replace (1 + 2 * field_len g <=? 65)%nat with true
    by (symmetry; apply Nat.leb_le; lia).
  rewrite !BN_bn2binpad_ok by lia. reflexivity.
Qed.

Lemma oct2point_valid (P0 : EC_POINT) (x y : Z) :
  valid_point g (Some (x, y)) = true ->
  EC_POINT_oct2point g P0 (point_octets x y) = (1, Some (x, y)).
Proof.
  intros Hv. destruct (valid_coordinates x y Hv) as (Hx & Hy & Hc).
  destruct field_len_bounds as [Hfl Hp].
  unfold EC_POINT_oct2point, point_octets.
  change (Z_of_byte x04) with 4. change (Z.odd 4) with false.
  change (Z.land 4 254) with 4.
  change (negb ((4 =? 0) || (4 =? 2) || (4 =? 4) || (4 =? 6))) with false.
  change (((4 =? 0) || (4 =? 4)) && false) with false.
  change (4 =? 0) with false. change (4 =? 2) with false. change (4 =? 6) with false.
  cbv iota.
  rewrite length_app, !be_bytes_length.
  replace (field_len g + field_len g =? 2 * field_len g)%nat with true
    by (symmetry; apply Nat.eqb_eq; lia).
  cbn [negb andb].
  rewrite firstn_app, skipn_app, be_bytes_length, Nat.sub_diag.
  rewrite firstn_all2, skipn_all2 by (rewrite be_bytes_length; lia).
  cbn [firstn skipn app]. rewrite app_nil_r.
  rewrite !BN_bin2bn_be_bytes, !Z.mod_small by lia.
  replace (field g <=? x) with false by (symmetry; apply Z.leb_gt; lia).
  replace (field g <=? y) with false by (symmetry; apply Z.leb_gt; lia).
  unfold EC_POINT_set_affine_coordinates.
  rewrite !Z.mod_small by lia. now rewrite Hc.
Qed.

End Laws.

(** *** The methods *)

Section Methods.

Variable SHA256 : list byte -> list byte.
Variable g : EC_GROUP.

Local Abbreviation G := (EC_GROUP_get0_generator g).

(** The four methods on inputs that [hexToBytes] decodes, reduced to the
    library calls that decide their result. *)
Lemma derivePublicKey_eval (privHex : string) (bytes : list byte) :
  Codec.hexToBytes privHex = Ok bytes ->
  Crypto.derivePublicKey g privHex =
  Ok (Codec.bytesToHex
        (EC_POINT_point2oct g (EC_POINT_add g (scalar_mul g (BN_bin2bn bytes) G) None) 65)).
Proof.
  intros H. unfold Crypto.derivePublicKey. cbn [EC_KEY_new_by_curve_name].
  rewrite H. reflexivity.
Qed.

Lemma sign_eval (draws : list Z) (message privHex : string) (bytes : list byte) :
  Codec.hexToBytes privHex = Ok bytes ->
  Crypto.sign SHA256 g draws message privHex =
  match sign_loop g (digest_to_bn g (Crypto.EVP_Digest SHA256 (bytes_of_string message)))
                  (BN_bin2bn bytes) draws with
  | None => Throw (runtime_error "Failed to create signature")
  | Some signature =>
      match fst (DER.i2d_ECDSA_SIG signature) with
      | Some der => Ok (Codec.bytesToHex der)
      | None => Ok EmptyString
      end
  end.
Proof.
  intros H. unfold Crypto.sign. cbn [EC_KEY_new_by_curve_name].
  rewrite H. cbn [bind]. unfold EC_KEY_set_private_key, ECDSA_do_sign. cbn [priv_key].
  destruct (sign_loop g _ (BN_bin2bn bytes) draws) as [sig |]; [| reflexivity].
  destruct (DER.i2d_ECDSA_SIG sig) as [[der |] len]; reflexivity.
Qed.

Lemma verify_eval (sigHex message pubHex : string) (pb sb : list byte) :
  Codec.hexToBytes pubHex = Ok pb ->
  Codec.hexToBytes sigHex = Ok sb ->
  Crypto.verify SHA256 g sigHex message pubHex =
  Ok (ECDSA_do_verify g (Crypto.EVP_Digest SHA256 (bytes_of_string message))
        (DER.d2i_ECDSA_SIG sb)
        (mkKEY None (Some (snd (EC_POINT_oct2point g EC_POINT_new pb)))) =? 1).
Proof.
  intros Hp Hs. unfold Crypto.verify. cbn [EC_KEY_new_by_curve_name].
  rewrite Hp. cbn [bind].
  destruct (EC_POINT_oct2point g EC_POINT_new pb) as [r pub]. cbn [snd].
  unfold EC_KEY_set_public_key. cbn [priv_key]. rewrite Hs. reflexivity.
Qed.

Lemma getSharedKey_eval (privHex pubHex : string) (bytes pb : list byte) :
  Codec.hexToBytes privHex = Ok bytes ->
  Codec.hexToBytes pubHex = Ok pb ->
  Crypto.getSharedKey g privHex pubHex =
  let '(r, pub) := EC_POINT_oct2point g EC_POINT_new pb in
  if r =? 0 then Throw (runtime_error "Failed to create public key point")
  else
    match scalar_mul g (BN_bin2bn bytes) pub with
    | None => Throw (runtime_error "Failed to get shared secret")
    | Some (x, _) =>
        Ok (Codec.bytesToHex
              match BN_bn2binpad x 32 with Some b => b | None => repeat x00 32 end)
    end.
Proof.
  intros Hk Hp. unfold Crypto.getSharedKey. cbn [EC_KEY_new_by_curve_name].
  rewrite Hk. cbn [bind]. unfold EC_KEY_set_private_key.
  change (1 =? 0) with false. cbv iota. rewrite Hp. cbn [bind].
  destruct (EC_POINT_oct2point g EC_POINT_new pb) as [r pub].
  destruct (r =? 0); [reflexivity |].
  unfold EC_POINT_mul. change (1 =? 0) with false. cbv iota. cbn [EC_POINT_add].
  destruct (scalar_mul g (BN_bin2bn bytes) pub) as [[x y] |]; reflexivity.
Qed.

(** An exception of [hexToBytes] leaves [verify] as it is: nothing catches
    it, for the public key (decoded first) or for the signature. *)
Lemma verify_throw_key (sigHex message pubHex : string) (e : exn) :
  Codec.hexToBytes pubHex = Throw e ->
  Crypto.verify SHA256 g sigHex message pubHex = Throw e.
Proof.
  intros Hp. unfold Crypto.verify. cbn [EC_KEY_new_by_curve_name]. rewrite Hp. reflexivity.
Qed.






Hypothesis laws : group_laws g.


(** A nonce that signing accepts is enough for [sign] to return. *)
Lemma sign_returns (draws : list Z) (message privateKeyHex : string)
    (privateKeyBytes : list byte) (k : Z) :
  Codec.hexToBytes privateKeyHex = Ok privateKeyBytes ->
  0 < BN_bin2bn privateKeyBytes < order g ->
  Forall (fun k => 0 <= k < order g) draws ->
  In k draws ->
  sign_with_nonce g (digest_to_bn g (Crypto.EVP_Digest SHA256 (bytes_of_string message)))
                  (BN_bin2bn privateKeyBytes) k <> None ->
  returns (Crypto.sign SHA256 g draws message privateKeyHex).
Proof.
  intros Hhex Hd Hdraws Hin Hk.
  rewrite (sign_eval draws message _ _ Hhex).
  set (dgst := Crypto.EVP_Digest SHA256 (bytes_of_string message)) in *.
  pose proof (sign_loop_verifies g laws dgst (BN_bin2bn privateKeyBytes) None draws
                ltac:(lia) Hdraws) as Hloop.
  destruct (sign_loop g (digest_to_bn g dgst) (BN_bin2bn privateKeyBytes) draws)
    as [[r s] |].
  - destruct (fst (DER.i2d_ECDSA_SIG (r, s))); eexists; reflexivity.
  - rewrite Forall_forall in Hloop. elim Hk. now apply Hloop.
Qed.


End Methods.





End ECDSAFacts.

(** ** More about the codec *)

Module HexFacts.
Import Codec CodecProps HexProps CodecFacts.

(** X1.  [bytesToHex] writes exactly two characters for every byte, and
    only the digits 0-9 and a-f. *)
Theorem bytesToHex_two_digits_per_byte (data : list byte) :
  String.length (bytesToHex data) = (2 * List.length data)%nat /\
  all_chars is_lower_hex (bytesToHex data) = true.
Proof. split; [apply bytesToHex_length | apply bytesToHex_lowercase]. Qed.

(** X2.  [bytesToHex] is injective: two byte sequences have the same
    encoding only when they are equal. *)
Theorem bytesToHex_injective (a b : list byte) :
  bytesToHex a = bytesToHex b <-> a = b.
Proof.
  split; [| now intros ->].
  intros H. pose proof (decode_encoded a) as Ha. rewrite H, decode_encoded in Ha.
  congruence.
Qed.

(** X3.  The encoding of a concatenation is the concatenation of the
    encodings, so an encoded record can be cut at twice the byte offsets. *)
Theorem bytesToHex_concat (l1 l2 : list byte) :
  bytesToHex (l1 ++ l2) = (bytesToHex l1 ++ bytesToHex l2)%string.
Proof. apply bytesToHex_app. Qed.

(** X4.  Whenever [hexToBytes] returns, it returns one byte for every two
    characters, and one more for the last character of an odd-length
    string: [ceil(length / 2)] bytes. *)
Theorem hexToBytes_byte_count (s : string) (bytes : list byte) :
  hexToBytes s = Ok bytes -> List.length bytes = Nat.div2 (S (String.length s)).
Proof.
  revert bytes. induction s as [| c1 | c1 c2 rest IH] using string_chunk_ind; intros bytes H.
  - injection H as <-. reflexivity.
  - cbn [hexToBytes] in H. destruct (stoi16 _) as [v | e]; [| discriminate].
    injection H as <-. reflexivity.
  - cbn [hexToBytes] in H. destruct (stoi16 _) as [v | e]; [| discriminate].
    cbn [bind] in H. destruct (hexToBytes rest) as [bs | e]; [| discriminate].
    injection H as <-. cbn [List.length String.length Nat.div2]. now rewrite (IH bs eq_refl).
Qed.

Lemma hexToBytes_byte_count_witness :
  List.length [xab; x0c] = Nat.div2 (S (String.length "abc")).
Proof.
  apply (hexToBytes_byte_count "abc" [xab; x0c]). reflexivity.
Defined.

(** Decoding goes chunk by chunk: after an even number of characters the
    rest is decoded on its own. *)
Lemma hexToBytes_app (s1 s2 : string) :
  Nat.even (String.length s1) = true ->
  hexToBytes (s1 ++ s2) =
  (b1 <- hexToBytes s1 ;; b2 <- hexToBytes s2 ;; Ok (b1 ++ b2)).
Proof.
  induction s1 as [| c1 | c1 c2 rest IH] using string_chunk_ind; intros Hev.
  - cbn [append hexToBytes bind]. destruct (hexToBytes s2); reflexivity.
  - discriminate Hev.
  - cbn [append hexToBytes]. destruct (stoi16 _) as [v | e]; [| reflexivity].
    cbn [bind]. rewrite (IH Hev).
    destruct (hexToBytes rest) as [b1 | e]; [| reflexivity]. cbn [bind].
    destruct (hexToBytes s2) as [b2 | e]; reflexivity.
Qed.

(** X5.  For a first part of even length, [hexToBytes] of a concatenation
    decodes both parts and concatenates the bytes; it throws when either
    part does, the first part first. *)
Theorem hexToBytes_concat (s1 s2 : string) :
  Nat.even (String.length s1) = true ->
  hexToBytes (s1 ++ s2) =
  match hexToBytes s1, hexToBytes s2 with
  | Ok b1, Ok b2 => Ok (b1 ++ b2)
  | Throw e, _ => Throw e
  | Ok _, Throw e => Throw e
  end.
Proof.
  intros Hev. rewrite (hexToBytes_app s1 s2 Hev).
  destruct (hexToBytes s1) as [b1 | e]; [| reflexivity].
  destruct (hexToBytes s2) as [b2 | e]; reflexivity.
Qed.

Lemma hexToBytes_concat_witness :
  hexToBytes ("ab" ++ "cd") =
  match hexToBytes "ab", hexToBytes "cd" with
  | Ok b1, Ok b2 => Ok (b1 ++ b2)
  | Throw e, _ => Throw e
  | Ok _, Throw e => Throw e
  end.
Proof.
  apply (hexToBytes_concat "ab" "cd"). reflexivity.
Defined.

Lemma hex_chunk (c1 c2 : ascii) : hex_chunk_spec c1 c2 = true.
Proof.
  revert c1 c2. apply (forall_ascii2 hex_chunk_spec). vm_compute. reflexivity.
Qed.

(** X6.  [hexToBytes] does not tell uppercase from lowercase digits: an
    even-length string of hex digits of either case decodes to the bytes of
    its lowercase form, and encoding them gives the lowercase form. *)
Theorem hexToBytes_case_insensitive (s : string) :
  Nat.even (String.length s) = true ->
  all_chars is_hex s = true ->
  exists bytes,
    hexToBytes s = Ok bytes /\
    hexToBytes (lowercase s) = Ok bytes /\
    bytesToHex bytes = lowercase s.
Proof.
  intros Hlen Hhex.
  assert (H : exists bytes, hexToBytes s = Ok bytes /\ bytesToHex bytes = lowercase s).
  { induction s as [| c1 | c1 c2 rest IH] using string_chunk_ind.
    - exists []. split; reflexivity.
    - discriminate Hlen.
    - cbn [all_chars] in Hhex.
      apply andb_true_iff in Hhex as [H1 Hhex]. apply andb_true_iff in Hhex as [H2 Hhex].
      destruct (IH Hlen Hhex) as (bytes & Hdec & Henc).
      pose proof (hex_chunk c1 c2) as Hc. unfold hex_chunk_spec in Hc.
      rewrite H1, H2 in Hc. cbn [andb negb orb] in Hc.
      cbn [hexToBytes].
      destruct (stoi16 (String c1 (String c2 EmptyString))) as [v | e]; [| discriminate].
      apply String.eqb_eq in Hc.
      exists (byte_of_Z v :: bytes). cbn [bind]. rewrite Hdec. cbn [bind].
      split; [reflexivity |].
      cbn [bytesToHex lowercase]. rewrite Hc, Henc. reflexivity. }
  destruct H as (bytes & Hdec & Henc). exists bytes.
  split; [exact Hdec |]. split; [| exact Henc].
  rewrite <- Henc. apply decode_encoded.
Qed.

Lemma hexToBytes_case_insensitive_witness :
  exists bytes,
    hexToBytes "AbCd" = Ok bytes /\
    hexToBytes (lowercase "AbCd") = Ok bytes /\
    bytesToHex bytes = lowercase "AbCd".
Proof.
  apply (hexToBytes_case_insensitive "AbCd"); reflexivity.
Defined.

End HexFacts.

(** ** More about [encrypt] and [decrypt] *)

Module EnvelopeFacts.
Import EVP CCM EVPStates EVPFacts SessionFacts AEADProps AEADFacts.

Section Methods.

Variable SHA256 : list byte -> list byte.
Variable AES : list byte -> list byte -> list byte.

Local Abbreviation encrypt := (Crypto.encrypt SHA256 AES).
Local Abbreviation decrypt := (Crypto.decrypt SHA256 AES).
Local Abbreviation aes_key := (AEADProps.aes_key SHA256).
Local Abbreviation expected_tag := (AEADProps.expected_tag SHA256 AES).


(** X7.  For a plaintext whose length fits an [int], [encrypt] returns an
    envelope exactly when the plaintext has at least 1 and fewer than 2^24
    bytes, whatever the key material and the nonce. *)
Theorem encrypt_returns_iff (r : list byte) (key msg : string) :
  Z.of_nat (String.length msg) <= INT_MAX ->
  returns (encrypt (Some r) key msg) <-> 1 <= Z.of_nat (String.length msg) < 2 ^ 24.
Proof.
  intros Hint. split.
  - intros [envelope Henc].
    destruct msg as [| c msg'] eqn:Em.
    + rewrite (encrypt_empty SHA256 AES) in Henc. discriminate.
    + rewrite <- Em in *.
      destruct (Z.lt_ge_cases (Z.of_nat (String.length msg)) (2 ^ 24)) as [Hlt | Hge].
      * split; [| exact Hlt]. subst msg. cbn [String.length]. lia.
      * rewrite (encrypt_too_long SHA256 AES) in Henc by lia. discriminate.
  - intros Hn.
    destruct (encrypt_ok SHA256 AES r key msg Hn) as (cc & ct & _ & _ & _ & _ & Henc).
    eexists. exact Henc.
Qed.

(** What [decrypt] makes of an envelope [encrypt] wrote. *)
Lemma decrypt_encrypted (r : list byte) (key msg : string) :
  1 <= Z.of_nat (String.length msg) < 2 ^ 24 ->
  exists envelope,
    encrypt (Some r) key msg = Ok envelope /\
    decrypt key envelope = Ok msg.
Proof.
  intros Hn.
  destruct (encrypt_ok SHA256 AES r key msg Hn)
    as (cc & ct & Hrun & Hct & Hmac & Htag & Henc).
  exists (Codec.bytesToHex (buffer 12 r ++ ct ++ cmac cc)). split; [exact Henc |].
  destruct (envelope_split (buffer 12 r) ct (cmac cc) (buffer_length _ _) Hmac)
    as (Hlen & Hnonce & Hcipher & Htg).
  rewrite (decrypt_eval SHA256 AES key _ _ (CodecFacts.decode_encoded _)).
  - cbv zeta. rewrite Hnonce, Hcipher, Htg, Hlen.
    replace (List.length ct + 28 - 28)%nat with (String.length msg) by lia.
    destruct (CCMFacts.ccm128_decrypt_encrypt AES _ _ _ _ Hrun) as [Hdec _].
    rewrite Hdec, Htag.
    rewrite CRYPTO_memcmp_refl by lia.
    change ((0 =? 0) && negb (16 =? 0) && (0 =? 0)) with true. cbv iota.
    rewrite store_all
      by (unfold vector; rewrite repeat_length, bytes_of_string_length; auto).
    rewrite firstn_all2 by (rewrite bytes_of_string_length; lia).
    now rewrite string_of_bytes_of_string.
  - lia.
  - rewrite Hlen. unfold INT_MAX. change (2 ^ 24) with 16777216 in Hn. lia.
Qed.

(** X8.  An envelope with at least one and fewer than 2^24 ciphertext bytes
    is decrypted exactly when the tag it carries is the tag CCM computes
    for its nonce and ciphertext under the key; otherwise [decrypt] throws
    "Failed to decrypt message or tag verification failed", and it throws
    nothing else. *)
Theorem decrypt_authenticates (key hex : string) (encrypted : list byte) :
  Codec.hexToBytes hex = Ok encrypted ->
  (28 < List.length encrypted)%nat ->
  Z.of_nat (List.length encrypted - 28) < 2 ^ 24 ->
  (returns (decrypt key hex) <-> envelope_tag encrypted = expected_tag key encrypted) /\
  (throws (decrypt key hex) ->
   decrypt key hex =
   Throw (runtime_error "Failed to decrypt message or tag verification failed")).
Proof.
  intros Hhex Hlen Hn.
  assert (Hint : Z.of_nat (List.length encrypted - 28) <= INT_MAX).
  { unfold INT_MAX. change (2 ^ 24) with 16777216 in Hn. lia. }
  destruct (list_eq_dec Byte.byte_eq_dec (envelope_tag encrypted)
              (expected_tag key encrypted)) as [Heq | Hne].
  - assert (Hret : returns (decrypt key hex)).
    { rewrite (decrypt_eval SHA256 AES key hex encrypted Hhex Hlen Hint). cbv zeta.
      unfold AEADProps.expected_tag, envelope_tag in Heq.
      set (clen := (List.length encrypted - 28)%nat) in *.
      assert (Htl : List.length (skipn (List.length encrypted - 16) encrypted) = 16%nat)
        by (rewrite length_skipn; lia).
      rewrite (buffer_id 16) by exact Htl.
      pose proof (ccm128_crypt_session AES true (aes_key key) (buffer 12 encrypted)
                    (Z.of_nat clen) (firstn clen (skipn 12 encrypted))
                    (buffer_length _ _)) as [_ Hok].
      destruct Hok as (cc & w & Hrun & Htag & Hmac).
      { rewrite length_firstn, length_skipn, Z.mod_small by lia. lia. }
      unfold CRYPTO_ccm128_decrypt in *. rewrite Hrun in *. cbn [fst snd] in Heq.
      rewrite Htag, Heq, CRYPTO_memcmp_refl by lia.
      change ((0 =? 0) && negb (16 =? 0) && (0 =? 0)) with true. cbv iota.
      eexists. reflexivity. }
    split; [tauto |]. intros [e He]. destruct Hret as [p Hp]. congruence.
  - pose proof (decrypt_rejects_bad_tag SHA256 AES key hex encrypted Hhex Hlen Hint Hne) as Hrej.
    split; [| intros _; exact Hrej].
    split; [| contradiction]. intros [p Hp]. congruence.
Qed.


(** X10.  An envelope of exactly 28 bytes, a nonce and a tag around no
    ciphertext, is decrypted to the empty string under every key and with
    every tag: nothing is computed from the key, and the tag is not
    compared. *)
Theorem decrypt_accepts_every_28_byte_envelope (key hex : string) (encrypted : list byte) :
  Codec.hexToBytes hex = Ok encrypted ->
  List.length encrypted = 28%nat ->
  decrypt key hex = Ok EmptyString.
Proof. apply decrypt_28. Qed.

End Methods.

Lemma encrypt_returns_iff_witness :
  returns (Crypto.encrypt SHA256.digest AES.encrypt_block
             (Some TestVectors.nonce_0_to_11) "key" "hello") <->
  1 <= Z.of_nat (String.length "hello") < 2 ^ 24.
Proof.
  apply (encrypt_returns_iff SHA256.digest AES.encrypt_block
           TestVectors.nonce_0_to_11 "key" "hello").
  unfold INT_MAX. cbn. lia.
Defined.

Lemma decrypt_authenticates_witness :
  (returns (Crypto.decrypt SHA256.digest AES.encrypt_block "key"
              (Codec.bytesToHex TestVectors.envelope_hello)) <->
   envelope_tag TestVectors.envelope_hello =
   expected_tag SHA256.digest AES.encrypt_block "key" TestVectors.envelope_hello) /\
  (throws (Crypto.decrypt SHA256.digest AES.encrypt_block "key"
             (Codec.bytesToHex TestVectors.envelope_hello)) ->
   Crypto.decrypt SHA256.digest AES.encrypt_block "key"
     (Codec.bytesToHex TestVectors.envelope_hello) =
   Throw (runtime_error "Failed to decrypt message or tag verification failed")).
Proof.
  apply (decrypt_authenticates SHA256.digest AES.encrypt_block "key"
           (Codec.bytesToHex TestVectors.envelope_hello) TestVectors.envelope_hello).
  - reflexivity.
  - cbn. lia.
  - cbn. lia.
Defined.


Lemma decrypt_accepts_every_28_byte_envelope_witness :
  Crypto.decrypt SHA256.digest AES.encrypt_block "any key"
    "ffffffffffffffffffffffffffffffffffffffffffffffffffffffff" = Ok EmptyString.
Proof.
  apply (decrypt_accepts_every_28_byte_envelope SHA256.digest AES.encrypt_block "any key"
           "ffffffffffffffffffffffffffffffffffffffffffffffffffffffff" (repeat xff 28));
    reflexivity.
Defined.

End EnvelopeFacts.

(** ** More about keys, signatures and shared keys *)

Module KeyFacts.
Import EC ECLaws ECDSAProps ECFacts DERFacts ECDSAFacts.

(** *** DER with bytes after the signature *)

Lemma get_sub_packet_more (pkt more : list byte) (len : nat) (content rest : list byte) :
  DER.get_sub_packet pkt len = Some (content, rest) ->
  DER.get_sub_packet (pkt ++ more) len = Some (content, rest ++ more).
Proof.
  unfold DER.get_sub_packet. destruct (len <=? List.length pkt)%nat eqn:E; [| discriminate].
  apply Nat.leb_le in E. intros H. injection H as <- <-.
  rewrite length_app.
  replace (len <=? List.length pkt + List.length more)%nat with true
    by (symmetry; apply Nat.leb_le; lia).
  rewrite firstn_app, skipn_app.
  replace (len - List.length pkt)%nat with 0%nat by lia.
  cbn [firstn skipn]. now rewrite app_nil_r.
Qed.

Lemma decode_der_length_more (pkt more content rest : list byte) :
  DER.decode_der_length pkt = Some (content, rest) ->
  DER.decode_der_length (pkt ++ more) = Some (content, rest ++ more).
Proof.
  unfold DER.decode_der_length. destruct pkt as [| b pkt]; [discriminate |].
  cbn [app]. destruct (Z_of_byte b <? 128).
  - apply get_sub_packet_more.
  - destruct (Byte.eqb b x81).
    + destruct pkt as [| l1 pkt]; [discriminate |]. cbn [app]. apply get_sub_packet_more.
    + destruct (Byte.eqb b x82); [| discriminate].
      destruct pkt as [| l1 [| l2 pkt]]; try discriminate. cbn [app].
      apply get_sub_packet_more.
Qed.

(** [d2i_ECDSA_SIG] stops at the end of the sequence. *)
Lemma d2i_more (der more : list byte) (sig : Z * Z) :
  DER.d2i_ECDSA_SIG der = Some sig -> DER.d2i_ECDSA_SIG (der ++ more) = Some sig.
Proof.
  unfold DER.d2i_ECDSA_SIG, DER.decode_der_dsa_sig.
  destruct der as [| tag rest]; [discriminate |]. cbn [app].
  destruct (negb (Byte.eqb tag DER.ID_SEQUENCE)); [discriminate |].
  destruct (DER.decode_der_length rest) as [[content rest'] |] eqn:E; [| discriminate].
  now rewrite (decode_der_length_more _ more _ _ E).
Qed.

(** The encoding of a signature below 2^256: between 8 and 72 bytes, read
    back whatever follows. *)
Lemma i2d_shape (r s : Z) :
  0 <= r < 2 ^ 256 -> 0 <= s < 2 ^ 256 ->
  exists der,
    DER.i2d_ECDSA_SIG (r, s) = (Some der, Z.of_nat (List.length der)) /\
    (8 <= List.length der <= 72)%nat /\
    forall more, DER.d2i_ECDSA_SIG (der ++ more) = Some (r, s).
Proof.
  intros Hr Hs. destruct (d2i_i2d r s Hr Hs) as (der & Hi & Hd).
  exists der. split; [exact Hi |]. split; [| intros more; now apply d2i_more].
  unfold DER.i2d_ECDSA_SIG, DER.encode_der_dsa_sig in Hi. cbn [fst snd] in Hi.
  rewrite (encode_integer r Hr), (encode_integer s Hs) in Hi.
  pose proof (integer_content_length r Hr) as Hlr.
  pose proof (integer_content_length s Hs) as Hls.
  set (er := DER.ID_INTEGER :: byte_of_Z _ :: DERProps.integer_content r) in *.
  set (es := DER.ID_INTEGER :: byte_of_Z _ :: DERProps.integer_content s) in *.
  assert (Hlen : Z.of_nat (List.length (er ++ es)) =
                 4 + Z.of_nat (List.length (DERProps.integer_content r))
                   + Z.of_nat (List.length (DERProps.integer_content s))).
  { subst er es. rewrite length_app. cbn [List.length]. lia. }
  rewrite encode_short_length in Hi by lia.
  injection Hi as Hder _. subst der. cbn [app List.length]. rewrite length_app.
  subst er es. cbn [List.length]. lia.
Qed.

Section Laws.

Variable g : EC_GROUP.

Local Abbreviation G := (EC_GROUP_get0_generator g).

Hypothesis laws : group_laws g.

(** The 65-byte encoding of any valid point, infinity included, is read
    back as that point. *)
Lemma oct2point_point2oct (P0 P : EC_POINT) :
  valid_point g P = true ->
  EC_POINT_oct2point g P0 (EC_POINT_point2oct g P 65) = (1, P).
Proof.
  intros HP. destruct P as [[x y] |].
  - rewrite (point2oct_valid g laws x y HP). apply (oct2point_valid g laws _ x y HP).
  - reflexivity.
Qed.

End Laws.

(** The arithmetic of a signature written without a key: with
    [s = e / c] and [w = 1 / s], the scalar of the generator in the
    verification is [e * w = c]. *)
Lemma keyless_scalars (n e c cinv w s : Z) :
  1 < n -> 0 <= c < n ->
  (cinv * c) mod n = 1 ->
  s = (e * cinv) mod n ->
  (w * s) mod n = 1 ->
  (e * w) mod n = c.
Proof.
  intros Hn Hc H1 Hs H2.
  pose proof (Z.div_mod (cinv * c) n ltac:(lia)) as E1. rewrite H1 in E1.
  pose proof (Z.div_mod (e * cinv) n ltac:(lia)) as E3. rewrite <- Hs in E3.
  pose proof (Z.div_mod (w * s) n ltac:(lia)) as E2. rewrite H2 in E2.
  set (q1 := cinv * c / n) in *. set (q3 := e * cinv / n) in *.
  set (q2 := w * s / n) in *.
  assert (E : e * w = c + (c * w * q3 + c * q2 - e * w * q1) * n) by nsatz.
  rewrite E, Z_mod_plus_full. apply Z.mod_small. lia.
Qed.

Section Methods.

Variable SHA256 : list byte -> list byte.
Variable g : EC_GROUP.

Local Abbreviation G := (EC_GROUP_get0_generator g).
Local Abbreviation derivePublicKey := (Crypto.derivePublicKey g).
Local Abbreviation sign := (Crypto.sign SHA256 g).
Local Abbreviation verify := (Crypto.verify SHA256 g).
Local Abbreviation getSharedKey := (Crypto.getSharedKey g).
Local Abbreviation digest m := (Crypto.EVP_Digest SHA256 (bytes_of_string m)).

(** The public key is the encoding of [priv * G], whatever that point
    is. *)
Lemma derivePublicKey_point (privHex : string) (bytes : list byte) :
  Codec.hexToBytes privHex = Ok bytes ->
  derivePublicKey privHex =
  Ok (Codec.bytesToHex (EC_POINT_point2oct g (scalar_mul g (BN_bin2bn bytes) G) 65)).
Proof.
  intros H. rewrite (derivePublicKey_eval g _ _ H). now rewrite (add_inf_r g).
Qed.

(** X21.  Whenever [getSharedKey] returns, the shared key is a string of
    exactly 64 lowercase hex digits (the x coordinate on 32 bytes). *)
Theorem getSharedKey_length (secretKeyHex publicKeyHex sharedKey : string) :
  getSharedKey secretKeyHex publicKeyHex = Ok sharedKey ->
  String.length sharedKey = 64%nat /\
  Codec.all_chars Codec.is_lower_hex sharedKey = true.
Proof.
  intros H.
  destruct (Codec.hexToBytes secretKeyHex) as [sb | e] eqn:Hs.
  2:{ unfold Crypto.getSharedKey in H. cbn [EC_KEY_new_by_curve_name] in H.
      rewrite Hs in H. discriminate. }
  destruct (Codec.hexToBytes publicKeyHex) as [pb | e] eqn:Hp.
  2:{ unfold Crypto.getSharedKey in H. cbn [EC_KEY_new_by_curve_name] in H.
      rewrite Hs in H. cbn [bind] in H. unfold EC_KEY_set_private_key in H.
      change (1 =? 0) with false in H. cbv iota in H. rewrite Hp in H. discriminate. }
  rewrite (getSharedKey_eval g _ _ _ _ Hs Hp) in H.
  destruct (EC_POINT_oct2point g EC_POINT_new pb) as [r pub].
  destruct (r =? 0); [discriminate |].
  destruct (scalar_mul g (BN_bin2bn sb) pub) as [[x y] |]; [| discriminate].
  injection H as <-.
  split; [| apply CodecFacts.bytesToHex_lowercase].
  rewrite CodecFacts.bytesToHex_length.
  destruct (BN_bn2binpad x 32) as [b |] eqn:E.
  - unfold BN_bn2binpad in E. destruct (BN_num_bytes x <=? Z.of_nat 32); [| discriminate].
    injection E as E. subst b. reflexivity.
  - reflexivity.
Qed.

(** X22.  [getSharedKey] checks the peer's point: an uncompressed public
    key [04 || X || Y] whose coordinates are not below the field size, or
    do not satisfy the curve equation, is refused with "Failed to create
    public key point", whatever the private key. *)
Theorem getSharedKey_rejects_invalid_point (secretKeyHex : string) (secretKeyBytes : list byte)
    (x y : Z) :
  Codec.hexToBytes secretKeyHex = Ok secretKeyBytes ->
  0 <= x < 2 ^ (8 * Z.of_nat (field_len g)) ->
  0 <= y < 2 ^ (8 * Z.of_nat (field_len g)) ->
  valid_point g (Some (x, y)) = false ->
  getSharedKey secretKeyHex (Codec.bytesToHex (point_octets g x y)) =
  Throw (runtime_error "Failed to create public key point").
Proof.
  intros Hs Hx Hy Hv.
  rewrite (getSharedKey_eval g _ _ _ _ Hs (CodecFacts.decode_encoded _)).
  assert (Hoct : fst (EC_POINT_oct2point g EC_POINT_new (point_octets g x y)) = 0).
  { unfold EC_POINT_oct2point, point_octets.
    change (Z_of_byte x04) with 4. change (Z.odd 4) with false.
    change (Z.land 4 254) with 4.
    change (negb ((4 =? 0) || (4 =? 2) || (4 =? 4) || (4 =? 6))) with false.
    change (((4 =? 0) || (4 =? 4)) && false) with false.
    change (4 =? 0) with false. change (4 =? 2) with false. change (4 =? 6) with false.
    cbv iota.
    rewrite length_app, !be_bytes_length.
    replace (field_len g + field_len g =? 2 * field_len g)%nat with true
      by (symmetry; apply Nat.eqb_eq; lia).
    cbn [negb andb].
    rewrite firstn_app, skipn_app, be_bytes_length, Nat.sub_diag.
    rewrite firstn_all2, skipn_all2 by (rewrite be_bytes_length; lia).
    cbn [firstn skipn app]. rewrite app_nil_r.
    rewrite !BN_bin2bn_be_bytes, !Z.mod_small by lia.
    destruct (Z.leb_spec (field g) x) as [Hpx | Hpx]; [reflexivity |].
    destruct (Z.leb_spec (field g) y) as [Hpy | Hpy]; [reflexivity |].
    unfold EC_POINT_set_affine_coordinates. rewrite !Z.mod_small by lia.
    unfold valid_point in Hv.
    replace (0 <=? x) with true in Hv by (symmetry; apply Z.leb_le; lia).
    replace (x <? field g) with true in Hv by (symmetry; apply Z.ltb_lt; lia).
    replace (0 <=? y) with true in Hv by (symmetry; apply Z.leb_le; lia).
    replace (y <? field g) with true in Hv by (symmetry; apply Z.ltb_lt; lia).
    cbn [andb] in Hv. now rewrite Hv. }
  destruct (EC_POINT_oct2point g EC_POINT_new (point_octets g x y)) as [r pub].
  cbn [fst] in Hoct. subst r. reflexivity.
Qed.

(** X23.  A private key that decodes to zero, or a public key that is the
    point at infinity (the encoding ["00"]), gives no shared key:
    [getSharedKey] throws "Failed to get shared secret". *)
Theorem getSharedKey_no_secret_at_infinity (secretKeyHex publicKeyHex : string)
    (secretKeyBytes publicKeyBytes : list byte) :
  Codec.hexToBytes secretKeyHex = Ok secretKeyBytes ->
  Codec.hexToBytes publicKeyHex = Ok publicKeyBytes ->
  fst (EC_POINT_oct2point g EC_POINT_new publicKeyBytes) <> 0 ->
  BN_bin2bn secretKeyBytes = 0 \/
  snd (EC_POINT_oct2point g EC_POINT_new publicKeyBytes) = None ->
  getSharedKey secretKeyHex publicKeyHex =
  Throw (runtime_error "Failed to get shared secret").
Proof.
  intros Hs Hp Hr Hinf.
  rewrite (getSharedKey_eval g _ _ _ _ Hs Hp).
  destruct (EC_POINT_oct2point g EC_POINT_new publicKeyBytes) as [r pub].
  cbn [fst snd] in *. apply Z.eqb_neq in Hr. rewrite Hr.
  destruct Hinf as [-> | ->]; [reflexivity |].
  now rewrite (mul_inf g).
Qed.

End Methods.

Section Lawful.

Variable SHA256 : list byte -> list byte.
Variable g : EC_GROUP.
Hypothesis laws : group_laws g.

Local Abbreviation G := (EC_GROUP_get0_generator g).
Local Abbreviation derivePublicKey := (Crypto.derivePublicKey g).
Local Abbreviation sign := (Crypto.sign SHA256 g).
Local Abbreviation verify := (Crypto.verify SHA256 g).
Local Abbreviation getSharedKey := (Crypto.getSharedKey g).
Local Abbreviation digest m := (Crypto.EVP_Digest SHA256 (bytes_of_string m)).

(** What [sign] returns, for any private key that decodes. *)
Lemma sign_outcome (draws : list Z) (message privHex : string) (bytes : list byte) :
  Codec.hexToBytes privHex = Ok bytes ->
  Forall (fun k => 0 <= k < order g) draws ->
  match sign_loop g (digest_to_bn g (digest message)) (BN_bin2bn bytes) draws with
  | Some (r, s) =>
      exists der,
        sign draws message privHex = Ok (Codec.bytesToHex der) /\
        (8 <= List.length der <= 72)%nat /\
        (forall more, DER.d2i_ECDSA_SIG (der ++ more) = Some (r, s)) /\
        0 < r < order g /\ 0 < s < order g /\
        ECDSA_do_verify g (digest message) (Some (r, s))
          (mkKEY None (Some (scalar_mul g (BN_bin2bn bytes) G))) = 1
  | None =>
      sign draws message privHex = Throw (runtime_error "Failed to create signature") /\
      Forall (fun k => sign_with_nonce g (digest_to_bn g (digest message))
                         (BN_bin2bn bytes) k = None) draws
  end.
Proof.
  intros Hhex Hdraws.
  rewrite (sign_eval SHA256 g draws message _ _ Hhex).
  pose proof (sign_loop_verifies g laws (digest message) (BN_bin2bn bytes) None draws
                (BN_bin2bn_nonneg _) Hdraws) as Hloop.
  destruct (sign_loop g _ (BN_bin2bn bytes) draws) as [[r s] |]; [| auto].
  destruct Hloop as (Hver & Hr & Hs).
  pose proof (order_256 g laws) as Hn.
  destruct (i2d_shape r s ltac:(lia) ltac:(lia)) as (der & Hi2d & Hlen & Hd2i).
  exists der. rewrite Hi2d. cbn [fst]. auto 10.
Qed.

(** [verify] under a derived public key checks against the point
    [priv * G]. *)
Lemma verify_derived (sigHex message privHex : string) (bytes sb : list byte) :
  Codec.hexToBytes privHex = Ok bytes ->
  Codec.hexToBytes sigHex = Ok sb ->
  exists pub,
    derivePublicKey privHex = Ok pub /\
    verify sigHex message pub =
    Ok (ECDSA_do_verify g (digest message) (DER.d2i_ECDSA_SIG sb)
          (mkKEY None (Some (scalar_mul g (BN_bin2bn bytes) G))) =? 1).
Proof.
  intros Hhex Hsig. eexists. split; [apply (derivePublicKey_point g _ _ Hhex) |].
  rewrite (verify_eval SHA256 g _ message _ _ _ (CodecFacts.decode_encoded _) Hsig).
  rewrite (oct2point_point2oct g laws)
    by (apply (mul_valid g laws), (generator_valid g laws)).
  reflexivity.
Qed.


(** X16.  What [sign] returns is the lowercase hex encoding of a DER
    signature of 8 to 72 bytes (16 to 144 characters), which
    [d2i_ECDSA_SIG] reads back as a pair [(r, s)] with both numbers in
    [1, order - 1]. *)
Theorem sign_signature_shape (draws : list Z) (message privateKeyHex : string)
    (privateKeyBytes : list byte) (signatureHex : string) :
  Codec.hexToBytes privateKeyHex = Ok privateKeyBytes ->
  Forall (fun k => 0 <= k < order g) draws ->
  sign draws message privateKeyHex = Ok signatureHex ->
  exists der r s,
    signatureHex = Codec.bytesToHex der /\
    (16 <= String.length signatureHex <= 144)%nat /\
    Codec.all_chars Codec.is_lower_hex signatureHex = true /\
    DER.d2i_ECDSA_SIG der = Some (r, s) /\
    0 < r < order g /\ 0 < s < order g.
Proof.
  intros Hhex Hdraws Hsig.
  pose proof (sign_outcome draws message _ _ Hhex Hdraws) as Hsign.
  destruct (sign_loop g _ (BN_bin2bn privateKeyBytes) draws) as [[r s] |].
  - destruct Hsign as (der & Hs & Hlen & Hd2i & Hr & Hsr & _).
    rewrite Hs in Hsig. injection Hsig as <-.
    exists der, r, s. split; [reflexivity |].
    rewrite CodecFacts.bytesToHex_length.
    specialize (Hd2i []). rewrite app_nil_r in Hd2i.
    repeat split; auto using CodecFacts.bytesToHex_lowercase; lia.
  - destruct Hsign as [Hs _]. congruence.
Qed.

(** X12.  For a private key that is not a multiple of the order,
    [derivePublicKey] returns the hex encoding of [04 || X || Y], where
    [(X, Y)] is the point [priv * G] of the curve: [2 + 4 * field_len]
    characters, 130 for a 32-byte field, never more. *)
Theorem derivePublicKey_shape (privateKeyHex : string) (privateKeyBytes : list byte) :
  Codec.hexToBytes privateKeyHex = Ok privateKeyBytes ->
  BN_bin2bn privateKeyBytes mod order g <> 0 ->
  exists publicKeyHex x y,
    derivePublicKey privateKeyHex = Ok publicKeyHex /\
    publicKeyHex = Codec.bytesToHex (point_octets g x y) /\
    scalar_mul g (BN_bin2bn privateKeyBytes) G = Some (x, y) /\
    valid_point g (Some (x, y)) = true /\
    String.length publicKeyHex = (2 + 4 * field_len g)%nat /\
    (String.length publicKeyHex <= 130)%nat.
Proof.
  intros Hhex Hd.
  pose proof (mul_valid g laws (BN_bin2bn privateKeyBytes) G (generator_valid g laws)) as Hv.
  pose proof (mul_nonzero g laws _ (BN_bin2bn_nonneg privateKeyBytes) Hd) as Hnz.
  destruct (scalar_mul g (BN_bin2bn privateKeyBytes) G) as [[x y] |] eqn:E; [| congruence].
  exists (Codec.bytesToHex (point_octets g x y)), x, y.
  rewrite (derivePublicKey_point g _ _ Hhex), E, (point2oct_valid g laws x y Hv).
  rewrite CodecFacts.bytesToHex_length. unfold point_octets. cbn [List.length].
  rewrite length_app, !be_bytes_length.
  destruct (field_len_bounds g laws) as [Hfl _].
  repeat split; auto; lia.
Qed.

(** X13.  A private key that decodes to a multiple of the order, the empty
    string and the all-zero key among them, is not refused: its public key
    is ["00"], the one-byte encoding of the point at infinity. *)
Theorem derivePublicKey_multiple_of_order (privateKeyHex : string)
    (privateKeyBytes : list byte) :
  Codec.hexToBytes privateKeyHex = Ok privateKeyBytes ->
  BN_bin2bn privateKeyBytes mod order g = 0 ->
  derivePublicKey privateKeyHex = Ok "00"%string.
Proof.
  intros H H0. rewrite (derivePublicKey_point g _ _ H).
  rewrite (mul_mod_order g laws) by apply BN_bin2bn_nonneg.
  rewrite H0. reflexivity.
Qed.

(** X14.  [derivePublicKey] does not check the range of the private key:
    two private keys that agree modulo the order have the same public
    key. *)
Theorem derivePublicKey_modulo_order (hex1 hex2 : string) (bytes1 bytes2 : list byte) :
  Codec.hexToBytes hex1 = Ok bytes1 ->
  Codec.hexToBytes hex2 = Ok bytes2 ->
  BN_bin2bn bytes1 mod order g = BN_bin2bn bytes2 mod order g ->
  derivePublicKey hex1 = derivePublicKey hex2.
Proof.
  intros H1 H2 Hmod.
  rewrite (derivePublicKey_point g _ _ H1), (derivePublicKey_point g _ _ H2).
  rewrite (mul_mod_order g laws (BN_bin2bn bytes1)) by apply BN_bin2bn_nonneg.
  rewrite (mul_mod_order g laws (BN_bin2bn bytes2)) by apply BN_bin2bn_nonneg.
  now rewrite Hmod.
Qed.

(** X19.  [verify] goes on when the public-key input holds no point.  With
    an input that [EC_POINT_oct2point] leaves at infinity (the empty string,
    a truncated or unknown encoding, or ["00"]), it accepts, for any
    message whose digest is not zero modulo the order, the pair
    [signature_without_key], which is computed from the message alone. *)
Theorem verify_accepts_keyless_signature (message publicKeyHex : string)
    (publicKeyBytes : list byte) (c : Z) :
  Codec.hexToBytes publicKeyHex = Ok publicKeyBytes ->
  snd (EC_POINT_oct2point g EC_POINT_new publicKeyBytes) = None ->
  0 < c < order g ->
  digest_to_bn g (digest message) mod order g <> 0 ->
  fst (signature_without_key g (digest message) c) <> 0 ->
  exists der,
    fst (DER.i2d_ECDSA_SIG (signature_without_key g (digest message) c)) = Some der /\
    verify (Codec.bytesToHex der) message publicKeyHex = Ok true.
Proof.
  intros Hpub Hinf Hc He Hr0.
  pose proof (order_pos g laws) as Hn. pose proof (order_256 g laws) as Hn256.
  pose proof (order_prime g laws) as Hprime.
  set (e := digest_to_bn g (digest message)) in *.
  destruct (nonce_point g laws c Hc) as (x & y & HcG & _).
  unfold signature_without_key in *. fold e in Hr0 |- *. rewrite HcG in *. cbn [fst snd] in *.
  set (r := x mod order g) in *.
  set (cinv := inverse_mod_order g c).
  set (s := (e * cinv) mod order g).
  assert (Hcinv : (cinv * c) mod order g = 1)
    by (apply (inverse_mod_order_correct g laws), mod_order_small; exact Hc).
  assert (Hrb : 0 < r < order g).
  { pose proof (Z.mod_pos_bound x (order g) ltac:(lia)). subst r. lia. }
  assert (Hs0 : s <> 0).
  { subst s. intros Hz. apply Z.mod_divide in Hz; [| lia].
    apply (Z.divide_prime_mul _ _ _ Hprime) in Hz.
    destruct Hz as [Hz | Hz].
    - apply Z.mod_divide in Hz; [| lia]. contradiction.
    - destruct Hz as [q Hq]. rewrite Hq in Hcinv.
      replace (q * order g * c) with (q * c * order g) in Hcinv by ring.
      rewrite Z_mod_mult in Hcinv. discriminate. }
  assert (Hsb : 0 < s < order g).
  { pose proof (Z.mod_pos_bound (e * cinv) (order g) ltac:(lia)). subst s. lia. }
  destruct (i2d_shape r s ltac:(lia) ltac:(lia)) as (der & Hi2d & _ & Hd2i).
  exists der. rewrite Hi2d. split; [reflexivity |].
  rewrite (verify_eval SHA256 g _ message _ _ _ Hpub (CodecFacts.decode_encoded _)).
  rewrite Hinf. specialize (Hd2i []). rewrite app_nil_r in Hd2i. rewrite Hd2i.
  unfold ECDSA_do_verify. cbn [pub_key]. unfold EC.n. fold e.
  replace ((r <=? 0) || (order g <=? r) || (s <=? 0) || (order g <=? s)) with false
    by (symmetry; repeat (apply orb_false_intro); lia).
  unfold EC_POINT_mul. cbn [snd].
  rewrite (mul_inf g), (add_inf_r g).
  assert (Hu1 : (e * inverse_mod_order g s) mod order g = c).
  { apply (keyless_scalars (order g) e c cinv (inverse_mod_order g s) s); auto; try lia.
    apply (inverse_mod_order_correct g laws). rewrite Z.mod_small; lia. }
  rewrite Hu1, HcG. cbn [EC_POINT_get_affine_coordinates].
  fold r. now rewrite Z.eqb_refl.
Qed.

(** ECDH: with the public key of the scalar [b], the scalar [a] gets the
    x coordinate of [(a * b) * G], whatever the size of the scalars. *)
Lemma getSharedKey_derived (privA privB : string) (bytesA bytesB : list byte) :
  Codec.hexToBytes privA = Ok bytesA ->
  Codec.hexToBytes privB = Ok bytesB ->
  (BN_bin2bn bytesA * BN_bin2bn bytesB) mod order g <> 0 ->
  exists pubB x y,
    derivePublicKey privB = Ok pubB /\
    scalar_mul g (BN_bin2bn bytesA * BN_bin2bn bytesB) G = Some (x, y) /\
    getSharedKey privA pubB = Ok (Codec.bytesToHex (be_bytes 32 x)).
Proof.
  intros HA HB Hprod.
  pose proof (generator_valid g laws) as HG.
  pose proof (BN_bin2bn_nonneg bytesA) as Ha. pose proof (BN_bin2bn_nonneg bytesB) as Hb.
  pose proof (mul_nonzero g laws (BN_bin2bn bytesA * BN_bin2bn bytesB)
                ltac:(apply Z.mul_nonneg_nonneg; lia) Hprod) as Hnz.
  pose proof (mul_valid g laws (BN_bin2bn bytesA * BN_bin2bn bytesB) G HG) as Hv.
  destruct (scalar_mul g (BN_bin2bn bytesA * BN_bin2bn bytesB) G) as [[x y] |] eqn:E;
    [| congruence].
  destruct (valid_coordinates g x y Hv) as (Hx & _).
  pose proof (field_256 g laws) as Hp.
  exists (Codec.bytesToHex (EC_POINT_point2oct g (scalar_mul g (BN_bin2bn bytesB) G) 65)), x, y.
  split; [apply (derivePublicKey_point g _ _ HB) |].
  split; [reflexivity |].
  rewrite (getSharedKey_eval g _ _ _ _ HA (CodecFacts.decode_encoded _)).
  rewrite (oct2point_point2oct g laws) by (apply (mul_valid g laws), HG).
  change (1 =? 0) with false. cbv iota.
  rewrite (mul_mul g laws) by auto. rewrite E.
  now rewrite BN_bn2binpad_ok by (change (8 * Z.of_nat 32) with 256; lia).
Qed.

(** X20.  The shared key is the x coordinate, on 32 bytes, of the point
    [(a * b) * G], [a] and [b] being the numbers the two private keys
    decode to; both sides obtain it, for all private keys whose product is
    not a multiple of the order, in range or not. *)
Theorem getSharedKey_is_product_point (privA privB : string) (bytesA bytesB : list byte) :
  Codec.hexToBytes privA = Ok bytesA ->
  Codec.hexToBytes privB = Ok bytesB ->
  (BN_bin2bn bytesA * BN_bin2bn bytesB) mod order g <> 0 ->
  exists pubA pubB x y,
    derivePublicKey privA = Ok pubA /\
    derivePublicKey privB = Ok pubB /\
    scalar_mul g (BN_bin2bn bytesA * BN_bin2bn bytesB) G = Some (x, y) /\
    getSharedKey privA pubB = Ok (Codec.bytesToHex (be_bytes 32 x)) /\
    getSharedKey privB pubA = Ok (Codec.bytesToHex (be_bytes 32 x)).
Proof.
  intros HA HB Hprod.
  destruct (getSharedKey_derived _ _ _ _ HA HB Hprod) as (pubB & x & y & HpB & E & HsA).
  rewrite Z.mul_comm in Hprod.
  destruct (getSharedKey_derived _ _ _ _ HB HA Hprod) as (pubA & x' & y' & HpA & E' & HsB).
  rewrite Z.mul_comm, E in E'. injection E' as <- <-.
  exists pubA, pubB, x, y. auto.
Qed.

(** *** The second signature *)






End Lawful.

Section Trailing.

Variable SHA256 : list byte -> list byte.
Variable g : EC_GROUP.

(** X17.  [verify] does not look at what follows the DER signature: hex
    digits appended to a signature string that parses leave its result
    unchanged. *)
Theorem verify_ignores_trailing_bytes (signatureHex trailingHex message publicKeyHex : string)
    (sigBytes trailingBytes : list byte) (sig : Z * Z) :
  Nat.even (String.length signatureHex) = true ->
  Codec.hexToBytes signatureHex = Ok sigBytes ->
  Codec.hexToBytes trailingHex = Ok trailingBytes ->
  DER.d2i_ECDSA_SIG sigBytes = Some sig ->
  Crypto.verify SHA256 g (signatureHex ++ trailingHex) message publicKeyHex =
  Crypto.verify SHA256 g signatureHex message publicKeyHex.
Proof.
  intros Hev Hs Ht Hd.
  assert (Hcat : Codec.hexToBytes (signatureHex ++ trailingHex) = Ok (sigBytes ++ trailingBytes)).
  { rewrite (HexFacts.hexToBytes_app _ _ Hev), Hs, Ht. reflexivity. }
  destruct (Codec.hexToBytes publicKeyHex) as [pb | e] eqn:Hp.
  - rewrite (verify_eval SHA256 g _ message _ _ _ Hp Hcat).
    rewrite (verify_eval SHA256 g _ message _ _ _ Hp Hs).
    now rewrite (d2i_more _ trailingBytes _ Hd), Hd.
  - now rewrite !(verify_throw_key SHA256 g _ message _ _ Hp).
Qed.

End Trailing.

(** *** The statements above on the small curve *)

Ltac small_order := cbv [order curve23]; lia.

Lemma derivePublicKey_shape_witness :
  exists publicKeyHex x y,
    Crypto.derivePublicKey curve23 "07" = Ok publicKeyHex /\
    publicKeyHex = Codec.bytesToHex (point_octets curve23 x y) /\
    scalar_mul curve23 (BN_bin2bn [x07]) (EC_GROUP_get0_generator curve23) = Some (x, y) /\
    valid_point curve23 (Some (x, y)) = true /\
    String.length publicKeyHex = (2 + 4 * field_len curve23)%nat /\
    (String.length publicKeyHex <= 130)%nat.
Proof.
  apply (derivePublicKey_shape curve23 SmallCurve.curve23_laws "07" [x07]).
  - reflexivity.
  - vm_compute. intros H. discriminate H.
Defined.

Lemma derivePublicKey_multiple_of_order_witness :
  Crypto.derivePublicKey curve23 "1f" = Ok "00"%string.
Proof.
  apply (derivePublicKey_multiple_of_order curve23 SmallCurve.curve23_laws "1f" [x1f]);
    reflexivity.
Defined.

Lemma derivePublicKey_modulo_order_witness :
  Crypto.derivePublicKey curve23 "01" = Crypto.derivePublicKey curve23 "20".
Proof.
  apply (derivePublicKey_modulo_order curve23 SmallCurve.curve23_laws "01" "20" [x01] [x20]);
    reflexivity.
Defined.


Lemma sign_signature_shape_witness :
  exists der r s,
    "300602010802011d"%string = Codec.bytesToHex der /\
    (16 <= String.length "300602010802011d" <= 144)%nat /\
    Codec.all_chars Codec.is_lower_hex "300602010802011d" = true /\
    DER.d2i_ECDSA_SIG der = Some (r, s) /\
    0 < r < order curve23 /\ 0 < s < order curve23.
Proof.
  apply (sign_signature_shape SHA256.digest curve23 SmallCurve.curve23_laws
           [5] "Hello, World!" "07" [x07] "300602010802011d").
  - reflexivity.
  - constructor; [small_order | constructor].
  - vm_compute. reflexivity.
Defined.

Lemma verify_ignores_trailing_bytes_witness :
  Crypto.verify SHA256.digest curve23 ("3006020101020101" ++ "ffff") "message" "04070a" =
  Crypto.verify SHA256.digest curve23 "3006020101020101" "message" "04070a".
Proof.
  apply (verify_ignores_trailing_bytes SHA256.digest curve23
           "3006020101020101" "ffff" "message" "04070a"
           [x30; x06; x02; x01; x01; x02; x01; x01] [xff; xff] (1, 1));
    reflexivity.
Defined.


Lemma verify_accepts_keyless_signature_witness :
  exists der,
    fst (DER.i2d_ECDSA_SIG
           (signature_without_key curve23
              (Crypto.EVP_Digest SHA256.digest (bytes_of_string "Hello, World!")) 2))
      = Some der /\
    Crypto.verify SHA256.digest curve23 (Codec.bytesToHex der) "Hello, World!" EmptyString
      = Ok true.
Proof.
  apply (verify_accepts_keyless_signature SHA256.digest curve23 SmallCurve.curve23_laws
           "Hello, World!" EmptyString [] 2).
  - reflexivity.
  - reflexivity.
  - small_order.
  - vm_compute. intros H. discriminate H.
  - vm_compute. intros H. discriminate H.
Defined.

Lemma getSharedKey_is_product_point_witness :
  exists pubA pubB x y,
    Crypto.derivePublicKey curve23 "07" = Ok pubA /\
    Crypto.derivePublicKey curve23 "09" = Ok pubB /\
    scalar_mul curve23 (BN_bin2bn [x07] * BN_bin2bn [x09]) (EC_GROUP_get0_generator curve23)
      = Some (x, y) /\
    Crypto.getSharedKey curve23 "07" pubB = Ok (Codec.bytesToHex (be_bytes 32 x)) /\
    Crypto.getSharedKey curve23 "09" pubA = Ok (Codec.bytesToHex (be_bytes 32 x)).
Proof.
  apply (getSharedKey_is_product_point curve23 SmallCurve.curve23_laws "07" "09" [x07] [x09]).
  - reflexivity.
  - reflexivity.
  - vm_compute. intros H. discriminate H.
Defined.

Lemma getSharedKey_length_witness :
  String.length "6a9501d85bf5dc802a1f28a08acc7d8fdf53c8af01a7cd3832a290825d8bdac1" = 64%nat /\
  Codec.all_chars Codec.is_lower_hex
    "6a9501d85bf5dc802a1f28a08acc7d8fdf53c8af01a7cd3832a290825d8bdac1" = true.
Proof.
  apply (getSharedKey_length prime256v1 "07" TestVectors.pub9
           "6a9501d85bf5dc802a1f28a08acc7d8fdf53c8af01a7cd3832a290825d8bdac1").
  vm_compute. reflexivity.
Defined.

Lemma getSharedKey_rejects_invalid_point_witness :
  Crypto.getSharedKey curve23 "07" (Codec.bytesToHex (point_octets curve23 1 1)) =
  Throw (runtime_error "Failed to create public key point").
Proof.
  apply (getSharedKey_rejects_invalid_point curve23 "07" [x07] 1 1).
  - reflexivity.
  - vm_compute. split; [intros H; discriminate H | reflexivity].
  - vm_compute. split; [intros H; discriminate H | reflexivity].
  - reflexivity.
Defined.

Lemma getSharedKey_no_secret_at_infinity_witness :
  Crypto.getSharedKey curve23 "07" "00" =
  Throw (runtime_error "Failed to get shared secret").
Proof.
  apply (getSharedKey_no_secret_at_infinity curve23 "07" "00" [x07] [x00]).
  - reflexivity.
  - reflexivity.
  - vm_compute. intros H. discriminate H.
  - right. reflexivity.
Defined.

End KeyFacts.

(** ** Key generation *)

Module ProgramFacts.
Import EC ECLaws ECFacts DERFacts ECDSAFacts KeyFacts.

(** The generation loop stops at the first draw that is not zero. *)
Lemma generate_loop_spec (draws : list Z) :
  match generate_loop draws with
  | Some d => In d draws /\ d <> 0
  | None => Forall (fun k => k = 0) draws
  end.
Proof.
  induction draws as [| k rest IH]; cbn [generate_loop]; [constructor |].
  destruct (Z.eqb_spec k 0) as [-> | Hk].
  - destruct (generate_loop rest) as [d |].
    + destruct IH. split; [now right | assumption].
    + now constructor.
  - split; [now left | assumption].
Qed.

Section Keys.

Variable g : EC_GROUP.

(** [generatePrivateKey] writes the first draw that is not zero, on 32
    bytes. *)
Lemma generatePrivateKey_eval (draws : list Z) :
  order g <= 2 ^ 256 ->
  Forall (fun k => 0 <= k < order g) draws ->
  Crypto.generatePrivateKey g draws =
  match generate_loop draws with
  | Some d => Ok (Codec.bytesToHex (be_bytes 32 d))
  | None => Throw (runtime_error "Failed to generate private key")
  end.
Proof.
  intros Hn Hdraws. unfold Crypto.generatePrivateKey, EC_KEY_generate_key.
  cbn [EC_KEY_new_by_curve_name].
  pose proof (generate_loop_spec draws) as Hloop.
  destruct (generate_loop draws) as [d |]; [| reflexivity].
  destruct Hloop as [Hin Hd0].
  rewrite Forall_forall in Hdraws. pose proof (Hdraws d Hin) as Hd.
  change (1 =? 0) with false. cbv iota.
  unfold EC_KEY_get0_private_key. cbn [priv_key].
  now rewrite BN_bn2binpad_ok by (change (8 * Z.of_nat 32) with 256; lia).
Qed.

(** X11.  With draws below the group order, [generatePrivateKey] returns
    64 lowercase hex digits: the first draw that is not zero, written on 32
    big-endian bytes, a scalar strictly between 0 and the order that
    [hexToBytes] and [BN_bin2bn] read back unchanged.  It throws, "Failed
    to generate private key", only when every draw is zero. *)
Theorem generatePrivateKey_valid (draws : list Z) :
  order g <= 2 ^ 256 ->
  Forall (fun k => 0 <= k < order g) draws ->
  match Crypto.generatePrivateKey g draws with
  | Ok privateKeyHex =>
      exists d,
        In d draws /\ 0 < d < order g /\
        privateKeyHex = Codec.bytesToHex (be_bytes 32 d) /\
        String.length privateKeyHex = 64%nat /\
        Codec.hexToBytes privateKeyHex = Ok (be_bytes 32 d) /\
        BN_bin2bn (be_bytes 32 d) = d
  | Throw e =>
      e = runtime_error "Failed to generate private key" /\
      Forall (fun k => k = 0) draws
  end.
Proof.
  intros Hn Hdraws. rewrite (generatePrivateKey_eval draws Hn Hdraws).
  pose proof (generate_loop_spec draws) as Hloop.
  destruct (generate_loop draws) as [d |]; [| now split].
  destruct Hloop as [Hin Hd0].
  rewrite Forall_forall in Hdraws. pose proof (Hdraws d Hin) as Hd.
  exists d. repeat split; auto; try lia.
  - rewrite CodecFacts.bytesToHex_length, be_bytes_length. reflexivity.
  - apply CodecFacts.decode_encoded.
  - rewrite BN_bin2bn_be_bytes. apply Z.mod_small.
    change (8 * Z.of_nat 32) with 256. lia.
Qed.

End Keys.

Lemma generatePrivateKey_valid_witness :
  match Crypto.generatePrivateKey curve23 [0; 7] with
  | Ok privateKeyHex =>
      exists d,
        In d [0; 7] /\ 0 < d < order curve23 /\
        privateKeyHex = Codec.bytesToHex (be_bytes 32 d) /\
        String.length privateKeyHex = 64%nat /\
        Codec.hexToBytes privateKeyHex = Ok (be_bytes 32 d) /\
        BN_bin2bn (be_bytes 32 d) = d
  | Throw e =>
      e = runtime_error "Failed to generate private key" /\
      Forall (fun k => k = 0) [0; 7]
  end.
Proof.
  apply (generatePrivateKey_valid curve23 [0; 7]).
  - vm_compute. discriminate.
  - repeat constructor; vm_compute; congruence.
Defined.

End ProgramFacts.

(** ** The program *)

Module MainFacts.
Import EC ECLaws ECFacts DERFacts ECDSAFacts KeyFacts ProgramFacts EnvelopeFacts.

Section Program.

Variable SHA256 : list byte -> list byte.
Variable AES : list byte -> list byte -> list byte.
Variable g : EC_GROUP.
Hypothesis laws : group_laws g.

Local Abbreviation digest m := (Crypto.EVP_Digest SHA256 (bytes_of_string m)).

(** A generator that delivers a draw other than zero yields a key. *)
Lemma generated_key (draws : list Z) :
  Forall (fun k => 0 <= k < order g) draws ->
  Exists (fun k => k <> 0) draws ->
  exists d,
    generate_loop draws = Some d /\
    0 < d < order g /\
    Crypto.generatePrivateKey g draws = Ok (Codec.bytesToHex (be_bytes 32 d)) /\
    BN_bin2bn (be_bytes 32 d) = d.
Proof.
  intros Hdraws Hex.
  pose proof (order_256 g laws) as Hn.
  rewrite (generatePrivateKey_eval g draws (Z.lt_le_incl _ _ Hn) Hdraws).
  pose proof (generate_loop_spec draws) as Hloop.
  destruct (generate_loop draws) as [d |].
  - destruct Hloop as [Hin Hd0]. rewrite Forall_forall in Hdraws.
    pose proof (Hdraws d Hin). exists d. repeat split; auto; try lia.
    rewrite BN_bin2bn_be_bytes. apply Z.mod_small. change (8 * Z.of_nat 32) with 256. lia.
  - exfalso. apply Exists_exists in Hex. destruct Hex as (k & Hin & Hk).
    rewrite Forall_forall in Hloop. now apply Hk, Hloop.
Qed.

(** The product of two scalars below the prime order is not a multiple of
    the order. *)
Lemma scalars_nonzero (a b : Z) :
  0 < a < order g -> 0 < b < order g -> (a * b) mod order g <> 0.
Proof.
  intros Ha Hb Hz. pose proof (order_pos g laws).
  apply Z.mod_divide in Hz; [| lia].
  apply (Z.divide_prime_mul _ _ _ (order_prime g laws)) in Hz.
  destruct Hz as [Hz | Hz]; apply Z.divide_pos_le in Hz; lia.
Qed.

(** X24.  With a random number generator that works (draws below the
    group order, a draw other than zero for each of the four keys, a nonce
    that yields a signature, [RAND_bytes] succeeding),
    [main] returns 0, writes nothing to [std::cerr] and writes sixteen
    lines to [std::cout]: the first block reports "Signature Valid: Yes"
    and "SharedKey Valid: Yes" and decrypts its message back; the second
    block reaches its last line, whose wording follows the verdict of
    [verify] on the foreign signature. *)
Theorem main_output (rng : Main.random_source) (entropy : list byte) :
  Main.nonce_entropy rng = Some entropy ->
  Forall (fun k => 0 <= k < order g) (Main.key_draws rng) ->
  Exists (fun k => k <> 0) (Main.key_draws rng) ->
  Forall (fun k => 0 <= k < order g) (Main.alice_draws rng) ->
  Exists (fun k => k <> 0) (Main.alice_draws rng) ->
  Forall (fun k => 0 <= k < order g) (Main.bob_draws rng) ->
  Exists (fun k => k <> 0) (Main.bob_draws rng) ->
  Forall (fun k => 0 <= k < order g) (Main.second_key_draws rng) ->
  Exists (fun k => k <> 0) (Main.second_key_draws rng) ->
  Forall (fun k => 0 <= k < order g) (Main.sign_draws rng) ->
  (forall d, generate_loop (Main.key_draws rng) = Some d ->
     Exists (fun k => sign_with_nonce g (digest_to_bn g (digest "Hello, World!!!!!!!!")) d k
                      <> None) (Main.sign_draws rng)) ->
  exists privateKey publicKey signature sharedKey encrypted privateKey2 publicKey2
         (isValid2 : bool),
    Main.main SHA256 AES g rng =
    (0, Main.mkConsole
          [ ("Private Key: " ++ privateKey)%string;
            ("Public Key: " ++ publicKey)%string;
            ("Signature: " ++ signature)%string;
            "Signature Valid: Yes"%string;
            ("SharedKey Value: " ++ sharedKey)%string;
            "SharedKey Valid: Yes"%string;
            ("Encrypted: " ++ encrypted)%string;
            "Decrypted: Hello, World!!!!!!!!"%string;
            "------------------------"%string;
            EmptyString;
            "실패 테스트"%string;
            ("Private Key: " ++ privateKey2)%string;
            ("Public Key: " ++ publicKey2)%string;
            ("Signature: " ++ Main.foreign_signature)%string;
            ("Signature Valid: " ++ (if isValid2 then "Yes" else "No"))%string;
            ("Signature Valid: " ++
             (if isValid2 then "실패 테스트 실패" else "실패 테스트 성공"))%string ]
          []).
Proof.
  intros Hent Hk1 Hk1' Hka Hka' Hkb Hkb' Hk2 Hk2' Hs Hs'.
  destruct (generated_key _ Hk1 Hk1') as (d1 & Hl1 & Hr1 & Hg1 & Hv1).
  destruct (generated_key _ Hka Hka') as (dA & HlA & HrA & HgA & HvA).
  destruct (generated_key _ Hkb Hkb') as (dB & HlB & HrB & HgB & HvB).
  destruct (generated_key _ Hk2 Hk2') as (d2 & Hl2 & Hr2 & Hg2 & Hv2).
  set (key1 := Codec.bytesToHex (be_bytes 32 d1)) in *.
  set (keyA := Codec.bytesToHex (be_bytes 32 dA)) in *.
  set (keyB := Codec.bytesToHex (be_bytes 32 dB)) in *.
  set (key2 := Codec.bytesToHex (be_bytes 32 d2)) in *.
  assert (Hd1 : Codec.hexToBytes key1 = Ok (be_bytes 32 d1)) by apply CodecFacts.decode_encoded.
  assert (HdA : Codec.hexToBytes keyA = Ok (be_bytes 32 dA)) by apply CodecFacts.decode_encoded.
  assert (HdB : Codec.hexToBytes keyB = Ok (be_bytes 32 dB)) by apply CodecFacts.decode_encoded.
  assert (Hd2 : Codec.hexToBytes key2 = Ok (be_bytes 32 d2)) by apply CodecFacts.decode_encoded.
  (* the signature and its check *)
  pose proof (sign_outcome SHA256 g laws (Main.sign_draws rng) "Hello, World!!!!!!!!"
                key1 _ Hd1 Hs) as Hsign.
  rewrite Hv1 in Hsign.
  destruct (sign_loop g _ d1 (Main.sign_draws rng)) as [[r s] |].
  2:{ exfalso. destruct Hsign as [_ Hall]. specialize (Hs' d1 Hl1).
      apply Exists_exists in Hs'. destruct Hs' as (k & Hin & Hk).
      rewrite Forall_forall in Hall. now apply Hk, Hall. }
  destruct Hsign as (der & Hsig & _ & Hd2i & _ & _ & Hver).
  destruct (verify_derived SHA256 g laws (Codec.bytesToHex der) "Hello, World!!!!!!!!"
              key1 _ _ Hd1 (CodecFacts.decode_encoded der)) as (pub1 & Hpub1 & Hverify).
  specialize (Hd2i []). rewrite app_nil_r in Hd2i.
  rewrite Hd2i, Hv1, Hver in Hverify. change (1 =? 1) with true in Hverify.
  (* the shared keys *)
  assert (Hprod : (BN_bin2bn (be_bytes 32 dA) * BN_bin2bn (be_bytes 32 dB)) mod order g <> 0)
    by (rewrite HvA, HvB; now apply scalars_nonzero).
  destruct (getSharedKey_derived g laws keyA keyB _ _ HdA HdB Hprod)
    as (pubB & x & y & HpB & E & HsA).
  rewrite Z.mul_comm in Hprod.
  destruct (getSharedKey_derived g laws keyB keyA _ _ HdB HdA Hprod)
    as (pubA & x' & y' & HpA & E' & HsB).
  rewrite Z.mul_comm, E in E'. injection E' as <- <-.
  set (shared := Codec.bytesToHex (be_bytes 32 x)) in *.
  (* the envelope *)
  destruct (decrypt_encrypted SHA256 AES entropy shared "Hello, World!!!!!!!!")
    as (envelope & Henc & Hdec).
  { cbn. lia. }
  (* the second key pair *)
  pose proof (derivePublicKey_point g key2 _ Hd2) as Hpub2.
  set (pub2 := Codec.bytesToHex _) in Hpub2.
  assert (Hver2 : returns (Crypto.verify SHA256 g Main.foreign_signature "Hello, World!" pub2)).
  { destruct (CodecFacts.hexToBytes_characterised Main.foreign_signature) as [sb Hsb].
    unfold pub2. rewrite (verify_eval SHA256 g _ "Hello, World!" _ _ _ (CodecFacts.decode_encoded _) Hsb).
    eexists. reflexivity. }
  destruct Hver2 as [isValid2 Hver2].
  exists key1, pub1, (Codec.bytesToHex der), shared, envelope, key2, pub2, isValid2.
  cbv beta iota zeta delta [Main.main Main.try_catch Main.first_block Main.second_block
                            Main.seq Main.call Main.print Main.cout Main.cerr].
  rewrite Hg1. cbv beta iota. rewrite Hpub1. cbv beta iota.
  rewrite Hsig. cbv beta iota. rewrite Hverify. cbv beta iota.
  rewrite HgA. cbv beta iota. rewrite HpA. cbv beta iota.
  rewrite HgB. cbv beta iota. rewrite HpB. cbv beta iota.
  rewrite HsA. cbv beta iota. rewrite HsB. cbv beta iota.
  rewrite String.eqb_refl, Hent, Henc. cbv beta iota. rewrite Hdec. cbv beta iota.
  rewrite Hg2. cbv beta iota. rewrite Hpub2. cbv beta iota.
  rewrite Hver2. cbv beta iota.
  reflexivity.
Qed.

End Program.

Lemma main_output_witness :
  exists privateKey publicKey signature sharedKey encrypted privateKey2 publicKey2
         (isValid2 : bool),
    Main.main SHA256.digest AES.encrypt_block curve23 TestVectors.small_run =
    (0, Main.mkConsole
          [ ("Private Key: " ++ privateKey)%string;
            ("Public Key: " ++ publicKey)%string;
            ("Signature: " ++ signature)%string;
            "Signature Valid: Yes"%string;
            ("SharedKey Value: " ++ sharedKey)%string;
            "SharedKey Valid: Yes"%string;
            ("Encrypted: " ++ encrypted)%string;
            "Decrypted: Hello, World!!!!!!!!"%string;
            "------------------------"%string;
            EmptyString;
            "실패 테스트"%string;
            ("Private Key: " ++ privateKey2)%string;
            ("Public Key: " ++ publicKey2)%string;
            ("Signature: " ++ Main.foreign_signature)%string;
            ("Signature Valid: " ++ (if isValid2 then "Yes" else "No"))%string;
            ("Signature Valid: " ++
             (if isValid2 then "실패 테스트 실패" else "실패 테스트 성공"))%string ]
          []).
Proof.
  apply (main_output SHA256.digest AES.encrypt_block curve23
           SmallCurve.curve23_laws TestVectors.small_run TestVectors.nonce_0_to_11).
  - reflexivity.
  - repeat constructor; vm_compute; congruence.
  - apply Exists_cons_hd. discriminate.
  - repeat constructor; vm_compute; congruence.
  - apply Exists_cons_hd. discriminate.
  - repeat constructor; vm_compute; congruence.
  - apply Exists_cons_hd. discriminate.
  - repeat constructor; vm_compute; congruence.
  - apply Exists_cons_hd. discriminate.
  - repeat constructor; vm_compute; congruence.
  - intros d Hd. injection Hd as <-. apply Exists_cons_hd. vm_compute. discriminate.
Defined.

End MainFacts.

(** ** Known-answer tests for the primitives *)

Module PrimitiveTests.

(** FIPS 180-4: SHA-256 of ["abc"] and of the empty message. *)
Example sha256_abc :
  Codec.bytesToHex (SHA256.digest (bytes_of_string "abc")) =
  "ba7816bf8f01cfea414140de5dae2223b00361a396177a9cb410ff61f20015ad"%string.
Proof. vm_compute. reflexivity. Qed.

Example sha256_empty :
  Codec.bytesToHex (SHA256.digest []) =
  "e3b0c44298fc1c149afbf4c8996fb92427ae41e4649b934ca495991b7852b855"%string.
Proof. vm_compute. reflexivity. Qed.

(** FIPS 197, appendix C.1. *)
Example aes128_fips197 :
  match Codec.hexToBytes "000102030405060708090a0b0c0d0e0f",
        Codec.hexToBytes "00112233445566778899aabbccddeeff" with
  | Ok key, Ok block =>
      Codec.bytesToHex (AES.encrypt_block key block) =
      "69c4e0d86a7b0430d8cdb78070b4c55a"%string
  | _, _ => False
  end.
Proof. vm_compute. reflexivity. Qed.

End PrimitiveTests.

(** ** Known answers of the library for [encrypt] and [decrypt]

    Envelopes produced by OpenSSL 3.0 for the nonce [00 01 .. 0b] (and
    [ff .. ff]), and what it answers on decryption. *)

Module AEADTests.
Import TestVectors.

Example encrypt_hello :
  encrypt (Some nonce_0_to_11) "key" "hello" =
  Ok "000102030405060708090a0bb575035665a20e106400059e680ef147ff1cebb08f"%string.
Proof. vm_compute. reflexivity. Qed.

Example encrypt_one_block :
  encrypt (Some nonce_0_to_11) "key" "0123456789abcdef" =
  Ok "000102030405060708090a0bed215d093e4efd20df19fcadb0f2c448d3fe404ab9f1308f0d799a5ec98f9e45"%string.
Proof. vm_compute. reflexivity. Qed.

Example encrypt_two_blocks :
  encrypt (Some nonce_0_to_11) "key" "0123456789abcdefX" =
  Ok "000102030405060708090a0bed215d093e4efd20df19fcadb0f2c4483b888fde3fc7d531a1850c5ebd970da39e"%string.
Proof. vm_compute. reflexivity. Qed.

Example encrypt_empty_key :
  encrypt (Some (repeat xff 12)) "" "xxxxxxxxxxxxxxxxxxxxxxxxxxxxxxxxx" =
  Ok "ffffffffffffffffffffffff8f093e91b32d7255399ecc749acb4dd37269c1ad66b246bfa4017d3b4f992b572833a81f616f8c4e3f3b79018184bb2839"%string.
Proof. vm_compute. reflexivity. Qed.

Example encrypt_empty_message :
  encrypt (Some nonce_0_to_11) "key" "" = Throw (runtime_error "Failed to get tag").
Proof. vm_compute. reflexivity. Qed.

Example decrypt_hello :
  decrypt "key" "000102030405060708090a0bb575035665a20e106400059e680ef147ff1cebb08f"
  = Ok "hello"%string.
Proof. vm_compute. reflexivity. Qed.

Example decrypt_wrong_key :
  decrypt "kez" "000102030405060708090a0bb575035665a20e106400059e680ef147ff1cebb08f"
  = Throw (runtime_error "Failed to decrypt message or tag verification failed").
Proof. vm_compute. reflexivity. Qed.

Example decrypt_tampered :
  decrypt "key" "000102030405060708090a0bb575035665a20e106400059e680ef147ff1cebb08e"
  = Throw (runtime_error "Failed to decrypt message or tag verification failed").
Proof. vm_compute. reflexivity. Qed.

Example decrypt_27_bytes :
  decrypt "key" "000000000000000000000000000000000000000000000000000000"
  = Throw (runtime_error "Invalid encrypted data length").
Proof. vm_compute. reflexivity. Qed.

Example decrypt_not_hex :
  decrypt "key" "zz" = Throw (invalid_argument "stoi").
Proof. vm_compute. reflexivity. Qed.

End AEADTests.

(** ** Known answers of the library for the curve methods

    What OpenSSL 3.0 answers on prime256v1. *)

Module ECTests.
Import EC TestVectors.

Example generator_on_curve :
  valid_point prime256v1 (EC_GROUP_get0_generator prime256v1) = true.
Proof. vm_compute. reflexivity. Qed.

Example prime256v1_sizes :
  1 < field prime256v1 < 2 ^ 256 /\ 1 < order prime256v1 < 2 ^ 256.
Proof. vm_compute. repeat split; reflexivity. Qed.

Example derive_1 :
  derivePublicKey "0000000000000000000000000000000000000000000000000000000000000001" =
  Ok pub1.
Proof. vm_compute. reflexivity. Qed.

Example derive_7 : derivePublicKey "07" = Ok pub7.
Proof. vm_compute. reflexivity. Qed.

Example derive_9 : derivePublicKey "09" = Ok pub9.
Proof. vm_compute. reflexivity. Qed.

(** The private key 0 has the point at infinity as its public key, which
    is encoded in one byte. *)
Example derive_0 : derivePublicKey "00" = Ok "00"%string.
Proof. vm_compute. reflexivity. Qed.

Example shared_7_9 :
  getSharedKey "07" pub9 =
  Ok "6a9501d85bf5dc802a1f28a08acc7d8fdf53c8af01a7cd3832a290825d8bdac1"%string.
Proof. vm_compute. reflexivity. Qed.

Example shared_9_7 :
  getSharedKey "09" pub7 =
  Ok "6a9501d85bf5dc802a1f28a08acc7d8fdf53c8af01a7cd3832a290825d8bdac1"%string.
Proof. vm_compute. reflexivity. Qed.

Example shared_with_infinity :
  getSharedKey "07" "00" = Throw (runtime_error "Failed to get shared secret").
Proof. vm_compute. reflexivity. Qed.

Example shared_with_truncated_key :
  getSharedKey "07" "04" = Throw (runtime_error "Failed to create public key point").
Proof. vm_compute. reflexivity. Qed.

Example verify_not_der : verify "3000" "Hello, World!" pub7 = Ok false.
Proof. vm_compute. reflexivity. Qed.

Example verify_empty_signature : verify "" "Hello, World!" pub7 = Ok false.
Proof. vm_compute. reflexivity. Qed.

Example verify_r_zero : verify "3006020100020105" "Hello, World!" pub7 = Ok false.
Proof. vm_compute. reflexivity. Qed.

Example verify_negative_integer : verify "3006020180020101" "Hello, World!" pub7 = Ok false.
Proof. vm_compute. reflexivity. Qed.

Example verify_signature_not_hex :
  verify "zz" "Hello, World!" pub7 = Throw (invalid_argument "stoi").
Proof. vm_compute. reflexivity. Qed.

(** The result of [EC_POINT_oct2point] is not looked at: with a public-key
    input that is no point, the key of [verify] stays at infinity, and the
    signature made without a private key is accepted. *)
Example verify_keyless_signature_empty_key :
  verify keyless_signature "Hello, World!" "" = Ok true.
Proof. vm_compute. reflexivity. Qed.

Example verify_keyless_signature_unknown_form :
  verify keyless_signature "Hello, World!" "0511111111" = Ok true.
Proof. vm_compute. reflexivity. Qed.

End ECTests.
